(** * LUKS USB encryption manager: the script [luks_encrypt_usb.py] in Rocq

    A shallow embedding of the script and the properties of its
    device-discovery and encryption decision flow.

    Conventions of the model.
    - A Python [str] is a [string] whose characters are read as code points
      below 256; [strip], [lower], [splitlines] and [int] are Python's,
      restricted to that range.
    - A run of the script is a function of the host it runs on (the tools it
      spawns, the file system and the runtime library) and of what the
      operator types.  It yields the sequence of observable events and the
      way the process ends.
    - [input()] reads the script's standard input and [getpass.getpass()]
      reads the controlling terminal; each is a finite list of lines, and a
      read past its end raises [EOFError], as in Python.
    - Every tool is run at most once per run with given arguments, so the
      host answers by the arguments of the call.
    - The spinner thread only repaints a status line, and a keyboard
      interrupt is not an input of the script; both are left out. *)

From Stdlib Require Import String Ascii List ZArith Lia Bool DecimalString.
Import ListNotations.
Local Open Scope string_scope.
Local Open Scope Z_scope.

(** ** Python strings *)

Module PyStr.

Definition ord (c : ascii) : nat := nat_of_ascii c.

Definition between (lo hi n : nat) : bool := (Nat.leb lo n && Nat.leb n hi)%bool.

(** [str.isspace] on one code point below 256. *)
Definition isspace (c : ascii) : bool :=
  (between 9 13 (ord c) || between 28 32 (ord c)
   || Nat.eqb (ord c) 133 || Nat.eqb (ord c) 160)%bool.

Fixpoint lstrip (s : string) : string :=
  match s with
  | EmptyString => EmptyString
  | String c s' => if isspace c then lstrip s' else s
  end.

Fixpoint rstrip (s : string) : string :=
  match s with
  | EmptyString => EmptyString
  | String c s' =>
      match rstrip s' with
      | EmptyString => if isspace c then EmptyString else String c EmptyString
      | r => String c r
      end
  end.

(** [s.strip()] *)
Definition strip (s : string) : string := rstrip (lstrip s).

(** Whether every character of [s] is whitespace. *)
Fixpoint all_space (s : string) : bool :=
  match s with
  | EmptyString => true
  | String c s' => (isspace c && all_space s')%bool
  end.

Definition lower_char (c : ascii) : ascii :=
  if (between 65 90 (ord c)
      || (between 192 222 (ord c) && negb (Nat.eqb (ord c) 215)))%bool
  then ascii_of_nat (ord c + 32) else c.

(** [s.lower()] *)
Fixpoint lower (s : string) : string :=
  match s with
  | EmptyString => EmptyString
  | String c s' => String (lower_char c) (lower s')
  end.

(** [s.upper()] where it keeps the length and the range; the script applies
    it to "gpt" only. *)
Definition upper_char (c : ascii) : ascii :=
  if (between 97 122 (ord c)
      || (between 224 254 (ord c) && negb (Nat.eqb (ord c) 247)))%bool
  then ascii_of_nat (ord c - 32) else c.

Fixpoint upper (s : string) : string :=
  match s with
  | EmptyString => EmptyString
  | String c s' => String (upper_char c) (upper s')
  end.

(** [needle in hay] *)
Fixpoint contains (needle hay : string) : bool :=
  (prefix needle hay
   || match hay with
      | EmptyString => false
      | String _ hay' => contains needle hay'
      end)%bool.

(** [s.split(sep)] for a one-character separator. *)
Fixpoint split (sep : ascii) (s : string) : list string :=
  match s with
  | EmptyString => [EmptyString]
  | String c s' =>
      if Ascii.eqb c sep then EmptyString :: split sep s'
      else match split sep s' with
           | x :: xs => String c x :: xs
           | [] => [String c EmptyString]
           end
  end.

(** The line boundaries of [str.splitlines] below 256. *)
Definition is_linebreak (c : ascii) : bool :=
  (between 10 13 (ord c) || between 28 30 (ord c) || Nat.eqb (ord c) 133)%bool.

(** [s.splitlines()]: a carriage return directly followed by a line feed is
    one boundary, and a final boundary opens no further line. *)
Fixpoint splitlines (s : string) : list string :=
  match s with
  | EmptyString => []
  | String c s' =>
      if is_linebreak c then
        EmptyString ::
          match s' with
          | String c' s'' =>
              if (Nat.eqb (ord c) 13 && Nat.eqb (ord c') 10)%bool
              then splitlines s'' else splitlines s'
          | EmptyString => []
          end
      else match splitlines s' with
           | l :: ls => String c l :: ls
           | [] => [String c EmptyString]
           end
  end.

(** [sep.join(parts)] *)
Definition join (sep : string) (parts : list string) : string :=
  String.concat sep parts.

Definition is_digit (c : ascii) : bool := between 48 57 (ord c).

Definition digit_val (c : ascii) : Z := Z.of_nat (ord c - 48).

(** The digits of an integer literal: single underscores are allowed between
    digits only. *)
Fixpoint int_digits (s : string) (acc : Z) (after_digit : bool) : option Z :=
  match s with
  | EmptyString => if after_digit then Some acc else None
  | String c s' =>
      if is_digit c then int_digits s' (10 * acc + digit_val c) true
      else if (Ascii.eqb c "_" && after_digit)%bool then int_digits s' acc false
      else None
  end.

(** [int(s)]: [None] stands for [ValueError].  (The length limit of recent
    interpreters, which also raises [ValueError], is not modelled.) *)
Definition py_int (s : string) : option Z :=
  match strip s with
  | String "+" r => int_digits r 0 false
  | String "-" r => option_map Z.opp (int_digits r 0 false)
  | r => int_digits r 0 false
  end.

(** [str(n)] for an integer. *)
Definition dec (z : Z) : string := NilZero.string_of_int (Z.to_int z).

(** [os.path.basename] *)
Definition basename (p : string) : string :=
  last (split "/" p) EmptyString.

Fixpoint ends_with_slash (s : string) : bool :=
  match s with
  | EmptyString => false
  | String c EmptyString => Ascii.eqb c "/"
  | String _ s' => ends_with_slash s'
  end.

(** [os.path.join(a, b)] *)
Definition path_join (a b : string) : string :=
  match b with
  | String "/" _ => b
  | _ =>
      match a with
      | EmptyString => b
      | _ => if ends_with_slash a then a ++ b else a ++ "/" ++ b
      end
  end.

Definition nl : string := String (ascii_of_nat 10) EmptyString.

End PyStr.

Import PyStr.

(** ** Parsed JSON, as [json.loads] returns it *)

(** A float is kept by the two things the script can observe of it: its truth
    value and its [str()].  An object is the list of its bindings; a lookup
    takes the first binding of the key. *)
#[local] Set Warnings "-register-all".
Inductive json : Type :=
| JNull
| JBool (b : bool)
| JInt (z : Z)
| JFloat (nonzero : bool) (repr : string)
| JStr (s : string)
| JArr (items : list json)
| JObj (fields : list (string * json)).

(** ** Exceptions and results *)

(** [OSError] stands for whatever [subprocess.run] or [os.makedirs] raise
    themselves. *)

Inductive exn : Type :=
| CalledProcessError (cmd : list string) (returncode : Z) (out err : string)
| OSError (msg : string)
| JSONDecodeError (msg : string)
| AttributeError
| KeyError
| TypeError
| IndexError
| EOFError.

Inductive result (A : Type) : Type :=
| Ok (a : A)
| Raise (e : exn).
Arguments Ok {A} a.
Arguments Raise {A} e.

Definition rbind {A B} (r : result A) (f : A -> result B) : result B :=
  match r with
  | Ok a => f a
  | Raise e => Raise e
  end.

Declare Scope result_scope.
Delimit Scope result_scope with result.
Notation "'let?' x ':=' r 'in' k" := (rbind r (fun x => k))
  (at level 10, x name, r at level 100, k at level 200) : result_scope.

(** ** Python operations on parsed values *)

Module Py.

Fixpoint lookup (k : string) (fields : list (string * json)) : option json :=
  match fields with
  | [] => None
  | (k', v) :: rest => if String.eqb k k' then Some v else lookup k rest
  end.

(** [bool(v)] *)
Definition truthy (v : json) : bool :=
  match v with
  | JNull => false
  | JBool b => b
  | JInt z => negb (z =? 0)
  | JFloat nonzero _ => nonzero
  | JStr s => negb (String.eqb s EmptyString)
  | JArr items => match items with [] => false | _ => true end
  | JObj fields => match fields with [] => false | _ => true end
  end.

(** [v.get(k, default)]: only a dict has [get]. *)
Definition get (v : json) (k : string) (default : json) : result json :=
  match v with
  | JObj fields => Ok (match lookup k fields with Some x => x | None => default end)
  | _ => Raise AttributeError
  end.

(** [v[k]] for a string key. *)
Definition item (v : json) (k : string) : result json :=
  match v with
  | JObj fields => match lookup k fields with Some x => Ok x | None => Raise KeyError end
  | _ => Raise TypeError
  end.

(** [v[0]]: a list or a string has a first element, a dict from JSON has no
    integer key, anything else is not subscriptable. *)
Definition item0 (v : json) : result json :=
  match v with
  | JArr (x :: _) => Ok x
  | JArr [] => Raise IndexError
  | JStr (String c _) => Ok (JStr (String c EmptyString))
  | JStr EmptyString => Raise IndexError
  | JObj _ => Raise KeyError
  | _ => Raise TypeError
  end.

Fixpoint chars (s : string) : list json :=
  match s with
  | EmptyString => []
  | String c s' => JStr (String c EmptyString) :: chars s'
  end.

(** The elements a [for] loop visits: the items of a list, the keys of a
    dict, the characters of a string. *)
Definition iter (v : json) : result (list json) :=
  match v with
  | JArr items => Ok items
  | JObj fields => Ok (map (fun kv => JStr (fst kv)) fields)
  | JStr s => Ok (chars s)
  | _ => Raise TypeError
  end.

(** [v == s] for a string literal [s]. *)
Definition eq_str (v : json) (s : string) : bool :=
  match v with
  | JStr s' => String.eqb s' s
  | _ => false
  end.

(** [k in v] for a string [k]: a key of a dict, an item of a list, a
    substring of a string. *)
Definition has (k : string) (v : json) : result bool :=
  match v with
  | JObj fields => Ok match lookup k fields with Some _ => true | None => false end
  | JArr items => Ok (existsb (fun x => eq_str x k) items)
  | JStr s => Ok (contains k s)
  | _ => Raise TypeError
  end.

(** A method of [str] ([strip], [lower]) applied to [v]. *)
Definition str_method (f : string -> string) (v : json) : result string :=
  match v with
  | JStr s => Ok (f s)
  | _ => Raise AttributeError
  end.

(** [v or ''] *)
Definition or_empty (v : json) : json :=
  if truthy v then v else JStr EmptyString.

End Py.

(** ** The host: operating system, tools and runtime library *)

(** What spawning a process gives: the spawn itself may raise (tool not
    installed, output not decodable; never [CalledProcessError], which only
    the check of the return code raises), or the process exits. *)
Inductive proc : Type :=
| SpawnFailed (msg : string)
| Exit (returncode : Z) (stdout stderr : string).

(** Every tool is run at most once per run with given arguments, and
    [os.path.exists] is asked at most once, so a host that answers by
    argument covers every behaviour of the environment. *)
Record Host : Type := {
  geteuid : Z;
  spawn : list string -> option string -> proc;
  path_exists : string -> bool;
  makedirs : string -> option string;
  expanduser : string -> string;
  strftime_now : string;
  json_loads : string -> result json;
  str_exn : exn -> string;
  repr_value : json -> string
}.

(** ** Observable events and the end of the process *)

Inductive event : Type :=
| EvPrint (msg : string)
| EvInput (prompt : string) (answer : option string)
| EvGetpass (prompt : string) (answer : option string)
| EvRun (cmd : list string) (input : option string) (r : proc)
| EvExists (path : string) (b : bool)
| EvMakedirs (path : string) (failure : option string).

Inductive outcome : Type :=
| Exited (status : Z)
| Uncaught (e : exn)
| Completed.

(** The exit status of the process: an uncaught exception ends it with 1. *)
Definition exit_status (o : outcome) : Z :=
  match o with
  | Exited status => status
  | Uncaught _ => 1
  | Completed => 0
  end.

(** What the operator will type: the lines on standard input and the lines
    on the terminal that [getpass] reads. *)
Record io : Type := { stdin : list string; tty : list string }.

(** ** The monad of the script: events out, input lines through, early exit *)

Inductive res (A : Type) : Type :=
| Ret (a : A) (s : io)
| Stop (o : outcome).
Arguments Ret {A} a s.
Arguments Stop {A} o.

Definition M (A : Type) : Type := io -> list event * res A.

Definition ret {A} (a : A) : M A := fun s => ([], Ret a s).

Definition bind {A B} (m : M A) (f : A -> M B) : M B :=
  fun s =>
    match m s with
    | (t, Ret a s') => let (t', r) := f a s' in ((t ++ t')%list, r)
    | (t, Stop o) => (t, Stop o)
    end.

Declare Scope script_scope.
Delimit Scope script_scope with script.
Notation "x <- m ;; k" := (bind m (fun x => k))
  (at level 61, m at next level, right associativity) : script_scope.
Notation "m ;; k" := (bind m (fun _ => k))
  (at level 61, right associativity) : script_scope.
Local Open Scope script_scope.

Definition emit (e : event) : M unit := fun s => ([e], Ret tt s).

Definition print (msg : string) : M unit := emit (EvPrint msg).

(** [sys.exit(status)] *)
Definition sys_exit {A} (status : Z) : M A := fun _ => ([], Stop (Exited status)).

(** An exception nobody catches. *)
Definition uncaught {A} (e : exn) : M A := fun _ => ([], Stop (Uncaught e)).

(** [input(prompt)] *)
Definition input (prompt : string) : M string :=
  fun s =>
    match stdin s with
    | [] => ([EvInput prompt None], Stop (Uncaught EOFError))
    | l :: rest =>
        ([EvInput prompt (Some l)], Ret l {| stdin := rest; tty := tty s |})
    end.

(** [getpass.getpass(prompt)] *)
Definition getpass (prompt : string) : M string :=
  fun s =>
    match tty s with
    | [] => ([EvGetpass prompt None], Stop (Uncaught EOFError))
    | l :: rest =>
        ([EvGetpass prompt (Some l)], Ret l {| stdin := stdin s; tty := rest |})
    end.

(** The run of a whole script from what the operator will type. *)
Definition run (m : M unit) (s : io) : list event * outcome :=
  match m s with
  | (t, Ret _ _) => (t, Completed)
  | (t, Stop o) => (t, o)
  end.

(** ** The script *)

Section Script.

Variable h : Host.

Definition DEBUG : bool := false.

(** [str(v)], as an f-string formats a parsed value; the host gives the
    text of a list or a dict. *)
Definition py_str (v : json) : string :=
  match v with
  | JNull => "None"
  | JBool true => "True"
  | JBool false => "False"
  | JInt z => dec z
  | JFloat _ repr => repr
  | JStr s => s
  | _ => repr_value h v
  end.

(** What [subprocess.run] makes of a spawned process: with [check], a
    nonzero return code raises [CalledProcessError]. *)
Definition completed (check : bool) (command : list string) (p : proc)
    : result (string * string) :=
  match p with
  | SpawnFailed msg => Raise (OSError msg)
  | Exit returncode out err =>
      if (check && negb (returncode =? 0))%bool
      then Raise (CalledProcessError command returncode out err)
      else Ok (out, err)
  end.

(** [subprocess.run(command, input=..., text=True, capture_output=True,
    check=...)] *)
Definition subprocess_run (command : list string) (input_data : option string)
    (check : bool) : M (result (string * string)) :=
  let p := spawn h command input_data in
  emit (EvRun command input_data p) ;;
  ret (completed check command p).

(** [run_command]: the exception it re-raises is returned as [Raise]. *)
Definition run_command (command : list string) (input_data : option string)
    (check_returncode : bool) : M (result (string * string)) :=
  r <- subprocess_run command input_data check_returncode ;;
  match r with
  | Raise (CalledProcessError _ _ out err) =>
      print (nl ++ "Error executing command: " ++ join " " command) ;;
      print ("STDOUT: " ++ out) ;;
      print ("STDERR: " ++ err) ;;
      ret r
  | _ => ret r
  end.

(** *** get_block_devices *)

Record device : Type := {
  name : string;
  size : json;
  display_name : string;
  model : string;
  vendor : string;
  is_mounted : bool
}.

(** The loop over the children of a block, lines 99-102. *)
Fixpoint child_mounted (children : list json) : result bool :=
  match children with
  | [] => Ok false
  | child :: rest =>
      (let? mp := Py.get child "mountpoint" JNull in
       if Py.truthy mp then Ok true else child_mounted rest)%result
  end.

(** One turn of the loop, lines 82-114: [None] is [continue]. *)
Definition scan_block (block : json) : result (option device) :=
  (let? ty := Py.get block "type" JNull in
   if negb (Py.eq_str ty "disk") then Ok None else
   let? nm := Py.item block "name" in
   let device_name := "/dev/" ++ py_str nm in
   let? size := Py.get block "size" (JStr "Unknown Size") in
   let? model_v := Py.get block "model" JNull in
   let? model := Py.str_method strip (Py.or_empty model_v) in
   let? vendor_v := Py.get block "vendor" JNull in
   let? vendor := Py.str_method strip (Py.or_empty vendor_v) in
   let? removable := Py.get block "rm" (JBool false) in
   let? nm' := Py.item block "name" in
   let? lowered := Py.str_method lower nm' in
   if contains "nvme" lowered then Ok None else
   if negb (Py.truthy removable) then Ok None else
   let? mp := Py.get block "mountpoint" JNull in
   let? has_children := Py.has "children" block in
   let? on_child :=
     (if has_children
      then let? kids := Py.item block "children" in
           let? children := Py.iter kids in
           child_mounted children
      else Ok false) in
   let display_name :=
     if (Py.truthy (JStr model) && Py.truthy (JStr vendor))%bool
     then vendor ++ " " ++ model ++ " " ++ py_str size
     else device_name ++ " " ++ py_str size in
   Ok (Some {| name := device_name;
               size := size;
               display_name := display_name;
               model := model;
               vendor := vendor;
               is_mounted := (Py.truthy mp || on_child)%bool |}))%result.

(** The loop of lines 81-114, [devices] being the list built so far. *)
Fixpoint scan_blocks (blocks : list json) (devices : list device)
    : result (list device) :=
  match blocks with
  | [] => Ok devices
  | block :: rest =>
      (let? d := scan_block block in
       scan_blocks rest
         match d with
         | Some x => (devices ++ [x])%list
         | None => devices
         end)%result
  end.

Definition collect_devices (data : json) : result (list device) :=
  (let? listed := Py.get data "blockdevices" (JArr []) in
   let? blocks := Py.iter listed in
   scan_blocks blocks [])%result.

Definition lsblk_all : list string :=
  ["lsblk"; "--json"; "-o"; "NAME,SIZE,TYPE,ROTA,MODEL,VENDOR,FSTYPE,MOUNTPOINT,RM"].

Definition get_block_devices : M (list device) :=
  r <- run_command lsblk_all None true ;;
  match (let? out := r in json_loads h (fst out))%result with
  | Raise e =>
      print ("Error listing block devices: " ++ str_exn h e) ;;
      sys_exit 1
  | Ok data =>
      match collect_devices data with
      | Ok devices => ret devices
      | Raise e => uncaught e
      end
  end.

(** *** get_partition_table_type *)

(** The loop of lines 120-122: the first line holding the label decides. *)
Fixpoint partition_label (lines : list string) : result (option string) :=
  match lines with
  | [] => Ok None
  | line :: rest =>
      if contains "Partition Table:" line then
        match nth_error (split ":" line) 1 with
        | Some v => Ok (Some (lower (strip v)))
        | None => Raise IndexError
        end
      else partition_label rest
  end.

(** What the function makes of the result of [run_command]. *)
Definition table_type_of (r : result (string * string)) : string :=
  match (let? out := r in partition_label (splitlines (fst out)))%result with
  | Ok (Some v) => v
  | Ok None => "unknown"
  | Raise _ => "unknown"
  end.

Definition parted_print (device_path : string) : list string :=
  ["parted"; "-s"; device_path; "print"].

Definition get_partition_table_type (device_path : string) : M string :=
  r <- run_command (parted_print device_path) None false ;;
  ret (table_type_of r).

(** *** detect_luks_encryption *)

Definition is_crypt_type (entry : json) : result bool :=
  (let? ty := Py.get entry "type" JNull in
   if Py.eq_str ty "crypt" then Ok true else
   let? fs := Py.get entry "fstype" JNull in
   Ok (Py.eq_str fs "crypto_LUKS"))%result.

(** The loop of lines 138-140. *)
Fixpoint any_crypt_child (children : list json) : result bool :=
  match children with
  | [] => Ok false
  | child :: rest =>
      (let? c := is_crypt_type child in
       if c then Ok true else any_crypt_child rest)%result
  end.

(** Lines 135-140 on the parsed listing. *)
Definition luks_scan (data : json) : result bool :=
  (let? listed := Py.item data "blockdevices" in
   let? first := Py.item0 listed in
   let? c := is_crypt_type first in
   if c then Ok true else
   let? listed' := Py.item data "blockdevices" in
   let? first' := Py.item0 listed' in
   let? kids := Py.get first' "children" (JArr []) in
   let? children := Py.iter kids in
   any_crypt_child children)%result.

Definition lsblk_one (device_path : string) : list string :=
  ["lsblk"; "--json"; "-o"; "NAME,TYPE,FSTYPE"; device_path].

Definition detect_luks_encryption (device_path : string) : M bool :=
  r <- run_command (lsblk_one device_path) None true ;;
  match (let? out := r in
         let? data := json_loads h (fst out) in
         luks_scan data)%result with
  | Ok found => ret found
  | Raise e =>
      (if DEBUG
       then print ("DEBUG: Could not determine LUKS status for "
                   ++ device_path ++ ": " ++ str_exn h e)
       else ret tt) ;;
      ret false
  end.

(** *** luks_header_backup *)

Definition header_backup_cmd (device_path backup_file : string) : list string :=
  ["cryptsetup"; "luksHeaderBackup"; device_path; "--header-backup-file"; backup_file].

Definition luks_header_backup (device_path : string) : M unit :=
  let device_base := basename device_path in
  let timestamp := strftime_now h in
  let backup_dir := expanduser h "~/luks_backups" in
  let made := makedirs h backup_dir in
  emit (EvMakedirs backup_dir made) ;;
  match made with
  | Some msg => uncaught (OSError msg)
  | None =>
      let backup_file :=
        path_join backup_dir (device_base ++ "_" ++ timestamp ++ ".header") in
      r <- run_command (header_backup_cmd device_path backup_file) None true ;;
      match r with
      | Ok _ =>
          print (nl ++ "LUKS header backup saved to: " ++ backup_file) ;;
          print ("Keep this file safe! Use it to restore with:" ++ nl
                 ++ "  cryptsetup luksHeaderRestore <device> --header-backup-file <file>")
      | Raise e => print ("Failed to back up LUKS header: " ++ str_exn h e)
      end
  end.

(** *** check_root_privileges *)

Definition check_root_privileges : M unit :=
  if negb (geteuid h =? 0) then
    print ("This script must be run with root privileges. Try:" ++ nl
           ++ "  sudo python3 script.py") ;;
    sys_exit 1
  else ret tt.

(** *** main *)

(** The listing of lines 179-181, [i] counting from 0. *)
Fixpoint list_devices (i : Z) (devices : list device) : M unit :=
  match devices with
  | [] => ret tt
  | d :: rest =>
      let mount_status :=
        if is_mounted d then "(Currently Mounted)" else EmptyString in
      print ("  [" ++ dec (i + 1) ++ "] " ++ name d
             ++ " (" ++ display_name d ++ ") " ++ mount_status) ;;
      list_devices (i + 1) rest
  end.

Definition select_prompt : string :=
  nl ++ "Enter the number of the device to encrypt/open (or 'q' to quit): ".

(** One turn of the selection loop, lines 184-196, after its [input];
    [again] is the next turn.  A turn reads no further line. *)
Definition select_turn (suitable_devices : list device) (line : string)
    (again : M device) : M device :=
  let selection := strip line in
  if String.eqb (lower selection) "q" then
    print "Exiting." ;; sys_exit 0
  else
    match py_int selection with
    | Some n =>
        let device_index := n - 1 in
        if ((0 <=? device_index)
            && (device_index <? Z.of_nat (length suitable_devices)))%bool
        then match nth_error suitable_devices (Z.to_nat device_index) with
             | Some d => ret d
             | None => uncaught IndexError
             end
        else print "Invalid selection." ;; again
    | None => print "Invalid input." ;; again
    end.

(** The selection loop on the lines still on standard input: each turn
    takes the next line, and the next turn starts on the rest. *)
Fixpoint select_loop (suitable_devices : list device) (lines term : list string)
    : list event * res device :=
  match lines with
  | [] => ([EvInput select_prompt None], Stop (Uncaught EOFError))
  | line :: rest =>
      let (t, r) :=
        select_turn suitable_devices line
          (fun s => select_loop suitable_devices rest (tty s))
          {| stdin := rest; tty := term |} in
      (EvInput select_prompt (Some line) :: t, r)
  end.

Definition select_device (suitable_devices : list device) : M device :=
  fun s => select_loop suitable_devices (stdin s) (tty s).

(** [os.path.exists(path)] *)
Definition os_path_exists (path : string) : M bool :=
  let b := path_exists h path in
  emit (EvExists path b) ;; ret b.

Definition luks_open_cmd (device_path mapper_name : string) : list string :=
  ["cryptsetup"; "luksOpen"; device_path; mapper_name].

Definition mapper_prompt : string := "Enter mapper name (e.g., 'my_encrypted_usb'): ".

(** The [open] action of an encrypted device, lines 209-235. *)
Definition open_encrypted {A} (device_path : string) : M A :=
  raw <- input mapper_prompt ;;
  let mapper_name := strip raw in
  if String.eqb mapper_name EmptyString then
    print "Mapper name cannot be empty." ;; sys_exit 1
  else
    found <- os_path_exists ("/dev/mapper/" ++ mapper_name) ;;
    if found then
      print ("Error: /dev/mapper/" ++ mapper_name
             ++ " already exists. Use a different name or close it first.") ;;
      sys_exit 1
    else
      passphrase <- getpass "Enter LUKS passphrase: " ;;
      r <- run_command (luks_open_cmd device_path mapper_name)
             (Some (passphrase ++ nl)) true ;;
      match r with
      | Ok _ =>
          let opened_device_path := "/dev/mapper/" ++ mapper_name in
          print ("Successfully opened: " ++ opened_device_path) ;;
          print "You may now mount it (e.g., 'sudo mount /dev/mapper/{mapper_name} /mnt/usb')" ;;
          sys_exit 0
      | Raise (CalledProcessError _ returncode _ _ as e) =>
          if returncode =? 5 then
            print (nl ++ "Error: The device '" ++ device_path
                   ++ "' is currently in use.") ;;
            print "Please ensure it is unmounted and any existing LUKS mappings are closed." ;;
            print "A quick fix is to **safely remove the USB dongle, then reinsert it**, and run the script again." ;;
            sys_exit 1
          else
            print ("Failed to open LUKS device: " ++ str_exn h e) ;;
            sys_exit 1
      | Raise e => uncaught e
      end.

(** The test of both confirmation gates, lines 240 and 259:
    [input("> ").strip() != confirmation_text]. *)
Definition confirmation_fails (answer confirmation_text : string) : bool :=
  negb (String.eqb (strip answer) confirmation_text).

(** A confirmation gate, lines 238-242 and 257-261: the request names the
    sentence, and any other answer ends the script with status 0. *)
Definition confirmation_gate (request confirmation_text cancelled : string)
    : M unit :=
  print request ;;
  answer <- input "> " ;;
  if confirmation_fails answer confirmation_text then
    print cancelled ;; sys_exit 0
  else ret tt.

Definition reencrypt_text : string := "I understand and want to re-encrypt this device".

Definition reencrypt_request : string :=
  nl ++ "Type '" ++ reencrypt_text ++ "' to proceed with re-encryption:".

Definition encrypt_text : string := "I understand and want to encrypt this device".

Definition encrypt_request : string :=
  nl ++ "Type '" ++ encrypt_text ++ "' to proceed:".

Definition action_prompt : string :=
  "Do you want to open it (type 'open'), re-encrypt (type 're-encrypt'), or exit (type 'exit')? ".

(** One turn of the loop of an encrypted device, lines 204-246, after its
    [input]; returning is the [break] that falls through to encryption.  The
    only turn that goes round again is the last branch, which reads no
    further line. *)
Definition action_turn (device_path : string) (line : string) (again : M unit)
    : M unit :=
  let action := lower (strip line) in
  if String.eqb action "exit" then
    print "Exiting." ;; sys_exit 0
  else if String.eqb action "open" then
    open_encrypted device_path
  else if String.eqb action "re-encrypt" then
    print (nl ++ "WARNING: Re-encrypting will ERASE ALL DATA on the selected device.") ;;
    confirmation_gate reencrypt_request reencrypt_text
      "Re-encryption cancelled. Exiting."
  else
    print "Invalid choice. Type 'open', 're-encrypt', or 'exit'." ;; again.

Fixpoint action_loop (device_path : string) (lines term : list string)
    : list event * res unit :=
  match lines with
  | [] => ([EvInput action_prompt None], Stop (Uncaught EOFError))
  | line :: rest =>
      let (t, r) :=
        action_turn device_path line
          (fun s => action_loop device_path rest (tty s))
          {| stdin := rest; tty := term |} in
      (EvInput action_prompt (Some line) :: t, r)
  end.

Definition choose_action (device_path : string) : M unit :=
  fun s => action_loop device_path (stdin s) (tty s).

(** The test of the passphrase loop, lines 266-271. *)
Inductive verdict : Type := Mismatch | TooShort | Accepted.

Definition passphrase_verdict (passphrase1 passphrase2 : string) : verdict :=
  if negb (String.eqb passphrase1 passphrase2) then Mismatch
  else if Z.of_nat (String.length passphrase1) <? 8 then TooShort
  else Accepted.

Definition passphrase_turn (passphrase1 passphrase2 : string) (again : M string)
    : M string :=
  match passphrase_verdict passphrase1 passphrase2 with
  | Mismatch => print "Passphrases do not match." ;; again
  | TooShort => print "Passphrase too short. Use at least 8 characters." ;; again
  | Accepted => ret passphrase1
  end.

(** The passphrase loop, lines 263-271, on the lines still to come from the
    terminal. *)
Fixpoint passphrase_loop (term lines : list string) : list event * res string :=
  match term with
  | [] => ([EvGetpass "Enter LUKS passphrase: " None], Stop (Uncaught EOFError))
  | [passphrase1] =>
      ([EvGetpass "Enter LUKS passphrase: " (Some passphrase1);
        EvGetpass "Confirm LUKS passphrase: " None], Stop (Uncaught EOFError))
  | passphrase1 :: passphrase2 :: rest =>
      let (t, r) :=
        passphrase_turn passphrase1 passphrase2
          (fun s => passphrase_loop rest (stdin s))
          {| stdin := lines; tty := rest |} in
      (EvGetpass "Enter LUKS passphrase: " (Some passphrase1)
       :: EvGetpass "Confirm LUKS passphrase: " (Some passphrase2) :: t, r)
  end.

Definition collect_passphrase : M string :=
  fun s => passphrase_loop (tty s) (stdin s).

Definition luks_format_cmd (device_path : string) : list string :=
  ["cryptsetup"; "luksFormat";
   "--type"; "luks2";
   "--cipher"; "aes-xts-plain64";
   "--key-size"; "512";
   "--hash"; "sha512";
   "--iter-time"; "2000";
   "--pbkdf"; "argon2id";
   device_path].

Definition mapper_prompt_new : string :=
  "Enter mapper name to open LUKS volume (e.g., 'my_encrypted_usb'): ".

(** Lines 293-314: the open that follows the format. *)
Definition open_formatted (device_path passphrase1 : string) : M unit :=
  raw <- input mapper_prompt_new ;;
  let mapper_name := strip raw in
  if String.eqb mapper_name EmptyString then
    print "Mapper name cannot be empty." ;; sys_exit 1
  else
    found <- os_path_exists ("/dev/mapper/" ++ mapper_name) ;;
    if found then
      print ("/dev/mapper/" ++ mapper_name
             ++ " already exists. Please use a different name or close it first.") ;;
      sys_exit 1
    else
      r <- run_command (luks_open_cmd device_path mapper_name)
             (Some (passphrase1 ++ nl)) true ;;
      match r with
      | Ok _ =>
          let opened_device_path := "/dev/mapper/" ++ mapper_name in
          print (nl ++ "Successfully opened: " ++ opened_device_path) ;;
          print ("You can now create a filesystem on it, e.g.:" ++ nl
                 ++ "  sudo mkfs.ext4 " ++ opened_device_path) ;;
          print ("And mount it, e.g.:" ++ nl
                 ++ "  sudo mount " ++ opened_device_path ++ " /mnt/usb")
      | Raise e =>
          print ("Failed to open LUKS volume: " ++ str_exn h e) ;;
          sys_exit 1
      end.

(** Lines 273-316: format, header backup, open. *)
Definition format_and_open (device_path passphrase1 : string) : M unit :=
  r <- run_command (luks_format_cmd device_path)
         (Some ("YES" ++ nl ++ passphrase1 ++ nl ++ passphrase1 ++ nl)) true ;;
  match r with
  | Ok _ =>
      print (nl ++ "Successfully formatted " ++ device_path ++ " with LUKS.")
  | Raise e =>
      print ("Formatting failed: " ++ str_exn h e) ;;
      sys_exit 1
  end ;;
  luks_header_backup device_path ;;
  open_formatted device_path passphrase1 ;;
  print (nl ++ "Script finished.").

(** Lines 248-316: the encryption of a device that is not encrypted, or
    that the operator chose to encrypt again. *)
Definition encrypt_device (device_path : string) : M unit :=
  pt_type <- get_partition_table_type device_path ;;
  if negb (String.eqb pt_type "gpt") then
    print (nl ++ "Error: " ++ device_path ++ " uses '" ++ pt_type
           ++ "' partition table.") ;;
    print "Only GPT is supported. Convert it using tools like 'gparted' or 'parted'." ;;
    sys_exit 1
  else
    print ("Partition Table: " ++ upper pt_type ++ " (OK)") ;;
    confirmation_gate encrypt_request encrypt_text
      "Confirmation failed. Exiting." ;;
    passphrase1 <- collect_passphrase ;;
    format_and_open device_path passphrase1.

(** Lines 201-316: what [main] does with the selected device, [encrypted]
    being the answer of [detect_luks_encryption]. *)
Definition handle_device (device_path : string) (encrypted : bool) : M unit :=
  (if encrypted then
     print (nl ++ "Note: " ++ device_path
            ++ " appears to be already LUKS-encrypted.") ;;
     choose_action device_path
   else ret tt) ;;
  encrypt_device device_path.

Definition rule : string := "----------------------------------------".

Definition main : M unit :=
  check_root_privileges ;;
  print "--- USB Dongle LUKS Encryption Script ---" ;;
  print "WARNING: This will ERASE ALL DATA on the selected device if you choose to encrypt." ;;
  print "Only GPT partition tables are supported for new encryption." ;;
  print rule ;;
  suitable_devices <- get_block_devices ;;
  match suitable_devices with
  | [] =>
      print "No suitable USB devices found. Ensure it's connected, unmounted, and removable." ;;
      sys_exit 0
  | _ =>
      print (nl ++ "Available USB Devices:") ;;
      list_devices 0 suitable_devices ;;
      selected_device <- select_device suitable_devices ;;
      let device_path := name selected_device in
      print (nl ++ "Selected: " ++ device_path
             ++ " (" ++ display_name selected_device ++ ")") ;;
      encrypted <- detect_luks_encryption device_path ;;
      handle_device device_path encrypted
  end.

End Script.

(** ** A concrete host, for running the script on examples *)

Module Demo.

Definition entry (nm ty : string) (fstype : json) (rm : bool)
    (children : list json) : json :=
  JObj [("name", JStr nm); ("size", JStr "14.9G"); ("type", JStr ty);
        ("rota", JBool false); ("model", JStr "Ultra "); ("vendor", JStr "SanDisk ");
        ("fstype", fstype); ("mountpoint", JNull); ("rm", JBool rm);
        ("children", JArr children)].

(** The listing of all block devices: a removable USB disk, an internal
    NVMe disk and an internal SATA disk. *)
Definition listing : json :=
  JObj [("blockdevices",
         JArr [entry "sdb" "disk" JNull true [entry "sdb1" "part" JNull true []];
               entry "nvme0n1" "disk" JNull false [];
               entry "sda" "disk" JNull false []])].

(** The listing of the USB disk alone, plain or holding a LUKS partition. *)
Definition listing_one (encrypted : bool) : json :=
  JObj [("blockdevices",
         JArr [entry "sdb" "disk" JNull true
                 [entry "sdb1" "part"
                    (if encrypted then JStr "crypto_LUKS" else JNull) true []]])].

Definition parted_output (table : string) : string :=
  "Model: SanDisk Ultra (scsi)" ++ nl
  ++ "Disk /dev/sdb: 16.0GB" ++ nl
  ++ "Sector size (logical/physical): 512B/512B" ++ nl
  ++ "Partition Table: " ++ table ++ nl
  ++ "Disk Flags: " ++ nl.

(** A host where every tool succeeds: [encrypted] says whether the USB disk
    holds LUKS, [table] is the partition table [parted] reports, [taken]
    whether any mapper name is already in use. *)
Definition host (euid : Z) (encrypted : bool) (table : string) (taken : bool)
    : Host :=
  {| geteuid := euid;
     spawn := fun cmd _ =>
       match cmd with
       | "lsblk" :: _ :: _ :: _ :: [] => Exit 0 "all" EmptyString
       | "lsblk" :: _ => Exit 0 "one" EmptyString
       | "parted" :: _ => Exit 0 (parted_output table) EmptyString
       | _ => Exit 0 EmptyString EmptyString
       end;
     path_exists := fun _ => taken;
     makedirs := fun _ => None;
     expanduser := fun p =>
       match p with
       | String "~" rest => "/root" ++ rest
       | _ => p
       end;
     strftime_now := "20240101_120000";
     json_loads := fun text =>
       if String.eqb text "all" then Ok listing
       else if String.eqb text "one" then Ok (listing_one encrypted)
       else Raise (JSONDecodeError "Expecting value");
     str_exn := fun _ => "error";
     repr_value := fun _ => "?" |}.

(** The record of the USB disk in the catalog. *)
Definition usb_record : device :=
  {| name := "/dev/sdb";
     size := JStr "14.9G";
     display_name := "SanDisk Ultra 14.9G";
     model := "Ultra";
     vendor := "SanDisk";
     is_mounted := false |}.

(** The catalog on a host: the events, and the devices with the input left,
    or nothing when the script ended. *)
Definition catalog_run (h : Host) : list event * (list device * io) :=
  match get_block_devices h {| stdin := []; tty := [] |} with
  | (t, Ret devices s) => (t, (devices, s))
  | (t, Stop _) => (t, ([], {| stdin := []; tty := [] |}))
  end.

End Demo.

(** ** Properties of traces *)

Local Open Scope list_scope.

(** A condition on an event of a run, given the events before it ([hist]),
    the events after it and the way the run ends. *)
Definition condition : Type :=
  list event -> event -> list event -> outcome -> Prop.

(** [always C hist t o]: every event of [t] meets [C], where [hist] came
    before [t] and the run ends with [o]. *)
Fixpoint always (C : condition) (hist t : list event) (o : outcome) : Prop :=
  match t with
  | [] => True
  | e :: t' => C hist e t' o /\ always C (hist ++ [e]) t' o
  end.

(** The events of [t] meet [C] whatever follows them. *)
Definition settled (C : condition) (hist t : list event) : Prop :=
  forall post o, always C (hist ++ t) post o -> always C hist (t ++ post) o.

(** An event that meets [C] wherever it stands. *)
Definition inert (C : condition) (e : event) : Prop :=
  forall hist post o, C hist e post o.

(** [wp C m R hist]: run after [hist], the computation [m] emits events that
    meet [C], and where it returns, [R] holds of its value and of the events
    so far. *)
Definition wp (C : condition) {A} (m : M A) (R : A -> list event -> Prop)
    (hist : list event) : Prop :=
  forall s,
    match m s with
    | (t, Stop o) => always C hist t o
    | (t, Ret a _) => settled C hist t /\ R a (hist ++ t)
    end.

(** [m] emits only events of [E], and returns only values of [V]. *)
Definition emits {A} (E : event -> Prop) (V : A -> Prop) (m : M A) : Prop :=
  forall s, Forall E (fst (m s))
            /\ match snd (m s) with Ret a _ => V a | Stop _ => True end.

(** A message that is not the request to type a confirmation sentence. *)
Definition notice (e : event) : Prop :=
  exists msg, e = EvPrint msg /\ prefix (nl ++ "Type '")%string msg = false.

(** The events of the passphrase loop. *)
Definition pass_event (e : event) : Prop :=
  notice e \/ (exists prompt a, e = EvGetpass prompt a).

(** The events of the script before it deals with the selected device. *)
Definition front_event (e : event) : Prop :=
  notice e
  \/ (exists a, e = EvInput select_prompt a)
  \/ (exists args p, e = EvRun ("lsblk" :: args) None p).

(** *** Name conflict *)

Definition is_luks_open (e : event) : Prop :=
  exists d n inp r, e = EvRun (luks_open_cmd d n) inp r.

Definition no_open (t : list event) : Prop :=
  Forall (fun e => ~ is_luks_open e) t.

(** An existing mapper path ends the run with status 1 and no open is ever
    run; an open is run only after its mapper path was found free. *)
Definition name_conflict : condition :=
  fun hist e post o =>
    (forall p, e = EvExists p true ->
               o = Exited 1 /\ no_open (hist ++ e :: post))
    /\ (forall d n inp r,
           e = EvRun (luks_open_cmd d n) inp r ->
           In (EvExists ("/dev/mapper/" ++ n)%string false) hist).

(** *** Empty mapper name *)

(** The format tool was run on a device and succeeded. *)
Definition formatted (t : list event) : Prop :=
  exists d inp out err, In (EvRun (luks_format_cmd d) inp (Exit 0 out err)) t.

(** An empty or all-whitespace answer to a mapper-name prompt is followed
    by one message and status 1, no open having been run; at the prompt
    that follows the format, the device is already formatted. *)
Definition empty_name_fatal : condition :=
  fun hist e post o =>
    forall prompt a,
      e = EvInput prompt (Some a) ->
      prompt = mapper_prompt \/ prompt = mapper_prompt_new ->
      all_space a = true ->
      post = [EvPrint "Mapper name cannot be empty."]
      /\ o = Exited 1
      /\ no_open hist
      /\ (prompt = mapper_prompt_new -> formatted hist).

(** *** The gates of the format *)

(** The events that write to disk for device [d]: the format and the header
    backup. *)
Definition mutates (d : string) (e : event) : Prop :=
  (exists inp r, e = EvRun (luks_format_cmd d) inp r)
  \/ (exists f inp r, e = EvRun (header_backup_cmd d f) inp r).

(** The partition table of [d] was inspected and [get_partition_table_type]
    made "gpt" of it. *)
Definition gpt_checked (d : string) (hist : list event) : Prop :=
  exists p,
    In (EvRun (parted_print d) None p) hist
    /\ table_type_of (completed false (parted_print d) p) = "gpt"%string.

(** The operator answered the request to confirm the encryption with the
    sentence, up to surrounding whitespace. *)
Definition confirmed (hist : list event) : Prop :=
  exists pre a post,
    hist = pre ++ EvPrint encrypt_request :: EvInput "> " (Some a) :: post
    /\ strip a = encrypt_text.

(** Nothing is written to disk before both gates are passed. *)
Definition gated : condition :=
  fun hist e post o =>
    (forall d, mutates d e -> gpt_checked d hist /\ confirmed hist)
    /\ (forall path r, e = EvMakedirs path r ->
                       (exists d, gpt_checked d hist) /\ confirmed hist).

(** *** Confirmation gates *)

(** An answer to a request for a confirmation sentence that is not the
    sentence, once trimmed, ends the run with status 0 after one message. *)
Definition cancel_on_mismatch : condition :=
  fun hist e post o =>
    forall pre a,
      e = EvInput "> " (Some a) ->
      (hist = pre ++ [EvPrint encrypt_request] ->
       strip a <> encrypt_text ->
       post = [EvPrint "Confirmation failed. Exiting."] /\ o = Exited 0)
      /\ (hist = pre ++ [EvPrint reencrypt_request] ->
          strip a <> reencrypt_text ->
          post = [EvPrint "Re-encryption cancelled. Exiting."] /\ o = Exited 0).

(** The two gates of the script. *)
Definition is_gate (request text cancelled : string) : Prop :=
  (request = encrypt_request /\ text = encrypt_text
   /\ cancelled = "Confirmation failed. Exiting."%string)
  \/ (request = reencrypt_request /\ text = reencrypt_text
      /\ cancelled = "Re-encryption cancelled. Exiting."%string).


(** *** Passphrase policy *)

(** The format tool is given a passphrase of at least 8 characters that
    the operator has just typed twice. *)
Definition passphrase_checked : condition :=
  fun hist e post o =>
    forall d inp r,
      e = EvRun (luks_format_cmd d) inp r ->
      exists p pre,
        inp = Some ("YES" ++ nl ++ p ++ nl ++ p ++ nl)%string
        /\ (8 <= String.length p)%nat
        /\ hist = pre ++ [EvGetpass "Enter LUKS passphrase: " (Some p);
                          EvGetpass "Confirm LUKS passphrase: " (Some p)].

(** *** Partition table *)

(** Whether the character [c] occurs in [s]. *)
Fixpoint has_char (c : ascii) (s : string) : bool :=
  match s with
  | EmptyString => false
  | String x s' => (Ascii.eqb x c || has_char c s')%bool
  end.

(** After the partition table was inspected, the script goes on to the
    confirmation of the encryption if [get_partition_table_type] made "gpt"
    of it, and otherwise ends with two messages and status 1. *)
Definition gpt_only : condition :=
  fun hist e post o =>
    forall d p,
      e = EvRun (parted_print d) None p ->
      let v := table_type_of (completed false (parted_print d) p) in
      (v <> "gpt"%string ->
       post = [EvPrint (nl ++ "Error: " ++ d ++ " uses '" ++ v
                        ++ "' partition table.")%string;
               EvPrint "Only GPT is supported. Convert it using tools like 'gparted' or 'parted'."]
       /\ o = Exited 1)
      /\ (v = "gpt"%string ->
          exists answer post',
            post = EvPrint "Partition Table: GPT (OK)"
                   :: EvPrint encrypt_request
                   :: EvInput "> " answer :: post').

(** *** Device entries *)

(** The entry holds the text [v] under the key [k]. *)
Definition has_text (fields : list (string * json)) (k v : string) : Prop :=
  Py.lookup k fields = Some (JStr v).

(** An entry of type "crypt" or of filesystem type "crypto_LUKS". *)
Definition luks_entry (fields : list (string * json)) : Prop :=
  has_text fields "type" "crypt" \/ has_text fields "fstype" "crypto_LUKS".

(** The listing [data] has [dev] as its first device, with the child
    entries [children]. *)
Definition listing_of (data : json) (dev : list (string * json))
    (children : list (list (string * json))) : Prop :=
  exists fields rest,
    data = JObj fields
    /\ Py.lookup "blockdevices" fields = Some (JArr (JObj dev :: rest))
    /\ ((Py.lookup "children" dev = None /\ children = [])
        \/ Py.lookup "children" dev = Some (JArr (map JObj children))).

(** An entry of the listing that is a disk, removable as Python tests it,
    with the name [n]. *)
Definition removable_disk (block : json) (n : string) : Prop :=
  exists fields rm,
    block = JObj fields
    /\ has_text fields "type" "disk"
    /\ has_text fields "name" n
    /\ Py.lookup "rm" fields = Some rm
    /\ Py.truthy rm = true.

(** What the query of [detect_luks_encryption] gives, before the function
    turns a failure into false. *)
Definition luks_query (h : Host) (d : string) : result bool :=
  (let? out := completed true (lsblk_one d) (spawn h (lsblk_one d) None) in
   let? data := json_loads h (fst out) in
   luks_scan data)%result.

(** *** The listing of an older lsblk *)

(** lsblk 2.27 to 2.32 prints every value of its JSON output as a string:
    the removable flag of a disk is ["1"] or ["0"].  This is its entry for an
    internal SATA disk, which is not removable. *)
Definition old_lsblk_entry : list (string * json) :=
  [("name", JStr "sda"); ("size", JStr "238.5G"); ("type", JStr "disk");
   ("rota", JStr "0"); ("model", JStr "Samsung SSD 860 ");
   ("vendor", JStr "ATA     "); ("fstype", JNull); ("mountpoint", JNull);
   ("rm", JStr "0")].

(** A host with that lsblk, where this disk is the only one and every tool
    succeeds. *)
Definition old_lsblk_host : Host :=
  {| geteuid := 0;
     spawn := spawn (Demo.host 0 false "gpt" false);
     path_exists := fun _ => false;
     makedirs := fun _ => None;
     expanduser := expanduser (Demo.host 0 false "gpt" false);
     strftime_now := "20240101_120000";
     json_loads := fun _ => Ok (JObj [("blockdevices", JArr [JObj old_lsblk_entry])]);
     str_exn := fun _ => "error";
     repr_value := fun _ => "?" |}.

(** The record that the catalog makes of this disk. *)
Definition old_lsblk_record : device :=
  {| name := "/dev/sda";
     size := JStr "238.5G";
     display_name := "ATA Samsung SSD 860 238.5G";
     model := "Samsung SSD 860";
     vendor := "ATA";
     is_mounted := false |}.

(** ** Further properties: what they speak of *)

From Stdlib Require Import DecimalPos.

(** What [run_command] prints about a result: three lines for a
    [CalledProcessError], nothing otherwise. *)
Definition diagnostics (command : list string) (r : result (string * string))
    : list event :=
  match r with
  | Raise (CalledProcessError _ _ out err) =>
      [EvPrint (nl ++ "Error executing command: " ++ join " " command)%string;
       EvPrint ("STDOUT: " ++ out)%string;
       EvPrint ("STDERR: " ++ err)%string]
  | _ => []
  end.

(** The four lines that [main] prints first. *)
Definition banner : list event :=
  [EvPrint "--- USB Dongle LUKS Encryption Script ---";
   EvPrint "WARNING: This will ERASE ALL DATA on the selected device if you choose to encrypt.";
   EvPrint "Only GPT partition tables are supported for new encryption.";
   EvPrint rule].

(** The records of the entries that the loop of [get_block_devices] keeps. *)
Fixpoint kept (results : list (option device)) : list device :=
  match results with
  | [] => []
  | Some d :: rest => d :: kept rest
  | None :: rest => kept rest
  end.

(** The value under a key of an entry, [None] of Python when it is
    missing. *)
Definition field (fields : list (string * json)) (k : string) : json :=
  match Py.lookup k fields with
  | Some v => v
  | None => JNull
  end.

(** An event that runs a tool. *)
Definition is_run (e : event) : Prop :=
  match e with
  | EvRun _ _ _ => True
  | _ => False
  end.

(** The most digits that [int()] converts: CPython 3.11 (and the security
    releases of 3.7 to 3.10) raise [ValueError] on a longer digit string,
    unless the limit was lifted; older interpreters have no limit.  [py_int]
    has none either, so it is [int()] on the lines within the limit. *)
Definition int_max_str_digits : nat := 4300.

(** A line that holds no more characters, once trimmed, than [int()]
    converts digits: on it every interpreter agrees with [py_int]. *)
Definition within_int_limit (line : string) : Prop :=
  (String.length (strip line) <= int_max_str_digits)%nat.

(** A line that the selection loop answers by asking again. *)
Definition rejected_selection (devices : list device) (line : string) : Prop :=
  lower (strip line) <> "q"%string
  /\ (py_int (strip line) = None
      \/ exists n, py_int (strip line) = Some n
                   /\ (n < 1 \/ Z.of_nat (length devices) < n)).

(** *** Hosts for examples *)

(** The host [h] with another JSON parser. *)
Definition with_json (h : Host) (loads : string -> result json) : Host :=
  {| geteuid := geteuid h;
     spawn := spawn h;
     path_exists := path_exists h;
     makedirs := makedirs h;
     expanduser := expanduser h;
     strftime_now := strftime_now h;
     json_loads := loads;
     str_exn := str_exn h;
     repr_value := repr_value h |}.

(** The host [h] where the tools behave as [run] says. *)
Definition with_spawn (h : Host) (run : list string -> option string -> proc)
    : Host :=
  {| geteuid := geteuid h;
     spawn := run;
     path_exists := path_exists h;
     makedirs := makedirs h;
     expanduser := expanduser h;
     strftime_now := strftime_now h;
     json_loads := json_loads h;
     str_exn := str_exn h;
     repr_value := repr_value h |}.

(** *** Entries of the listing *)

(** The text of a model or vendor value: a string, or nothing for a
    missing value. *)
Definition text_of (v : json) : option string :=
  match v with
  | JNull => Some EmptyString
  | JStr s => Some s
  | _ => None
  end.

(** The label of a device in the menu, line 106. *)
Definition label_of (h : Host) (device_name model vendor : string) (size : json)
    : string :=
  match model, vendor with
  | String _ _, String _ _ =>
      (vendor ++ " " ++ model ++ " " ++ py_str h size)%string
  | _, _ => (device_name ++ " " ++ py_str h size)%string
  end.

(** The record of a well-formed entry of the listing. *)
Definition record_of (h : Host) (fields : list (string * json)) (n model vendor : string)
    (children : list (list (string * json))) : device :=
  let size := match Py.lookup "size" fields with
              | Some v => v
              | None => JStr "Unknown Size"
              end in
  {| name := ("/dev/" ++ n)%string;
     size := size;
     display_name := label_of h ("/dev/" ++ n)%string (strip model) (strip vendor) size;
     model := strip model;
     vendor := strip vendor;
     is_mounted := (Py.truthy (field fields "mountpoint")
                    || existsb (fun c => Py.truthy (field c "mountpoint")) children)%bool |}.

(** *** Runs to the end of the script *)

(** [runs C m hist]: run to its end after [hist], the script [m] emits
    events that meet [C]. *)
Definition runs (C : condition) (m : M unit) (hist : list event) : Prop :=
  forall s, always C hist (fst (run m s)) (snd (run m s)).

(** The part of [main] that follows the selection, lines 198-316. *)
Definition after_selection (h : Host) (selected_device : device) : M unit :=
  let device_path := name selected_device in
  print (nl ++ "Selected: " ++ device_path
         ++ " (" ++ display_name selected_device ++ ")")%string ;;
  encrypted <- detect_luks_encryption h device_path ;;
  handle_device h device_path encrypted.

(** The events of the script up to the selection. *)
Definition prelude_event (e : event) : Prop :=
  notice e
  \/ (exists a, e = EvInput select_prompt a)
  \/ (exists p, e = EvRun lsblk_all None p).

(** A message. *)
Definition is_print (e : event) : Prop := exists msg, e = EvPrint msg.

(** The tool ran and returned 0. *)
Definition succeeded (p : proc) : bool :=
  match p with
  | Exit returncode _ _ => returncode =? 0
  | SpawnFailed _ => false
  end.

(** *** The result of the open tool *)

(** Once the open tool was run, only messages follow, and the exit status
    of the script is 0 if the tool succeeded and 1 if not. *)
Definition open_decides : condition :=
  fun hist e post o =>
    forall d n inp p,
      e = EvRun (luks_open_cmd d n) inp p ->
      Forall is_print post
      /\ exit_status o = (if succeeded p then 0 else 1).

(** A host like [h] where the tool [tool] of cryptsetup exits with
    [returncode]. *)
Definition failing (h : Host) (tool : string) (returncode : Z) : Host :=
  with_spawn h
    (fun cmd inp =>
       match cmd with
       | "cryptsetup" :: t :: _ =>
           if String.eqb t tool then Exit returncode EmptyString "failed"
           else spawn h cmd inp
       | _ => spawn h cmd inp
       end).

(** *** The format and the backup of the header *)

(** The directory and the file of the header backup of a device, lines
    147-151. *)
Definition backup_dir (h : Host) : string := expanduser h "~/luks_backups".

Definition backup_file (h : Host) (device_path : string) : string :=
  path_join (backup_dir h)
    (basename device_path ++ "_" ++ strftime_now h ++ ".header").

(** A format that fails ends the script with a message and status 1.  After
    a format that succeeded the script makes the directory of the backups: if
    that fails, the exception ends the script, and if not, the backup tool is
    run on the device. *)
Definition format_decides (h : Host) : condition :=
  fun hist e post o =>
    forall d inp p,
      e = EvRun (luks_format_cmd d) inp p ->
      (forall x,
          completed true (luks_format_cmd d) p = Raise x ->
          post = diagnostics (luks_format_cmd d) (Raise x)
                 ++ [EvPrint ("Formatting failed: " ++ str_exn h x)%string]
          /\ o = Exited 1)
      /\ (succeeded p = true ->
          exists made rest,
            post = EvPrint (nl ++ "Successfully formatted " ++ d
                            ++ " with LUKS.")%string
                   :: EvMakedirs (backup_dir h) made :: rest
            /\ match made with
               | Some msg => rest = [] /\ o = Uncaught (OSError msg)
               | None =>
                   exists rest',
                     rest = EvRun (header_backup_cmd d (backup_file h d)) None
                              (spawn h (header_backup_cmd d (backup_file h d)) None)
                            :: rest'
               end).

(** Whatever the backup tool does, the script goes on to ask for the mapper
    name, after messages that tell whether the backup was saved. *)
Definition backup_tolerated : condition :=
  fun hist e post o =>
    forall d f inp p,
      e = EvRun (header_backup_cmd d f) inp p ->
      exists notes a rest,
        post = notes ++ EvInput mapper_prompt_new a :: rest
        /\ Forall is_print notes
        /\ (In (EvPrint (nl ++ "LUKS header backup saved to: " ++ f)%string) notes
            <-> succeeded p = true).

(** *** What the open tool is given *)

(** The open tool is run on the name that the operator gave at the prompt
    just before, trimmed and not empty, whose mapper path was then found
    free; it is given the passphrase typed just before, or else the one that
    the format tool was given for the same device. *)
Definition open_input : condition :=
  fun hist e post o =>
    forall d n inp p,
      e = EvRun (luks_open_cmd d n) inp p ->
      (exists pre prompt raw mid,
          hist = pre ++ EvInput prompt (Some raw)
                        :: EvExists ("/dev/mapper/" ++ n)%string false :: mid
          /\ (prompt = mapper_prompt \/ prompt = mapper_prompt_new)
          /\ n = strip raw
          /\ n <> EmptyString)
      /\ exists passphrase,
           inp = Some (passphrase ++ nl)%string
           /\ ((exists pre,
                   hist = pre ++ [EvGetpass "Enter LUKS passphrase: "
                                    (Some passphrase)])
               \/ (exists r,
                      In (EvRun (luks_format_cmd d)
                            (Some ("YES" ++ nl ++ passphrase ++ nl
                                   ++ passphrase ++ nl)%string) r) hist)).

(** *** The device of a run *)

(** A command that one of the tools is run with on the device [d]. *)
Definition on_device (d : string) (cmd : list string) : Prop :=
  cmd = lsblk_one d
  \/ cmd = parted_print d
  \/ cmd = luks_format_cmd d
  \/ (exists f, cmd = header_backup_cmd d f)
  \/ (exists n, cmd = luks_open_cmd d n).

(** An event that runs no tool on a device other than [d]. *)
Definition spares_others (d : string) (e : event) : Prop :=
  forall cmd inp p d', e = EvRun cmd inp p -> on_device d' cmd -> d' = d.

(** The line that announces the selected device, line 199. *)
Definition announcement (d label : string) : event :=
  EvPrint (nl ++ "Selected: " ++ d ++ " (" ++ label ++ ")")%string.

(** The device [d] was announced and no tool was run on another one. *)
Definition tame (d label : string) (hist : list event) : Prop :=
  In (announcement d label) hist /\ Forall (spares_others d) hist.

(** Every tool that is run lists all block devices or works on the device
    that was announced, and no tool was run before on another device. *)
Definition one_device : condition :=
  fun hist e post o =>
    forall cmd inp p,
      e = EvRun cmd inp p ->
      cmd = lsblk_all
      \/ exists d label, on_device d cmd /\ tame d label hist.

(** *** The gate of the re-encryption *)

(** An event that writes to a device or to the file system. *)
Definition writes (e : event) : Prop :=
  (exists d, mutates d e) \/ (exists path r, e = EvMakedirs path r).

(** What [detect_luks_encryption] answers when the listing of the device
    gave [p]. *)
Definition detects (h : Host) (d : string) (p : proc) : bool :=
  match (let? out := completed true (lsblk_one d) p in
         let? data := json_loads h (fst out) in
         luks_scan data)%result with
  | Ok found => found
  | Raise _ => false
  end.

(** The device was inspected and found encrypted. *)
Definition found_encrypted (h : Host) (hist : list event) : Prop :=
  exists d p, In (EvRun (lsblk_one d) None p) hist /\ detects h d p = true.

(** An event that is no inspection that finds a device encrypted. *)
Definition finds_plain (h : Host) (e : event) : Prop :=
  forall d p, e = EvRun (lsblk_one d) None p -> detects h d p = false.

(** The operator answered the request to confirm the re-encryption with
    its sentence, up to surrounding whitespace. *)
Definition reconfirmed (hist : list event) : Prop :=
  exists pre a post,
    hist = pre ++ EvPrint reencrypt_request :: EvInput "> " (Some a) :: post
    /\ strip a = reencrypt_text.

(** What the encryption of the device relies on: the re-encryption was
    confirmed, or the device was not found encrypted. *)
Definition cleared (h : Host) (hist : list event) : Prop :=
  reconfirmed hist \/ Forall (finds_plain h) hist.

(** Once the device was found encrypted, nothing is written before the
    re-encryption is confirmed. *)
Definition regated (h : Host) : condition :=
  fun hist e post o => writes e -> found_encrypted h hist -> reconfirmed hist.

(** *** The ways the script ends *)






(** *** The numbers of the menu *)

(** Whether [s] holds decimal digits only. *)
Fixpoint all_digits (s : string) : bool :=
  match s with
  | EmptyString => true
  | String c s' => (is_digit c && all_digits s')%bool
  end.

(** * Properties *)

(** ** Examples of the string operations *)

Section StringExamples.

Local Open Scope string_scope.

Example strip_both : strip "  q 1 " = "q 1". Proof. reflexivity. Qed.
Example splitlines_crlf :
  splitlines ("ab" ++ String (ascii_of_nat 13) nl ++ nl ++ "c" ++ nl)
  = ["ab"; EmptyString; "c"].
Proof. reflexivity. Qed.
Example split_colon : split ":" "a:b:" = ["a"; "b"; EmptyString]. Proof. reflexivity. Qed.
Example int_ok : py_int "1_0" = Some 10. Proof. reflexivity. Qed.
Example int_neg : py_int "-007" = Some (-7). Proof. reflexivity. Qed.
Example int_bad : py_int "1__0" = None. Proof. reflexivity. Qed.
Example int_empty : py_int EmptyString = None. Proof. reflexivity. Qed.
Example dec_12 : dec 12 = "12". Proof. reflexivity. Qed.
Example basename_dev : basename "/dev/sdb" = "sdb". Proof. reflexivity. Qed.
Example lower_mixed : lower "NVMe0n1" = "nvme0n1". Proof. reflexivity. Qed.

Example splitlines_last : splitlines ("a" ++ nl) = ["a"]. Proof. reflexivity. Qed.
Example strip_all : strip (" " ++ nl) = EmptyString. Proof. reflexivity. Qed.

End StringExamples.

(** ** Runs of the script on the concrete host *)

(** An MBR table stops the script with status 1 before any passphrase is
    asked and before any tool of cryptsetup is run. *)
Example run_mbr :
  let r := run (main (Demo.host 0 false "msdos" false))
             {| stdin := ["1"; encrypt_text; "usb"];
                tty := ["longenough1"; "longenough1"] |} in
  snd r = Exited 1
  /\ Forall (fun e => match e with
                      | EvGetpass _ _ => False
                      | EvRun ("cryptsetup" :: _) _ _ => False
                      | _ => True
                      end) (fst r).
Proof. vm_compute. split; [reflexivity | repeat constructor]. Qed.

(** The whole encryption: format, header backup, open, status 0. *)
Example run_encrypt :
  let r := run (main (Demo.host 0 false "gpt" false))
             {| stdin := ["1"; encrypt_text; "usb"];
                tty := ["longenough1"; "longenough1"] |} in
  exit_status (snd r) = 0
  /\ map (fun e => match e with EvRun cmd _ _ => cmd | _ => [] end)
       (filter (fun e => match e with EvRun _ _ _ => true | _ => false end) (fst r))
     = [lsblk_all; lsblk_one "/dev/sdb"; parted_print "/dev/sdb";
        luks_format_cmd "/dev/sdb";
        header_backup_cmd "/dev/sdb" "/root/luks_backups/sdb_20240101_120000.header";
        luks_open_cmd "/dev/sdb" "usb"].
Proof. vm_compute. split; reflexivity. Qed.

(** Quitting at the menu ends the script with status 0. *)
Example run_quit :
  snd (run (main (Demo.host 0 false "gpt" false))
         {| stdin := ["x"; "9"; " Q "]; tty := [] |}) = Exited 0.
Proof. reflexivity. Qed.

(** ** Strings *)

Section StringFacts.

Local Open Scope string_scope.

Lemma append_nil_r (s : string) : s ++ EmptyString = s.
Proof. induction s as [|c s IH]; simpl; [reflexivity | now rewrite IH]. Qed.

Lemma append_assoc (a b c : string) : (a ++ b) ++ c = a ++ b ++ c.
Proof. induction a as [|x a IH]; simpl; [reflexivity | now rewrite IH]. Qed.

Lemma all_space_app (a b : string) :
  all_space (a ++ b) = (all_space a && all_space b)%bool.
Proof.
  induction a as [|c a IH]; simpl; [reflexivity|].
  rewrite IH. now rewrite andb_assoc.
Qed.

Lemma lstrip_space_prefix (l s : string) :
  all_space l = true -> lstrip (l ++ s) = lstrip s.
Proof.
  induction l as [|c l IH]; simpl; [reflexivity|].
  intros H. apply andb_true_iff in H as [Hc Hl].
  rewrite Hc. now apply IH.
Qed.

Lemma lstrip_split (s : string) :
  exists l, all_space l = true /\ s = l ++ lstrip s.
Proof.
  induction s as [|c s [l [Hl Hs]]]; simpl.
  - now exists EmptyString.
  - destruct (isspace c) eqn:Hc.
    + exists (String c l). simpl. rewrite Hc, Hl. split; [reflexivity|].
      now rewrite <- Hs.
    + now exists EmptyString.
Qed.

Lemma rstrip_all_space (r : string) :
  all_space r = true -> rstrip r = EmptyString.
Proof.
  induction r as [|c r IH]; simpl; [reflexivity|].
  intros H. apply andb_true_iff in H as [Hc Hr].
  rewrite (IH Hr). now rewrite Hc.
Qed.

Lemma rstrip_empty (s : string) :
  rstrip s = EmptyString -> all_space s = true.
Proof.
  induction s as [|c s IH]; simpl; [reflexivity|].
  destruct (rstrip s) eqn:Hr; [|discriminate].
  destruct (isspace c); [|discriminate].
  intros _. now rewrite IH.
Qed.

Lemma rstrip_space_suffix (s r : string) :
  all_space r = true -> rstrip (s ++ r) = rstrip s.
Proof.
  intros Hr. induction s as [|c s IH]; simpl.
  - now apply rstrip_all_space.
  - now rewrite IH.
Qed.

Lemma rstrip_split (s : string) :
  exists r, all_space r = true /\ s = rstrip s ++ r.
Proof.
  induction s as [|c s [r [Hr Hs]]]; simpl.
  - now exists EmptyString.
  - destruct (rstrip s) eqn:E.
    + destruct (isspace c) eqn:Hc.
      * exists (String c s). simpl. rewrite Hc.
        split; [|reflexivity]. now apply rstrip_empty.
      * exists r. split; [assumption|]. simpl in *. now f_equal.
    + exists r. split; [assumption|]. simpl in *. now f_equal.
Qed.

Lemma lstrip_keeps_suffix (s r : string) :
  lstrip s <> EmptyString -> lstrip (s ++ r) = lstrip s ++ r.
Proof.
  induction s as [|c s IH]; simpl; [congruence|].
  destruct (isspace c); [assumption | reflexivity].
Qed.

Lemma lstrip_empty (s : string) :
  lstrip s = EmptyString -> all_space s = true.
Proof.
  induction s as [|c s IH]; simpl; [reflexivity|].
  destruct (isspace c); [assumption | discriminate].
Qed.

(** [strip] does not see the whitespace around its argument. *)
Lemma strip_surround (l s r : string) :
  all_space l = true -> all_space r = true -> strip (l ++ s ++ r) = strip s.
Proof.
  intros Hl Hr. unfold strip. rewrite lstrip_space_prefix by assumption.
  destruct (lstrip s) eqn:E.
  - apply lstrip_empty in E.
    rewrite <- (append_nil_r (s ++ r)).
    rewrite lstrip_space_prefix; [reflexivity|].
    rewrite all_space_app. now rewrite E, Hr.
  - rewrite lstrip_keeps_suffix by (rewrite E; discriminate).
    rewrite E. now apply rstrip_space_suffix.
Qed.

(** What [strip] returns is the argument without the whitespace around it. *)
Lemma strip_split (s : string) :
  exists l r, all_space l = true /\ all_space r = true /\ s = l ++ strip s ++ r.
Proof.
  destruct (lstrip_split s) as [l [Hl Hs]].
  destruct (rstrip_split (lstrip s)) as [r [Hr Hs']].
  exists l, r. repeat split; try assumption.
  unfold strip. now rewrite <- Hs', <- Hs.
Qed.

Lemma strip_iff (answer text : string) :
  strip text = text ->
  (strip answer = text <->
   exists l r, all_space l = true /\ all_space r = true /\ answer = l ++ text ++ r).
Proof.
  intros Ht. split.
  - intros <-. apply strip_split.
  - intros [l [r [Hl [Hr ->]]]]. now rewrite strip_surround.
Qed.

Lemma strip_empty_iff (s : string) :
  strip s = EmptyString <-> all_space s = true.
Proof.
  split.
  - intros H. destruct (strip_split s) as [l [r [Hl [Hr E]]]].
    rewrite H in E. simpl in E. rewrite E, all_space_app. now rewrite Hl, Hr.
  - intros H. unfold strip.
    destruct (lstrip_split s) as [l [Hl E]].
    assert (all_space (lstrip s) = true) as Hs.
    { rewrite E, all_space_app in H. now apply andb_true_iff in H as [_ H]. }
    now apply rstrip_all_space.
Qed.

Lemma prefix_lower (p s : string) :
  prefix p s = true -> prefix (lower p) (lower s) = true.
Proof.
  revert s. induction p as [|c p IH]; intros s; destruct s as [|d s]; simpl;
    try reflexivity; try discriminate.
  destruct (ascii_dec c d) as [->|]; [|discriminate].
  intros H. destruct (ascii_dec (lower_char d) (lower_char d)); [|congruence].
  now apply IH.
Qed.

Lemma contains_lower (p s : string) :
  contains p s = true -> contains (lower p) (lower s) = true.
Proof.
  induction s as [|c s IH]; simpl.
  - rewrite orb_false_r. intros H. apply (prefix_lower p EmptyString) in H.
    simpl in H. now rewrite H.
  - intros H. apply orb_true_iff in H as [H|H].
    + apply (prefix_lower p (String c s)) in H. simpl in H. now rewrite H.
    + rewrite (IH H). apply orb_true_r.
Qed.

End StringFacts.

(** ** The logic of traces *)

Section TraceLogic.

Variable C : condition.

Lemma always_split hist t o :
  always C hist t o ->
  forall pre e post, t = pre ++ e :: post -> C (hist ++ pre) e post o.
Proof.
  intros H pre. revert hist t H.
  induction pre as [|x pre IH]; intros hist t H e post ->; simpl in H.
  - rewrite app_nil_r. apply H.
  - destruct H as [_ H]. specialize (IH _ _ H e post eq_refl).
    now rewrite <- app_assoc in IH.
Qed.

Lemma settled_nil hist : settled C hist [].
Proof. intros post o. now rewrite app_nil_r. Qed.

Lemma settled_cons hist e t :
  (forall post o, C hist e (t ++ post) o) ->
  settled C (hist ++ [e]) t ->
  settled C hist (e :: t).
Proof.
  intros He Ht post o H. simpl. split; [apply He|].
  apply Ht. now rewrite <- app_assoc.
Qed.

Lemma settled_app hist t1 t2 :
  settled C hist t1 -> settled C (hist ++ t1) t2 -> settled C hist (t1 ++ t2).
Proof.
  intros H1 H2 post o H. rewrite <- app_assoc. apply H1, H2.
  now rewrite <- app_assoc.
Qed.

Lemma settled_always hist t o : settled C hist t -> always C hist t o.
Proof.
  intros H. specialize (H [] o). rewrite app_nil_r in H. now apply H.
Qed.

Lemma settled_inert hist t : Forall (inert C) t -> settled C hist t.
Proof.
  intros H. revert hist. induction H as [|e t He _ IH]; intros hist.
  - apply settled_nil.
  - apply settled_cons; [intros; apply He | apply IH].
Qed.

Lemma wp_ret {A} (a : A) (R : A -> list event -> Prop) hist :
  R a hist -> wp C (ret a) R hist.
Proof.
  intros H s. simpl. split; [apply settled_nil | now rewrite app_nil_r].
Qed.

Lemma wp_sys_exit {A} status (R : A -> list event -> Prop) hist :
  wp C (sys_exit status) R hist.
Proof. intros s. exact I. Qed.

Lemma wp_uncaught {A} e (R : A -> list event -> Prop) hist :
  wp C (uncaught e) R hist.
Proof. intros s. exact I. Qed.

Lemma wp_bind {A B} (m : M A) (f : A -> M B) R hist :
  wp C m (fun a hist' => wp C (f a) R hist') hist -> wp C (bind m f) R hist.
Proof.
  intros H s. unfold bind. specialize (H s).
  destruct (m s) as [t [a s'|o]]; [|exact H].
  destruct H as [Hs Hf]. specialize (Hf s').
  destruct (f a s') as [t' [b s''|o]].
  - destruct Hf as [Hs' HR]. split; [now apply settled_app|].
    now rewrite app_assoc.
  - now apply Hs.
Qed.

Lemma wp_weaken {A} (m : M A) (R R' : A -> list event -> Prop) hist :
  wp C m R hist -> (forall a hist', R a hist' -> R' a hist') -> wp C m R' hist.
Proof.
  intros H HR s. specialize (H s). destruct (m s) as [t [a s'|o]]; [|exact H].
  destruct H as [Hs H]. split; [exact Hs | now apply HR].
Qed.

(** An event that meets [C] whatever follows. *)
Lemma wp_emit e (R : unit -> list event -> Prop) hist :
  (forall post o, C hist e post o) -> R tt (hist ++ [e]) -> wp C (emit e) R hist.
Proof.
  intros He HR s. simpl. split; [|exact HR].
  apply settled_cons; [intros; apply He | apply settled_nil].
Qed.

(** An event followed by the rest of the script: [C] is checked against what
    the rest does. *)
Lemma wp_emit_then {B} e (k : M B) R hist :
  (forall s, match k s with
             | (t, Stop o) => C hist e t o
             | (t, Ret _ _) => forall post o, C hist e (t ++ post) o
             end) ->
  wp C k R (hist ++ [e]) ->
  wp C (bind (emit e) (fun _ => k)) R hist.
Proof.
  intros He Hk s. unfold bind. simpl. specialize (He s). specialize (Hk s).
  destruct (k s) as [t [b s'|o]]; simpl.
  - destruct Hk as [Hs HR]. split.
    + apply settled_cons; [exact He | exact Hs].
    + now rewrite <- app_assoc in HR.
  - split; [exact He | exact Hk].
Qed.

Lemma wp_input prompt (R : string -> list event -> Prop) hist :
  C hist (EvInput prompt None) [] (Uncaught EOFError) ->
  (forall a, (forall post o, C hist (EvInput prompt (Some a)) post o)
             /\ R a (hist ++ [EvInput prompt (Some a)])) ->
  wp C (input prompt) R hist.
Proof.
  intros Heof Hline s. unfold input. destruct (stdin s) as [|a rest]; simpl.
  - split; [exact Heof | exact I].
  - destruct (Hline a) as [Ha HR]. split; [|exact HR].
    apply settled_cons; [intros; apply Ha | apply settled_nil].
Qed.

(** A line read and the rest of the script. *)
Lemma wp_input_then {B} prompt (k : string -> M B) R hist :
  C hist (EvInput prompt None) [] (Uncaught EOFError) ->
  (forall a s, match k a s with
               | (t, Stop o) => C hist (EvInput prompt (Some a)) t o
               | (t, Ret _ _) =>
                   forall post o, C hist (EvInput prompt (Some a)) (t ++ post) o
               end) ->
  (forall a, wp C (k a) R (hist ++ [EvInput prompt (Some a)])) ->
  wp C (bind (input prompt) k) R hist.
Proof.
  intros Heof He Hk s. unfold bind, input.
  destruct (stdin s) as [|a rest]; simpl.
  - split; [exact Heof | exact I].
  - specialize (He a {| stdin := rest; tty := tty s |}).
    specialize (Hk a {| stdin := rest; tty := tty s |}).
    destruct (k a _) as [t [b s'|o]]; simpl.
    + destruct Hk as [Hs HR]. split.
      * apply settled_cons; [exact He | exact Hs].
      * now rewrite <- app_assoc in HR.
    + split; [exact He | exact Hk].
Qed.

Lemma wp_getpass prompt (R : string -> list event -> Prop) hist :
  C hist (EvGetpass prompt None) [] (Uncaught EOFError) ->
  (forall a, (forall post o, C hist (EvGetpass prompt (Some a)) post o)
             /\ R a (hist ++ [EvGetpass prompt (Some a)])) ->
  wp C (getpass prompt) R hist.
Proof.
  intros Heof Hline s. unfold getpass. destruct (tty s) as [|a rest]; simpl.
  - split; [exact Heof | exact I].
  - destruct (Hline a) as [Ha HR]. split; [|exact HR].
    apply settled_cons; [intros; apply Ha | apply settled_nil].
Qed.

(** A computation whose events are all inert. *)
Lemma wp_quiet {A} (E : event -> Prop) (V : A -> Prop) (m : M A) R hist :
  emits E V m ->
  (forall e, E e -> inert C e) ->
  (forall a seg, Forall E seg -> V a -> R a (hist ++ seg)) ->
  wp C m R hist.
Proof.
  intros Hm HE HR s. destruct (Hm s) as [Ht Hv].
  assert (settled C hist (fst (m s))) as Hs.
  { apply settled_inert. eapply Forall_impl; [|exact Ht]. exact HE. }
  destruct (m s) as [t [a s'|o]]; simpl in *.
  - split; [exact Hs | now apply HR].
  - now apply settled_always.
Qed.

(** The whole run of a script. *)
Lemma wp_run (m : M unit) R s :
  wp C m R [] -> always C [] (fst (run m s)) (snd (run m s)).
Proof.
  intros H. unfold run. specialize (H s).
  destruct (m s) as [t [a s'|o]]; simpl.
  - now apply settled_always.
  - exact H.
Qed.

End TraceLogic.

(** ** What each part of the script emits *)

Lemma emits_ret {A} (E : event -> Prop) (V : A -> Prop) (a : A) :
  V a -> emits E V (ret a).
Proof. intros H s. simpl. now split. Qed.

Lemma emits_stop {A} (E : event -> Prop) (V : A -> Prop) o :
  emits E V (fun _ => ([], Stop o)).
Proof. intros s. simpl. now split. Qed.

Lemma emits_emit (E : event -> Prop) (V : unit -> Prop) e :
  E e -> V tt -> emits E V (emit e).
Proof. intros H Hv s. simpl. split; [now constructor | exact Hv]. Qed.

Lemma emits_bind {A B} (E : event -> Prop) (V : A -> Prop) (W : B -> Prop)
    (m : M A) (f : A -> M B) :
  emits E V m -> (forall a, V a -> emits E W (f a)) -> emits E W (bind m f).
Proof.
  intros Hm Hf s. unfold bind. destruct (Hm s) as [Ht Hv].
  destruct (m s) as [t [a s'|o]]; simpl in *; [|now split].
  destruct (Hf a Hv s') as [Ht' Hw].
  destruct (f a s') as [t' r]; simpl in *.
  split; [now apply Forall_app | exact Hw].
Qed.

Lemma emits_weaken {A} (E E' : event -> Prop) (V V' : A -> Prop) (m : M A) :
  emits E V m -> (forall e, E e -> E' e) -> (forall a, V a -> V' a) ->
  emits E' V' m.
Proof.
  intros Hm HE HV s. destruct (Hm s) as [Ht Hv]. split.
  - eapply Forall_impl; [|exact Ht]. exact HE.
  - destruct (snd (m s)); [now apply HV | exact I].
Qed.

Lemma emits_input (E : event -> Prop) prompt :
  (forall a, E (EvInput prompt a)) -> emits E (fun _ => True) (input prompt).
Proof.
  intros H s. unfold input. destruct (stdin s); simpl; split; auto.
Qed.

Lemma emits_getpass (E : event -> Prop) prompt :
  (forall a, E (EvGetpass prompt a)) -> emits E (fun _ => True) (getpass prompt).
Proof.
  intros H s. unfold getpass. destruct (tty s); simpl; split; auto.
Qed.

Ltac is_notice := eexists; split; reflexivity.

Section Alphabets.

Variable h : Host.
Variable E : event -> Prop.
Hypothesis E_notice : forall e, notice e -> E e.

Lemma emits_print msg :
  prefix (nl ++ "Type '")%string msg = false -> emits E (fun _ => True) (print msg).
Proof.
  intros H. apply emits_emit; [|exact I]. apply E_notice. now exists msg.
Qed.

Lemma emits_run_command cmd inp chk :
  E (EvRun cmd inp (spawn h cmd inp)) ->
  emits E (fun r => r = completed chk cmd (spawn h cmd inp))
    (run_command h cmd inp chk).
Proof.
  intros Hrun s. unfold run_command, subprocess_run, bind, emit, ret, print.
  simpl. destruct (completed chk cmd (spawn h cmd inp)) as [[out err]|[]];
    simpl; split; try reflexivity;
    repeat (constructor; try assumption); apply E_notice; is_notice.
Qed.

Lemma emits_check_root_privileges :
  emits E (fun _ => True) (check_root_privileges h).
Proof.
  unfold check_root_privileges. destruct (negb (geteuid h =? 0)).
  - eapply emits_bind; [apply emits_print; reflexivity|].
    intros _ _. apply emits_stop.
  - now apply emits_ret.
Qed.

Lemma emits_get_block_devices :
  (forall p, E (EvRun lsblk_all None p)) ->
  emits E (fun _ => True) (get_block_devices h).
Proof.
  intros Hrun. unfold get_block_devices.
  eapply emits_bind; [apply emits_run_command, Hrun|].
  intros r _. destruct (rbind r _) as [data|e].
  - destruct (collect_devices h data); [now apply emits_ret | apply emits_stop].
  - eapply emits_bind; [apply emits_print; reflexivity|].
    intros _ _. apply emits_stop.
Qed.

Lemma emits_list_devices i devices :
  emits E (fun _ => True) (list_devices i devices).
Proof.
  revert i. induction devices as [|d rest IH]; intros i; simpl.
  - now apply emits_ret.
  - eapply emits_bind; [apply emits_print; reflexivity|].
    intros _ _. apply IH.
Qed.

Lemma emits_select_device devices :
  (forall a, E (EvInput select_prompt a)) ->
  emits E (fun _ => True) (select_device devices).
Proof.
  intros Hin s. unfold select_device.
  generalize (tty s) as term. induction (stdin s) as [|line rest IH]; intros term.
  - simpl. split; [repeat constructor; apply Hin | exact I].
  - simpl.
    assert (emits E (fun _ : device => True)
              (fun s0 => select_loop devices rest (tty s0))) as Hagain.
    { intros s0. apply IH. }
    assert (emits E (fun _ : device => True)
              (select_turn devices line
                 (fun s0 => select_loop devices rest (tty s0)))) as Hturn.
    { unfold select_turn.
      destruct (String.eqb _ _).
      - eapply emits_bind; [apply emits_print; reflexivity|].
        intros _ _. apply emits_stop.
      - destruct (py_int _) as [n|].
        + destruct (_ && _)%bool.
          * destruct (nth_error _ _); [now apply emits_ret | apply emits_stop].
          * eapply emits_bind; [apply emits_print; reflexivity|].
            intros _ _. exact Hagain.
        + eapply emits_bind; [apply emits_print; reflexivity|].
          intros _ _. exact Hagain. }
    destruct (Hturn {| stdin := rest; tty := term |}) as [Ht Hv].
    destruct (select_turn _ _ _ _) as [t r]. simpl in *.
    split; [constructor; [apply Hin | exact Ht] | exact Hv].
Qed.

Lemma emits_detect_luks_encryption d :
  (forall p, E (EvRun (lsblk_one d) None p)) ->
  emits E (fun _ => True) (detect_luks_encryption h d).
Proof.
  intros Hrun. unfold detect_luks_encryption.
  eapply emits_bind; [apply emits_run_command, Hrun|].
  intros r _. destruct (rbind r _) as [found|e].
  - now apply emits_ret.
  - unfold DEBUG. apply emits_bind with (V := fun _ => True); [now apply emits_ret|].
    intros _ _. now apply emits_ret.
Qed.

End Alphabets.

(** The whole script meets a condition as soon as the handling of the
    selected device does, if nothing that comes before can breach it. *)
Lemma main_always (C : condition) (h : Host) :
  (forall e, front_event e -> inert C e) ->
  (forall front d enc,
      Forall front_event front ->
      wp C (handle_device h d enc) (fun _ _ => True) front) ->
  forall s, always C [] (fst (run (main h) s)) (snd (run (main h) s)).
Proof.
  intros Hinert Htail s. apply wp_run with (R := fun _ _ => True).
  assert (forall e, notice e -> front_event e) as Hn by (intros e He; now left).
  assert (forall {A} (m : M A) (k : A -> M unit) front,
             Forall front_event front ->
             emits front_event (fun _ => True) m ->
             (forall a front', Forall front_event front' ->
                               wp C (k a) (fun _ _ => True) front') ->
             wp C (bind m k) (fun _ _ => True) front) as step.
  { intros A m k front Hf Hm Hk. apply wp_bind.
    eapply wp_quiet; [exact Hm | exact Hinert |].
    intros a seg Hseg _. apply Hk. now apply Forall_app. }
  unfold main.
  apply step; [constructor | now apply emits_check_root_privileges |].
  intros _ f0 H0.
  apply step; [exact H0 | now apply emits_print |]. intros _ f1 H1.
  apply step; [exact H1 | now apply emits_print |]. intros _ f2 H2.
  apply step; [exact H2 | now apply emits_print |]. intros _ f3 H3.
  apply step; [exact H3 | now apply emits_print |]. intros _ f4 H4.
  apply step; [exact H4 | |].
  { apply emits_get_block_devices; [exact Hn|].
    intros p. right. right. now exists (tl lsblk_all), p. }
  intros [|d0 devices] f5 H5.
  - apply step; [exact H5 | now apply emits_print |]. intros _ f6 H6.
    apply wp_sys_exit.
  - apply step; [exact H5 | now apply emits_print |]. intros _ f6 H6.
    apply step; [exact H6 | now apply emits_list_devices |]. intros _ f7 H7.
    apply step; [exact H7 | |].
    { apply emits_select_device; [exact Hn|]. intros a. right. left. now exists a. }
    intros selected f8 H8.
    apply step; [exact H8 | now apply emits_print |]. intros _ f9 H9.
    apply step; [exact H9 | |].
    { apply emits_detect_luks_encryption; [exact Hn|].
      intros p. right. right. now exists (tl (lsblk_one (name selected))), p. }
    intros enc f10 H10. now apply (Htail f10 (name selected) enc).
Qed.

Lemma passphrase_verdict_accepted p1 p2 :
  passphrase_verdict p1 p2 = Accepted <-> p1 = p2 /\ (8 <= String.length p1)%nat.
Proof.
  unfold passphrase_verdict.
  destruct (String.eqb_spec p1 p2) as [->|Hne]; simpl.
  - destruct (Z.ltb_spec (Z.of_nat (String.length p2)) 8); split.
    + discriminate.
    + intros [_ H']. lia.
    + intros _. split; [reflexivity | lia].
    + reflexivity.
  - split; [discriminate | intros [H _]; contradiction].
Qed.

Lemma emits_collect_passphrase (E : event -> Prop) :
  (forall e, notice e -> E e) ->
  (forall prompt a, E (EvGetpass prompt a)) ->
  emits E (fun p => (8 <= String.length p)%nat) collect_passphrase.
Proof.
  intros Hn Hg s. unfold collect_passphrase.
  generalize (stdin s) as lines.
  assert (forall n term, (length term <= n)%nat -> forall lines,
             Forall E (fst (passphrase_loop term lines))
             /\ match snd (passphrase_loop term lines) with
                | Ret p _ => (8 <= String.length p)%nat
                | Stop _ => True
                end) as H.
  { induction n as [|n IH]; intros term Hlen lines.
    - destruct term; [|simpl in Hlen; lia]. simpl. split; [|exact I].
      repeat constructor. apply Hg.
    - destruct term as [|p1 [|p2 rest]].
      + simpl. split; [|exact I]. repeat constructor. apply Hg.
      + simpl. split; [|exact I]. repeat constructor; apply Hg.
      + simpl in Hlen. specialize (IH rest ltac:(lia)).
        simpl. unfold passphrase_turn.
        destruct (passphrase_verdict p1 p2) eqn:Hv;
          unfold bind, print, emit, ret; simpl.
        * destruct (IH lines) as [Ht Hr].
          destruct (passphrase_loop rest lines) as [t r]. simpl in *.
          split; [|exact Hr].
          repeat (constructor; try apply Hg). { apply Hn; is_notice. } exact Ht.
        * destruct (IH lines) as [Ht Hr].
          destruct (passphrase_loop rest lines) as [t r]. simpl in *.
          split; [|exact Hr].
          repeat (constructor; try apply Hg). { apply Hn; is_notice. } exact Ht.
        * split; [repeat constructor; apply Hg|].
          now apply passphrase_verdict_accepted in Hv. }
  intros lines. now apply (H (length (tty s))).
Qed.

(** ** Walking through the script *)

Lemma bind_assoc {A B D} (m : M A) (f : A -> M B) (g : B -> M D) s :
  bind (bind m f) g s = bind m (fun a => bind (f a) g) s.
Proof.
  unfold bind. destruct (m s) as [t [a s'|o]]; [|reflexivity].
  destruct (f a s') as [t' [b s''|o]]; [|reflexivity].
  destruct (g b s'') as [t'' r]. now rewrite app_assoc.
Qed.

Section Walk.

Variable C : condition.
Variable h : Host.

Lemma wp_ext {A} (m m' : M A) R hist :
  (forall s, m s = m' s) -> wp C m R hist -> wp C m' R hist.
Proof. intros E H s. rewrite <- E. apply H. Qed.

Lemma wp_bind_assoc {A B D} (m : M A) (f : A -> M B) (g : B -> M D) R hist :
  wp C (bind m (fun a => bind (f a) g)) R hist -> wp C (bind (bind m f) g) R hist.
Proof. apply wp_ext. intros s. symmetry. apply bind_assoc. Qed.

Lemma wp_ret_bind {A B} (a : A) (f : A -> M B) R hist :
  wp C (f a) R hist -> wp C (bind (ret a) f) R hist.
Proof.
  apply wp_ext. intros s. unfold bind, ret. now destruct (f a s).
Qed.

(** A step whose event meets [C] whatever follows. *)
Lemma wp_emit_bind {B} e (k : unit -> M B) R hist :
  (forall post o, C hist e post o) ->
  wp C (k tt) R (hist ++ [e]) ->
  wp C (bind (emit e) k) R hist.
Proof. intros He Hk. apply wp_bind. now apply wp_emit. Qed.

Lemma wp_input_bind {B} prompt (k : string -> M B) R hist :
  (forall a, inert C (EvInput prompt a)) ->
  (forall a, wp C (k a) R (hist ++ [EvInput prompt (Some a)])) ->
  wp C (bind (input prompt) k) R hist.
Proof.
  intros He Hk. apply wp_bind. apply wp_input; [apply He|].
  intros a. split; [intros; apply He | apply Hk].
Qed.

Lemma wp_getpass_bind {B} prompt (k : string -> M B) R hist :
  (forall a, inert C (EvGetpass prompt a)) ->
  (forall a, wp C (k a) R (hist ++ [EvGetpass prompt (Some a)])) ->
  wp C (bind (getpass prompt) k) R hist.
Proof.
  intros He Hk. apply wp_bind. apply wp_getpass; [apply He|].
  intros a. split; [intros; apply He | apply Hk].
Qed.

(** A tool is run, its event meeting [C] whatever follows. *)
Lemma wp_run_command_bind {B} cmd inp chk (k : result (string * string) -> M B)
    R hist :
  (forall e, notice e -> inert C e) ->
  (forall post o, C hist (EvRun cmd inp (spawn h cmd inp)) post o) ->
  (forall notes, Forall notice notes ->
     wp C (k (completed chk cmd (spawn h cmd inp))) R
       (hist ++ EvRun cmd inp (spawn h cmd inp) :: notes)) ->
  wp C (bind (run_command h cmd inp chk) k) R hist.
Proof.
  intros Hn He Hk. unfold run_command, subprocess_run.
  apply wp_bind_assoc, wp_bind_assoc, wp_emit_bind; [exact He|].
  apply wp_ret_bind.
  assert (forall msg, prefix (nl ++ "Type '")%string msg = false ->
                      notice (EvPrint msg)) as Hp by (intros msg Hm; now exists msg).
  revert Hk. generalize (completed chk cmd (spawn h cmd inp)) as c. intros c Hk.
  destruct c as [[out err]|[]];
    try (apply wp_ret_bind;
         replace (hist ++ [EvRun cmd inp (spawn h cmd inp)])
           with (hist ++ EvRun cmd inp (spawn h cmd inp) :: [])
           by reflexivity;
         apply Hk; constructor).
  apply wp_bind_assoc, wp_emit_bind; [intros; apply Hn, Hp; reflexivity|].
  apply wp_bind_assoc, wp_emit_bind; [intros; apply Hn, Hp; reflexivity|].
  apply wp_bind_assoc, wp_emit_bind; [intros; apply Hn, Hp; reflexivity|].
  apply wp_ret_bind.
  repeat rewrite <- app_assoc. simpl.
  apply Hk. repeat constructor; apply Hp; reflexivity.
Qed.

End Walk.

Ltac walk_step tac :=
  lazymatch goal with
  | |- wp _ (bind (bind _ _) _) _ _ => apply wp_bind_assoc
  | |- wp _ (bind (ret _) _) _ _ => apply wp_ret_bind
  | |- wp _ (bind (print _) _) _ _ => apply wp_emit_bind; [intros; tac|]
  | |- wp _ (bind (emit _) _) _ _ => apply wp_emit_bind; [intros; tac|]
  | |- wp _ (bind (input _) _) _ _ =>
      apply wp_input_bind; [intros ? ? ? ?; tac | intros ?]
  | |- wp _ (bind (getpass _) _) _ _ =>
      apply wp_getpass_bind; [intros ? ? ? ?; tac | intros ?]
  | |- wp _ (bind (run_command _ _ _ _) _) _ _ =>
      apply wp_run_command_bind;
      [intros ? [? [-> ?]] ? ? ?; tac | intros; tac | intros ? ?]
  | |- wp _ (bind (sys_exit _) _) _ _ => apply wp_bind, wp_sys_exit
  | |- wp _ (bind (uncaught _) _) _ _ => apply wp_bind, wp_uncaught
  | |- wp _ (sys_exit _) _ _ => apply wp_sys_exit
  | |- wp _ (uncaught _) _ _ => apply wp_uncaught
  | |- wp _ (print _) _ _ => apply wp_emit; [intros; tac|]
  | |- wp _ (bind (if ?b then _ else _) _) _ _ => destruct b eqn:?
  | |- wp _ (bind (match ?x with _ => _ end) _) _ _ => destruct x eqn:?
  | |- wp _ (if ?b then _ else _) _ _ => destruct b eqn:?
  | |- wp _ (match ?x with _ => _ end) _ _ => destruct x eqn:?
  end.

Ltac walk tac := repeat walk_step tac.

Ltac in_hist := rewrite ?in_app_iff; simpl; tauto.

Section Skeleton.

Variable C : condition.
Variable h : Host.
Variable Inv : list event -> Prop.
Variable d : string.

Hypothesis notice_inert : forall e, notice e -> inert C e.
Hypothesis action_inert : forall a, inert C (EvInput action_prompt a).
Hypothesis Inv_notice : forall hist e, Inv hist -> notice e -> Inv (hist ++ [e]).
Hypothesis Inv_action :
  forall hist a, Inv hist -> Inv (hist ++ [EvInput action_prompt a]).

Hypothesis open_ok :
  forall hist, Inv hist -> wp C (open_encrypted h d) (fun (_ : unit) => Inv) hist.
Hypothesis gate_ok :
  forall hist, Inv hist ->
    wp C (confirmation_gate reencrypt_request reencrypt_text
            "Re-encryption cancelled. Exiting.") (fun _ => Inv) hist.
Hypothesis encrypt_ok :
  forall hist, Inv hist -> wp C (encrypt_device h d) (fun _ _ => True) hist.

Lemma wp_action_turn line again hist :
  Inv hist ->
  (forall hist', Inv hist' -> wp C again (fun _ => Inv) hist') ->
  wp C (action_turn h d line again) (fun _ => Inv) hist.
Proof.
  intros Hi Hagain. unfold action_turn.
  assert (forall msg, prefix (nl ++ "Type '")%string msg = false ->
                      notice (EvPrint msg)) as Hp by (intros msg Hm; now exists msg).
  destruct (String.eqb _ "exit").
  { apply wp_emit_bind; [intros; apply notice_inert, Hp; reflexivity|].
    apply wp_sys_exit. }
  destruct (String.eqb _ "open"); [now apply open_ok|].
  destruct (String.eqb _ "re-encrypt").
  { apply wp_emit_bind; [intros; apply notice_inert, Hp; reflexivity|].
    apply gate_ok, Inv_notice; [exact Hi | apply Hp; reflexivity]. }
  apply wp_emit_bind; [intros; apply notice_inert, Hp; reflexivity|].
  apply Hagain, Inv_notice; [exact Hi | apply Hp; reflexivity].
Qed.

Lemma wp_choose_action hist :
  Inv hist -> wp C (choose_action h d) (fun _ => Inv) hist.
Proof.
  intros Hi s. unfold choose_action.
  generalize (tty s) as term. revert hist Hi.
  induction (stdin s) as [|line rest IH]; intros hist Hi term; simpl.
  - split; [apply action_inert | exact I].
  - assert (forall hist', Inv hist' ->
              wp C (fun s0 => action_loop h d rest (tty s0)) (fun _ => Inv) hist')
      as Hagain.
    { intros hist' Hi' s0. now apply IH. }
    pose proof (wp_action_turn line _ (hist ++ [EvInput action_prompt (Some line)])
                  (Inv_action _ _ Hi) Hagain {| stdin := rest; tty := term |}) as Ht.
    destruct (action_turn _ _ _ _ _) as [t [a s'|o]]; simpl.
    + destruct Ht as [Hs HR]. split.
      * apply settled_cons; [intros; apply action_inert | exact Hs].
      * now rewrite <- app_assoc in HR.
    + split; [apply action_inert | exact Ht].
Qed.

Lemma wp_handle_device enc hist :
  Inv hist -> wp C (handle_device h d enc) (fun _ _ => True) hist.
Proof.
  intros Hi. unfold handle_device. apply wp_bind. destruct enc.
  - apply wp_emit_bind; [intros; apply notice_inert; is_notice|].
    eapply wp_weaken; [apply wp_choose_action, Inv_notice; [exact Hi | is_notice]|].
    intros ? hist' Hi'. now apply encrypt_ok.
  - apply wp_ret. now apply encrypt_ok.
Qed.

End Skeleton.

(** ** Root privileges *)

(** C9.  When the effective user id is not 0, the script prints one message
    and exits with status 1: no device is enumerated, no tool is run and
    nothing is asked. *)
Theorem non_root_exits_first (h : Host) (s : io) :
  geteuid h <> 0 ->
  run (main h) s
  = ([EvPrint ("This script must be run with root privileges. Try:" ++ nl
               ++ "  sudo python3 script.py")%string],
     Exited 1)
  /\ exit_status (snd (run (main h) s)) = 1.
Proof.
  intros H. apply Z.eqb_neq in H.
  unfold run, main, bind, check_root_privileges. rewrite H. simpl.
  now split.
Qed.

Lemma non_root_exits_first_witness :
  exit_status
    (snd (run (main (Demo.host 1000 false "gpt" false))
            {| stdin := ["1"]; tty := [] |})) = 1.
Proof.
  apply (non_root_exits_first (Demo.host 1000 false "gpt" false)
           {| stdin := ["1"]; tty := [] |}).
  simpl. lia.
Defined.

(** ** Detection of LUKS *)

Section Detect.

Local Open Scope string_scope.

Lemma eq_str_true v s : Py.eq_str v s = true <-> v = JStr s.
Proof.
  destruct v; simpl; try (split; discriminate).
  split.
  - intros H. apply String.eqb_eq in H. now subst.
  - intros [= ->]. apply String.eqb_refl.
Qed.

Lemma is_crypt_type_entry fields :
  exists b, is_crypt_type (JObj fields) = Ok b /\ (b = true <-> luks_entry fields).
Proof.
  unfold is_crypt_type, luks_entry, has_text. simpl.
  destruct (Py.eq_str _ "crypt") eqn:Ety.
  - exists true. split; [reflexivity|]. split; [|reflexivity].
    intros _. left. apply eq_str_true in Ety.
    destruct (Py.lookup "type" fields); [now subst | discriminate].
  - exists (Py.eq_str
              match Py.lookup "fstype" fields with Some x => x | None => JNull end
              "crypto_LUKS").
    split; [reflexivity|]. split.
    + intros H. right. apply eq_str_true in H.
      destruct (Py.lookup "fstype" fields); [now subst | discriminate].
    + intros [H|H].
      * rewrite H in Ety. simpl in Ety. discriminate.
      * rewrite H. reflexivity.
Qed.

Lemma is_crypt_type_true entry :
  is_crypt_type entry = Ok true ->
  exists fields, entry = JObj fields /\ luks_entry fields.
Proof.
  destruct entry as [| | | | |items|fields]; try discriminate.
  intros H. exists fields. split; [reflexivity|].
  destruct (is_crypt_type_entry fields) as [b [E Hb]].
  rewrite E in H. injection H as ->. now apply Hb.
Qed.

Lemma any_crypt_child_entries children :
  exists b,
    any_crypt_child (map JObj children) = Ok b
    /\ (b = true <-> exists c, In c children /\ luks_entry c).
Proof.
  induction children as [|c children [b [E Hb]]]; simpl.
  - exists false. split; [reflexivity|]. split; [discriminate|].
    now intros [c [[] _]].
  - destruct (is_crypt_type_entry c) as [bc [Ec Hc]]. rewrite Ec. simpl.
    destruct bc.
    + exists true. split; [reflexivity|]. split; [|reflexivity].
      intros _. exists c. split; [now left | now apply Hc].
    + exists b. split; [exact E|]. split.
      * intros H. apply Hb in H as [c' [Hin Hl]]. exists c'. split; [now right | exact Hl].
      * intros [c' [[<-|Hin] Hl]].
        -- apply Hc in Hl. discriminate.
        -- apply Hb. now exists c'.
Qed.

Lemma any_crypt_child_true children :
  any_crypt_child children = Ok true ->
  exists fields, In (JObj fields) children /\ luks_entry fields.
Proof.
  induction children as [|c children IH]; simpl; [discriminate|].
  destruct (is_crypt_type c) as [[|]|e] eqn:E; simpl; try discriminate.
  - intros _. destruct (is_crypt_type_true c E) as [fields [-> Hl]].
    exists fields. split; [now left | exact Hl].
  - intros H. destruct (IH H) as [fields [Hin Hl]].
    exists fields. split; [now right | exact Hl].
Qed.

(** On a listing of the expected shape, the scan finds exactly the LUKS
    entries among the device and its children. *)
Lemma luks_scan_listing data dev children :
  listing_of data dev children ->
  exists b,
    luks_scan data = Ok b
    /\ (b = true <-> luks_entry dev \/ exists c, In c children /\ luks_entry c).
Proof.
  intros [fields [rest [-> [Hl Hc]]]].
  unfold luks_scan. simpl. rewrite Hl. simpl.
  destruct (is_crypt_type_entry dev) as [bd [Ed Hd]]. rewrite Ed. simpl.
  destruct bd.
  - exists true. split; [reflexivity|]. split; [|reflexivity].
    intros _. left. now apply Hd.
  - destruct Hc as [[Hn ->]|Hs].
    + rewrite Hn. simpl. exists false. split; [reflexivity|].
      split; [discriminate|]. intros [H|[c [[] _]]]. apply Hd in H. discriminate.
    + rewrite Hs. simpl.
      destruct (any_crypt_child_entries children) as [b [E Hb]].
      exists b. split; [exact E|]. split.
      * intros H. right. now apply Hb.
      * intros [H|H]; [apply Hd in H; discriminate | now apply Hb].
Qed.

(** Whatever the scan finds is an entry of the listing: its first device or
    a child of it. *)
Lemma luks_scan_true data :
  luks_scan data = Ok true ->
  exists fields listed first,
    Py.item data "blockdevices" = Ok listed
    /\ Py.item0 listed = Ok first
    /\ luks_entry fields
    /\ (first = JObj fields
        \/ exists kids children,
             Py.get first "children" (JArr []) = Ok kids
             /\ Py.iter kids = Ok children
             /\ In (JObj fields) children).
Proof.
  unfold luks_scan.
  destruct (Py.item data "blockdevices") as [listed|] eqn:El; simpl; [|discriminate].
  destruct (Py.item0 listed) as [first|] eqn:Ef; simpl; [|discriminate].
  destruct (is_crypt_type first) as [[|]|] eqn:Ec; simpl; try discriminate.
  - intros _. destruct (is_crypt_type_true first Ec) as [fields [-> Hl]].
    exists fields, listed, (JObj fields).
    repeat split; try assumption; try reflexivity. now left.
  - destruct (Py.get first "children" (JArr [])) as [kids|] eqn:Ek; simpl;
      [|discriminate].
    destruct (Py.iter kids) as [children|] eqn:Ei; simpl; [|discriminate].
    intros H. destruct (any_crypt_child_true children H) as [fields [Hin Hl]].
    exists fields, listed, first. repeat split; try assumption.
    right. now exists kids, children.
Qed.

End Detect.

Lemma detect_returns (h : Host) (d : string) (s : io) :
  exists t,
    detect_luks_encryption h d s
    = (t, Ret (match luks_query h d with Ok b => b | Raise _ => false end) s).
Proof.
  unfold detect_luks_encryption, luks_query, run_command, subprocess_run.
  destruct (completed true (lsblk_one d) (spawn h (lsblk_one d) None))
    as [[out err]|e]; simpl.
  - unfold bind, emit, ret, DEBUG. simpl.
    destruct (rbind (json_loads h out) _) as [b|e]; simpl; eexists; reflexivity.
  - destruct e; unfold bind, emit, ret, print, DEBUG; simpl; eexists; reflexivity.
Qed.

(** C5.  [detect_luks_encryption] always returns, without raising and
    without ending the script.  It returns false whenever the query fails:
    the tool cannot be run or exits with an error, its output is not JSON,
    or the listing cannot be read.  On a listing of the device, it returns
    true exactly when the device entry or one of its child entries has type
    "crypt" or filesystem type "crypto_LUKS"; and in any case, what makes
    it return true is such an entry. *)
Theorem detect_luks_encryption_spec (h : Host) (d : string) (s : io) :
  exists t b,
    detect_luks_encryption h d s = (t, Ret b s)
    /\ (forall msg, spawn h (lsblk_one d) None = SpawnFailed msg -> b = false)
    /\ (forall rc out err,
           spawn h (lsblk_one d) None = Exit rc out err -> rc <> 0 -> b = false)
    /\ (forall out err e,
           spawn h (lsblk_one d) None = Exit 0 out err ->
           json_loads h out = Raise e -> b = false)
    /\ (forall out err data e,
           spawn h (lsblk_one d) None = Exit 0 out err ->
           json_loads h out = Ok data ->
           luks_scan data = Raise e -> b = false)
    /\ (forall out err data dev children,
           spawn h (lsblk_one d) None = Exit 0 out err ->
           json_loads h out = Ok data ->
           listing_of data dev children ->
           (b = true <-> luks_entry dev \/ exists c, In c children /\ luks_entry c))
    /\ (b = true ->
        exists out err data,
          spawn h (lsblk_one d) None = Exit 0 out err
          /\ json_loads h out = Ok data
          /\ luks_scan data = Ok true).
Proof.
  destruct (detect_returns h d s) as [t Ht].
  exists t, (match luks_query h d with Ok b => b | Raise _ => false end).
  split; [exact Ht|]. unfold luks_query.
  split; [|split; [|split; [|split; [|split]]]].
  - intros msg ->. reflexivity.
  - intros rc out err -> Hrc. simpl. apply Z.eqb_neq in Hrc. now rewrite Hrc.
  - intros out err e -> Hj. simpl. now rewrite Hj.
  - intros out err data e -> Hj Hl. simpl. rewrite Hj. simpl. now rewrite Hl.
  - intros out err data dev children -> Hj Hl. simpl. rewrite Hj. simpl.
    destruct (luks_scan_listing _ _ _ Hl) as [b [E Hb]]. now rewrite E.
  - destruct (spawn h (lsblk_one d) None) as [msg|rc out err]; simpl;
      [discriminate|].
    destruct (Z.eqb_spec rc 0) as [->|]; simpl; [|discriminate].
    destruct (json_loads h out) as [data|e] eqn:Ej; simpl; [|discriminate].
    destruct (luks_scan data) as [b|e] eqn:El; [|discriminate].
    intros ->. now exists out, err, data.
Qed.

Lemma detect_luks_encryption_spec_witness :
  snd (detect_luks_encryption (Demo.host 0 true "gpt" false) "/dev/sdb"
         {| stdin := []; tty := [] |})
  = Ret true {| stdin := []; tty := [] |}.
Proof.
  destruct (detect_luks_encryption_spec (Demo.host 0 true "gpt" false)
              "/dev/sdb" {| stdin := []; tty := [] |})
    as [t [b [E [_ [_ [_ [_ [H _]]]]]]]].
  rewrite E. simpl. f_equal.
  apply (H "one"%string EmptyString (Demo.listing_one true)
           [("name", JStr "sdb"); ("size", JStr "14.9G"); ("type", JStr "disk");
            ("rota", JBool false); ("model", JStr "Ultra ");
            ("vendor", JStr "SanDisk "); ("fstype", JNull); ("mountpoint", JNull);
            ("rm", JBool true);
            ("children", JArr [Demo.entry "sdb1" "part" (JStr "crypto_LUKS") true []])]%string
           [[("name", JStr "sdb1"); ("size", JStr "14.9G"); ("type", JStr "part");
             ("rota", JBool false); ("model", JStr "Ultra ");
             ("vendor", JStr "SanDisk "); ("fstype", JStr "crypto_LUKS");
             ("mountpoint", JNull); ("rm", JBool true);
             ("children", JArr [])]]%string).
  - reflexivity.
  - reflexivity.
  - eexists. eexists. split; [reflexivity|]. split; [reflexivity|].
    right. reflexivity.
  - right. eexists. split; [left; reflexivity|]. right. reflexivity.
Defined.

(** ** The catalog of devices *)

Section Catalog.

Variable h : Host.

Local Open Scope string_scope.

(** A block that the loop keeps is a removable disk that is not NVMe. *)
Lemma scan_block_kept block dev :
  scan_block h block = Ok (Some dev) ->
  exists n,
    removable_disk block n
    /\ name dev = "/dev/" ++ n
    /\ contains "nvme" (lower n) = false.
Proof.
  unfold scan_block.
  destruct block as [| | | | |items|fields]; try discriminate.
  unfold Py.get, Py.item, Py.has. cbn [rbind].
  destruct (Py.eq_str _ "disk") eqn:Ety; cbn [negb]; [|discriminate].
  apply eq_str_true in Ety.
  destruct (Py.lookup "name" fields) as [nm|] eqn:En; [|discriminate].
  cbn [rbind].
  destruct (Py.str_method strip (Py.or_empty _)) as [model|]; [|discriminate].
  cbn [rbind].
  destruct (Py.str_method strip (Py.or_empty _)) as [vendor|]; [|discriminate].
  cbn [rbind].
  destruct nm as [| | | |n| |]; try discriminate.
  cbn [Py.str_method rbind].
  destruct (contains "nvme" (lower n)) eqn:Envme; [discriminate|].
  destruct (Py.truthy _) eqn:Erm; cbn [negb]; [|discriminate].
  match goal with
  | |- rbind ?x _ = _ -> _ => destruct x as [on_child|]; [|discriminate]
  end.
  cbn [rbind]. intros [= <-]. exists n. cbn [name py_str].
  split; [|now split].
  destruct (Py.lookup "rm" fields) as [rm|] eqn:Er; [|discriminate].
  exists fields, rm. unfold has_text. repeat split; try assumption.
  destruct (Py.lookup "type" fields); [now subst | discriminate].
Qed.

Lemma scan_blocks_kept blocks acc devices :
  scan_blocks h blocks acc = Ok devices ->
  forall dev,
    In dev devices ->
    In dev acc \/ exists block, In block blocks /\ scan_block h block = Ok (Some dev).
Proof.
  revert acc. induction blocks as [|block blocks IH]; intros acc; simpl.
  - intros [= <-] dev Hin. now left.
  - destruct (scan_block h block) as [[kept|]|] eqn:E; simpl; [| |discriminate].
    + intros H dev Hin. destruct (IH _ H dev Hin) as [Ha|[b [Hb Hs]]].
      * apply in_app_iff in Ha as [Ha|[<-|[]]].
        -- now left.
        -- right. exists block. split; [now left | exact E].
      * right. exists b. split; [now right | exact Hs].
    + intros H dev Hin. destruct (IH _ H dev Hin) as [Ha|[b [Hb Hs]]].
      * now left.
      * right. exists b. split; [now right | exact Hs].
Qed.

Lemma contains_dev_prefix n :
  contains "nvme" ("/dev/" ++ n) = contains "nvme" n.
Proof. destruct n; reflexivity. Qed.

End Catalog.

(** What the filter of the catalog does guarantee.  Every device that
    [get_block_devices] returns comes from an entry of the listing that is of
    type "disk" and whose "rm" value is true as Python tests it, and its name
    holds no "nvme", in whatever case.  A value that Python takes for true
    need not be the JSON [true]: any string that is not empty is one. *)
Lemma catalog_keeps_truthy_disks (h : Host) (s : io) (t : list event)
    (devices : list device) (s' : io) :
  get_block_devices h s = (t, Ret devices s') ->
  exists out err data listed blocks,
    spawn h lsblk_all None = Exit 0 out err
    /\ json_loads h out = Ok data
    /\ Py.get data "blockdevices" (JArr []) = Ok listed
    /\ Py.iter listed = Ok blocks
    /\ forall dev,
         In dev devices ->
         contains "nvme" (lower (name dev)) = false
         /\ contains "nvme" (name dev) = false
         /\ exists block n,
              In block blocks
              /\ removable_disk block n
              /\ name dev = ("/dev/" ++ n)%string.
Proof.
  unfold get_block_devices, run_command, subprocess_run.
  destruct (spawn h lsblk_all None) as [msg|rc out err] eqn:Es; simpl.
  { unfold bind, emit, ret, print, sys_exit. simpl. discriminate. }
  destruct (Z.eqb_spec rc 0) as [->|Hrc]; simpl.
  2:{ unfold bind, emit, ret, print, sys_exit. simpl. discriminate. }
  unfold bind at 1 2 3. unfold emit, ret. simpl.
  destruct (json_loads h out) as [data|e] eqn:Ej; simpl.
  2:{ unfold bind, print, emit, sys_exit. simpl. discriminate. }
  destruct (collect_devices h data) as [devs|e] eqn:Ec; simpl; [|discriminate].
  intros [= <- <- <-].
  unfold collect_devices in Ec.
  destruct (Py.get data "blockdevices" (JArr [])) as [listed|] eqn:El;
    simpl in Ec; [|discriminate].
  destruct (Py.iter listed) as [blocks|] eqn:Ei; simpl in Ec; [|discriminate].
  exists out, err, data, listed, blocks.
  do 4 (split; [first [reflexivity | assumption]|]).
  intros dev Hin.
  destruct (scan_blocks_kept h _ _ _ Ec dev Hin) as [[]|[block [Hb Hs]]].
  destruct (scan_block_kept h _ _ Hs) as [n [Hr [Hname Hn]]].
  assert (contains "nvme" (lower (name dev)) = false) as Hlow.
  { rewrite Hname. simpl. exact Hn. }
  split; [exact Hlow|]. split.
  - destruct (contains "nvme" (name dev)) eqn:E; [|reflexivity].
    apply contains_lower in E. change (lower "nvme") with "nvme" in E.
    rewrite Hlow in E. discriminate.
  - now exists block, n.
Qed.

Lemma catalog_keeps_truthy_disks_example :
  fst (snd (Demo.catalog_run (Demo.host 0 false "gpt" false)))
  = [Demo.usb_record]
  /\ contains "nvme" (lower (name Demo.usb_record)) = false
  /\ exists block n,
       removable_disk block n /\ name Demo.usb_record = ("/dev/" ++ n)%string.
Proof.
  split; [reflexivity|].
  destruct (catalog_keeps_truthy_disks (Demo.host 0 false "gpt" false)
              {| stdin := []; tty := [] |} _ [Demo.usb_record] _ eq_refl)
    as [out [err [data [listed [blocks [_ [_ [_ [_ H]]]]]]]]].
  destruct (H Demo.usb_record (or_introl eq_refl))
    as [Hlow [_ [block [n [_ [Hr Hn]]]]]].
  split; [exact Hlow|]. now exists block, n.
Defined.

(** C6.  The catalog does not keep removable disks only.  On a host whose
    lsblk prints the removable flag as a string, the entry of an internal
    disk has "rm": "0"; line 92 tests [not removable], and Python takes a
    string that is not empty for true.  The disk is of type "disk", its flag
    is neither the JSON [true] nor lsblk's "1", and yet the catalog returns
    its record, the menu offers it, and the operator who selects it and
    confirms has it formatted. *)
Theorem unremovable_disk_is_offered :
  has_text old_lsblk_entry "type" "disk"
  /\ Py.lookup "rm" old_lsblk_entry = Some (JStr "0")
  /\ get_block_devices old_lsblk_host {| stdin := []; tty := [] |}
     = ([EvRun lsblk_all None (Exit 0 "all" EmptyString)],
        Ret [old_lsblk_record] {| stdin := []; tty := [] |})
  /\ (let t := fst (run (main old_lsblk_host)
                      {| stdin := ["1"; encrypt_text; "usb"];
                         tty := ["longenough1"; "longenough1"] |}) in
      In (EvPrint "  [1] /dev/sda (ATA Samsung SSD 860 238.5G) ") t
      /\ In (EvRun (luks_format_cmd "/dev/sda")
               (Some ("YES" ++ nl ++ "longenough1" ++ nl ++ "longenough1" ++ nl)%string)
               (Exit 0 EmptyString EmptyString)) t).
Proof.
  split; [reflexivity|]. split; [reflexivity|]. split; [reflexivity|].
  vm_compute. tauto.
Qed.

(** ** Partition table *)

Section Split.

Local Open Scope string_scope.

Lemma prefix_has_char c p s :
  prefix p s = true -> has_char c p = true -> has_char c s = true.
Proof.
  revert s. induction p as [|x p IH]; intros s; [discriminate 2|].
  destruct s as [|y s]; simpl; [discriminate|].
  destruct (ascii_dec x y) as [->|]; [|discriminate].
  intros Hp Hc. apply orb_true_iff in Hc as [Hc|Hc].
  - now rewrite Hc.
  - rewrite (IH s Hp Hc). apply orb_true_r.
Qed.

Lemma contains_has_char c p s :
  contains p s = true -> has_char c p = true -> has_char c s = true.
Proof.
  intros Hc Hp. induction s as [|y s IH]; simpl in Hc.
  - rewrite orb_false_r in Hc. now apply (prefix_has_char c p).
  - apply orb_true_iff in Hc as [Hc|Hc].
    + now apply (prefix_has_char c p).
    + simpl. rewrite (IH Hc). apply orb_true_r.
Qed.

Lemma split_nonempty sep s : split sep s <> [].
Proof.
  destruct s as [|c s]; simpl; [discriminate|].
  destruct (Ascii.eqb c sep); [discriminate|].
  destruct (split sep s); discriminate.
Qed.

Lemma split_second sep s :
  has_char sep s = true -> exists a b rest, split sep s = a :: b :: rest.
Proof.
  induction s as [|c s IH]; simpl; [discriminate|].
  destruct (Ascii.eqb c sep) eqn:E; simpl.
  - intros _. destruct (split sep s) as [|b rest] eqn:Es.
    + now destruct (split_nonempty sep s).
    + now exists EmptyString, b, rest.
  - intros H. destruct (IH H) as [a [b [rest ->]]].
    now exists (String c a), b, rest.
Qed.

End Split.

(** The label found on the first line that holds it. *)
Lemma partition_label_found before line after :
  Forall (fun l => contains "Partition Table:" l = false) before ->
  contains "Partition Table:" line = true ->
  exists name field rest,
    split ":" line = name :: field :: rest
    /\ partition_label (before ++ line :: after) = Ok (Some (lower (strip field))).
Proof.
  intros Hb Hl.
  destruct (split_second ":" line) as [name [field [rest E]]].
  { now apply (contains_has_char ":" "Partition Table:"). }
  exists name, field, rest. split; [exact E|].
  induction Hb as [|l before Hl' _ IH]; simpl.
  - rewrite Hl, E. reflexivity.
  - rewrite Hl'. exact IH.
Qed.

Lemma partition_label_absent lines :
  Forall (fun l => contains "Partition Table:" l = false) lines ->
  partition_label lines = Ok None.
Proof.
  intros H. induction H as [|l lines Hl _ IH]; simpl; [reflexivity|].
  now rewrite Hl.
Qed.

Lemma bind_ret_l {A B} (a : A) (k : A -> M B) s : bind (ret a) k s = k a s.
Proof. unfold bind, ret. now destruct (k a s). Qed.

Lemma bind_print {B} msg (k : unit -> M B) s :
  bind (print msg) k s = (EvPrint msg :: fst (k tt s), snd (k tt s)).
Proof. unfold bind, print, emit. now destruct (k tt s). Qed.

Lemma bind_input {B} prompt (k : string -> M B) s :
  bind (input prompt) k s
  = match stdin s with
    | [] => ([EvInput prompt None], Stop (Uncaught EOFError))
    | a :: rest =>
        (EvInput prompt (Some a) :: fst (k a {| stdin := rest; tty := tty s |}),
         snd (k a {| stdin := rest; tty := tty s |}))
    end.
Proof.
  unfold bind, input. destruct (stdin s) as [|a rest]; [reflexivity|].
  now destruct (k a _).
Qed.

Section GptOnly.

Variable h : Host.

Ltac c2 :=
  unfold inert, gpt_only, luks_open_cmd, luks_format_cmd, parted_print,
    header_backup_cmd in *;
  intros; try discriminate.

Lemma notice_inert_c2 e : notice e -> inert gpt_only e.
Proof. intros [msg [-> _]]. c2. Qed.

Lemma pass_inert_c2 e : pass_event e -> inert gpt_only e.
Proof. intros [[msg [-> _]]|[q [a ->]]]; c2. Qed.

(** The part of [encrypt_device] that follows the partition-table check. *)
Lemma after_check_c2 d hist :
  wp gpt_only
    (bind (confirmation_gate encrypt_request encrypt_text
             "Confirmation failed. Exiting.")
       (fun _ => bind collect_passphrase (fun p => format_and_open h d p)))
    (fun _ _ => True) hist.
Proof.
  unfold confirmation_gate. walk c2. apply wp_bind.
  eapply wp_quiet;
    [apply (emits_collect_passphrase pass_event);
       [intros e0 He; now left | intros q0 a0; right; now exists q0, a0]
    | exact pass_inert_c2
    |].
  intros p seg Hseg _.
  unfold format_and_open, luks_header_backup, open_formatted, os_path_exists.
  walk c2; exact I.
Qed.

Lemma encrypt_device_c2 d hist :
  wp gpt_only (encrypt_device h d) (fun _ _ => True) hist.
Proof.
  unfold encrypt_device, get_partition_table_type, run_command, subprocess_run.
  do 3 apply wp_bind_assoc.
  set (p := spawn h (parted_print d) None).
  set (v := table_type_of (completed false (parted_print d) p)).
  assert (forall B (k : result (string * string) -> M B) s,
             bind (match completed false (parted_print d) p with
                   | Raise (CalledProcessError _ _ out err) =>
                       bind (print (nl ++ "Error executing command: "
                                    ++ join " " (parted_print d))%string)
                         (fun _ => bind (print ("STDOUT: " ++ out)%string)
                            (fun _ => bind (print ("STDERR: " ++ err)%string)
                               (fun _ => ret (completed false (parted_print d) p))))
                   | _ => ret (completed false (parted_print d) p)
                   end) k s
             = k (completed false (parted_print d) p) s) as Hrun.
  { intros B k s. destruct p as [msg|rc out err]; simpl;
      unfold bind, ret; simpl; now destruct (k _ s). }
  apply wp_emit_then.
  - intros s. rewrite bind_ret_l, Hrun, bind_ret_l. fold v.
    destruct (String.eqb_spec v "gpt") as [Hv|Hv]; cbn [negb].
    + unfold confirmation_gate.
      rewrite bind_print. cbv beta. rewrite bind_assoc, bind_print. cbv beta.
      rewrite bind_assoc, bind_input.
      cbn [fst snd]. rewrite Hv.
      destruct (stdin s) as [|a rest]; cbn [fst snd].
      * intros d' p' [= <-]. subst p'. split; [intros Hne; now destruct Hne|].
        intros _. now exists None, [].
      * match goal with
        | |- context [bind ?m ?f ?s'] => destruct (bind m f s') as [t [u s''|o]]
        end; cbn [fst snd].
        -- intros post o d' p' [= <-]. subst p'.
           split; [intros Hne; now destruct Hne|].
           intros _. now exists (Some a), (t ++ post).
        -- intros d' p' [= <-]. subst p'.
           split; [intros Hne; now destruct Hne|].
           intros _. now exists (Some a), t.
    + rewrite bind_print. cbv beta. rewrite bind_print. cbn [fst snd].
      unfold sys_exit.
      intros d' p' [= <-]. subst p'. split; [|intros Hv'; now destruct Hv].
      intros _. now split.
  - apply wp_ret_bind.
    eapply wp_ext; [intros s; symmetry; apply Hrun|].
    apply wp_ret_bind. fold v.
    destruct (negb (String.eqb v "gpt")); [walk c2|].
    apply wp_emit_bind; [c2|]. apply after_check_c2.
Qed.

End GptOnly.

(** C2 as the script has it.  [get_partition_table_type] runs the inspection
    tool once and returns "unknown" when the tool cannot be run or when no
    line of its output holds the label; otherwise it returns what stands
    between the first and the second colon of the first line that holds the
    label, trimmed and in lower case, whatever that is.  After the check the
    script goes on to the confirmation of the encryption exactly when the
    value is "gpt", and ends with status 1 otherwise. *)
Theorem table_type_gates_format (h : Host) (d : string) (s : io) :
  let p := spawn h (parted_print d) None in
  let v := table_type_of (completed false (parted_print d) p) in
  get_partition_table_type h d s = ([EvRun (parted_print d) None p], Ret v s)
  /\ (forall msg, p = SpawnFailed msg -> v = "unknown"%string)
  /\ (forall rc out err,
         p = Exit rc out err ->
         Forall (fun l => contains "Partition Table:" l = false) (splitlines out) ->
         v = "unknown"%string)
  /\ (forall rc out err before line after,
         p = Exit rc out err ->
         splitlines out = before ++ line :: after ->
         Forall (fun l => contains "Partition Table:" l = false) before ->
         contains "Partition Table:" line = true ->
         exists name field rest,
           split ":" line = name :: field :: rest
           /\ v = lower (strip field))
  /\ (forall pre d' p' post,
         fst (run (main h) s) = pre ++ EvRun (parted_print d') None p' :: post ->
         let v' := table_type_of (completed false (parted_print d') p') in
         (v' <> "gpt"%string ->
          post = [EvPrint (nl ++ "Error: " ++ d' ++ " uses '" ++ v'
                           ++ "' partition table.")%string;
                  EvPrint "Only GPT is supported. Convert it using tools like 'gparted' or 'parted'."]
          /\ snd (run (main h) s) = Exited 1)
         /\ (v' = "gpt"%string ->
             exists answer post',
               post = EvPrint "Partition Table: GPT (OK)"
                      :: EvPrint encrypt_request
                      :: EvInput "> " answer :: post')).
Proof.
  intros p v. split; [|split; [|split; [|split]]].
  - unfold get_partition_table_type, run_command, subprocess_run.
    fold p. unfold v. unfold bind, emit, ret.
    destruct p as [msg|rc out err]; reflexivity.
  - intros msg E. unfold v. now rewrite E.
  - intros rc out err E Hl. unfold v. rewrite E. unfold table_type_of. simpl.
    now rewrite (partition_label_absent _ Hl).
  - intros rc out err before line after E El Hb Hl.
    destruct (partition_label_found before line after Hb Hl)
      as [name [field [rest [Es Ep]]]].
    exists name, field, rest. split; [exact Es|].
    unfold v. rewrite E. unfold table_type_of. simpl. now rewrite El, Ep.
  - intros pre d' p' post E.
    assert (always gpt_only [] (fst (run (main h) s)) (snd (run (main h) s)))
      as H.
    { apply main_always.
      - intros e0 [He|[[b ->]|[args [q ->]]]];
          [now apply notice_inert_c2 | |];
          unfold inert, gpt_only, parted_print; intros; discriminate.
      - intros front d0 enc Hf.
        apply (wp_handle_device gpt_only h (fun _ => True) d0);
          try (intros; exact I).
        + exact notice_inert_c2.
        + intros a. unfold inert, gpt_only; intros; discriminate.
        + intros hist _. unfold open_encrypted, os_path_exists.
          walk ltac:(unfold inert, gpt_only, luks_open_cmd, parted_print in *;
                     intros; try discriminate).
        + intros hist _. unfold confirmation_gate.
          walk ltac:(unfold inert, gpt_only in *; intros; try discriminate).
          now apply wp_ret.
        + intros hist _. apply encrypt_device_c2. }
    exact (always_split _ _ _ _ H _ _ _ E d' p' eq_refl).
Qed.

Lemma table_type_gates_format_witness :
  let s := {| stdin := ["1"; "yes"]; tty := [] |} in
  let t := fst (run (main (Demo.host 0 false "msdos" false)) s) in
  skipn 11 t
  = [EvPrint (nl ++ "Error: /dev/sdb uses 'msdos' partition table.")%string;
     EvPrint "Only GPT is supported. Convert it using tools like 'gparted' or 'parted'."]
  /\ snd (run (main (Demo.host 0 false "msdos" false)) s) = Exited 1.
Proof.
  intros s t.
  destruct (table_type_gates_format (Demo.host 0 false "msdos" false)
              "/dev/sdb" s) as [_ [_ [_ [_ H]]]].
  apply (H (firstn 10 t) "/dev/sdb"%string
           (Exit 0 (Demo.parted_output "msdos") EmptyString) (skipn 11 t)).
  - vm_compute. reflexivity.
  - vm_compute. discriminate.
Defined.

(** C2 as stated fails: on a disk with an MBR table the function returns
    the label of the tool, "msdos", which is none of the four values. *)
Lemma table_type_counterexample :
  snd (get_partition_table_type (Demo.host 0 false "msdos" false) "/dev/sdb"
         {| stdin := []; tty := [] |})
  = Ret "msdos"%string {| stdin := []; tty := [] |}
  /\ ~ In "msdos"%string ["gpt"; "mbr"; "unknown"; "other"]%string.
Proof.
  split; [reflexivity|].
  simpl. intros [H|[H|[H|[H|H]]]]; try discriminate H; exact H.
Qed.

(** ** Confirmation gates *)

Lemma bind_ret_r {A} (m : M A) s : bind m (fun a => ret a) s = m s.
Proof.
  unfold bind, ret. destruct (m s) as [t [a s'|o]]; [|reflexivity].
  now rewrite app_nil_r.
Qed.

Lemma confirmation_fails_false answer text :
  confirmation_fails answer text = false <-> strip answer = text.
Proof.
  unfold confirmation_fails. rewrite negb_false_iff. apply String.eqb_eq.
Qed.

Lemma confirmation_fails_true answer text :
  confirmation_fails answer text = true <-> strip answer <> text.
Proof.
  unfold confirmation_fails. rewrite negb_true_iff. apply String.eqb_neq.
Qed.

Section Mismatch.

Variable h : Host.

Ltac c4 :=
  unfold inert, cancel_on_mismatch in *; intros; try discriminate.

Lemma notice_inert_c4 e : notice e -> inert cancel_on_mismatch e.
Proof. intros [msg [-> _]]. c4. Qed.

Lemma pass_inert_c4 e : pass_event e -> inert cancel_on_mismatch e.
Proof. intros [[msg [-> _]]|[q [a ->]]]; c4. Qed.

Lemma gate_c4 {B} request text cancelled (k : unit -> M B) R hist :
  is_gate request text cancelled ->
  (forall hist', wp cancel_on_mismatch (k tt) R hist') ->
  wp cancel_on_mismatch (bind (confirmation_gate request text cancelled) k) R hist.
Proof.
  intros Hg Hk. unfold confirmation_gate.
  apply wp_bind_assoc, wp_emit_bind; [c4|].
  apply wp_bind_assoc, wp_input_then.
  - c4.
  - intros a s. destruct (confirmation_fails a text) eqn:Hc.
    + unfold bind, print, emit, sys_exit. simpl.
      intros pre b [= ->].
      destruct Hg as [[-> [-> ->]]|[-> [-> ->]]]; split; intros Hh Hne;
        try (now split);
        apply app_inj_tail in Hh as [_ Hh]; discriminate Hh.
    + apply confirmation_fails_false in Hc.
      destruct (bind _ _ s) as [t [u s'|o]]; intros;
        intros pre b [= ->];
        destruct Hg as [[-> [-> ->]]|[-> [-> ->]]]; split; intros Hh Hne;
        try contradiction;
        apply app_inj_tail in Hh as [_ Hh]; discriminate Hh.
  - intros a. walk c4. apply Hk.
Qed.

Lemma encrypt_device_c4 d hist :
  wp cancel_on_mismatch (encrypt_device h d) (fun _ _ => True) hist.
Proof.
  unfold encrypt_device, get_partition_table_type.
  walk c4. apply gate_c4; [left; now repeat split|]. intros hist'.
  apply wp_bind.
  eapply wp_quiet;
    [apply (emits_collect_passphrase pass_event);
       [intros e0 He; now left | intros q0 a0; right; now exists q0, a0]
    | exact pass_inert_c4
    |].
  intros p seg Hseg _.
  unfold format_and_open, luks_header_backup, open_formatted, os_path_exists.
  walk c4; exact I.
Qed.

Lemma handle_device_c4 d enc front :
  wp cancel_on_mismatch (handle_device h d enc) (fun _ _ => True) front.
Proof.
  apply (wp_handle_device cancel_on_mismatch h (fun _ => True) d);
    try (intros; exact I).
  - exact notice_inert_c4.
  - intros a. c4.
  - intros hist _. unfold open_encrypted, os_path_exists. walk c4.
  - intros hist _.
    eapply wp_ext; [intros s; apply bind_ret_r|].
    apply gate_c4; [right; now repeat split|].
    intros hist'. now apply wp_ret.
  - intros hist _. apply encrypt_device_c4.
Qed.

End Mismatch.

(** C4 as the script has it.  A mismatched confirmation sentence, at the
    gate of the encryption or at the gate of the re-encryption, is not asked
    again: one message follows and the process ends with status 0. *)
Theorem confirmation_mismatch_exits (h : Host) (s : io) :
  let t := fst (run (main h) s) in
  let o := snd (run (main h) s) in
  forall pre a post,
    (t = pre ++ EvPrint encrypt_request :: EvInput "> " (Some a) :: post ->
     strip a <> encrypt_text ->
     post = [EvPrint "Confirmation failed. Exiting."]
     /\ o = Exited 0 /\ exit_status o = 0)
    /\ (t = pre ++ EvPrint reencrypt_request :: EvInput "> " (Some a) :: post ->
        strip a <> reencrypt_text ->
        post = [EvPrint "Re-encryption cancelled. Exiting."]
        /\ o = Exited 0 /\ exit_status o = 0).
Proof.
  intros t o pre a post.
  assert (always cancel_on_mismatch [] t o) as H.
  { apply main_always.
    - intros e0 [He|[[b ->]|[args [p ->]]]];
        [now apply notice_inert_c4 | |];
        unfold inert, cancel_on_mismatch; intros; discriminate.
    - intros front d enc Hf. apply handle_device_c4. }
  split; intros E Hne.
  - assert (t = (pre ++ [EvPrint encrypt_request]) ++ EvInput "> " (Some a) :: post)
      as E' by (now rewrite <- app_assoc).
    destruct (always_split _ _ _ _ H _ _ _ E' pre a eq_refl) as [H1 _].
    destruct (H1 eq_refl Hne) as [-> Ho]. rewrite Ho. now repeat split.
  - assert (t = (pre ++ [EvPrint reencrypt_request]) ++ EvInput "> " (Some a) :: post)
      as E' by (now rewrite <- app_assoc).
    destruct (always_split _ _ _ _ H _ _ _ E' pre a eq_refl) as [_ H2].
    destruct (H2 eq_refl Hne) as [-> Ho]. rewrite Ho. now repeat split.
Qed.

Lemma confirmation_mismatch_exits_witness :
  let r := run (main (Demo.host 0 false "gpt" false))
             {| stdin := ["1"; "yes"; encrypt_text; "usb"];
                tty := ["longenough1"; "longenough1"] |} in
  skipn 14 (fst r) = [EvPrint "Confirmation failed. Exiting."]
  /\ snd r = Exited 0 /\ exit_status (snd r) = 0.
Proof.
  intros r.
  apply (confirmation_mismatch_exits (Demo.host 0 false "gpt" false)
           {| stdin := ["1"; "yes"; encrypt_text; "usb"];
              tty := ["longenough1"; "longenough1"] |}
           (firstn 12 (fst r)) "yes" (skipn 14 (fst r))).
  - vm_compute. reflexivity.
  - vm_compute. discriminate.
Defined.

(** C4 as stated fails: with a wrong sentence at either gate the process
    ends at once with status 0, although the operator had more to type. *)
Lemma confirmation_mismatch_counterexample :
  (let r := run (main (Demo.host 0 false "gpt" false))
              {| stdin := ["1"; "yes"; encrypt_text; "usb"];
                 tty := ["longenough1"; "longenough1"] |} in
   skipn 12 (fst r)
   = [EvPrint encrypt_request; EvInput "> " (Some "yes");
      EvPrint "Confirmation failed. Exiting."]
   /\ snd r = Exited 0)
  /\ (let r := run (main (Demo.host 0 true "gpt" false))
                 {| stdin := ["1"; "re-encrypt"; "yes"; reencrypt_text];
                    tty := [] |} in
      skipn 13 (fst r)
      = [EvPrint reencrypt_request; EvInput "> " (Some "yes");
         EvPrint "Re-encryption cancelled. Exiting."]
      /\ snd r = Exited 0).
Proof. vm_compute. repeat split. Qed.

(** ** The test of a confirmation gate *)

(** C3 as the script has it.  A gate lets the operator through exactly when
    the answer is the sentence with whitespace around it, at either end or
    both; any other answer ends the script with status 0.  So the sentence
    followed by a space passes. *)
Theorem confirmation_gate_trims (request text cancelled : string) (s : io)
    (a : string) (rest : list string) :
  stdin s = a :: rest ->
  strip text = text ->
  let passes :=
    (exists l r, all_space l = true /\ all_space r = true
                 /\ a = l ++ text ++ r)%string in
  (confirmation_fails a text = false <-> passes)
  /\ (passes ->
      confirmation_gate request text cancelled s
      = ([EvPrint request; EvInput "> " (Some a)],
         Ret tt {| stdin := rest; tty := tty s |}))
  /\ (~ passes ->
      confirmation_gate request text cancelled s
      = ([EvPrint request; EvInput "> " (Some a); EvPrint cancelled],
         Stop (Exited 0)))
  /\ confirmation_fails (text ++ " ")%string text = false.
Proof.
  intros Hs Ht passes.
  assert (confirmation_fails a text = false <-> passes) as Hiff.
  { rewrite confirmation_fails_false. now apply strip_iff. }
  split; [exact Hiff|].
  unfold confirmation_gate, bind, print, emit, input, ret, sys_exit.
  rewrite Hs. simpl.
  split; [|split].
  - intros Hp. apply Hiff in Hp. now rewrite Hp.
  - intros Hp. destruct (confirmation_fails a text); [reflexivity|].
    destruct Hp. now apply Hiff.
  - apply confirmation_fails_false.
    pose proof (strip_surround EmptyString text " " eq_refl eq_refl) as H.
    simpl in H. now rewrite H.
Qed.

Lemma confirmation_gate_trims_witness :
  confirmation_gate encrypt_request encrypt_text "Confirmation failed. Exiting."
    {| stdin := ["I understand and want to encrypt this device "; "usb"];
       tty := [] |}
  = ([EvPrint encrypt_request;
      EvInput "> " (Some "I understand and want to encrypt this device ")],
     Ret tt {| stdin := ["usb"]; tty := [] |}).
Proof.
  apply (confirmation_gate_trims encrypt_request encrypt_text
           "Confirmation failed. Exiting."
           {| stdin := ["I understand and want to encrypt this device "; "usb"];
              tty := [] |} _ ["usb"] eq_refl eq_refl).
  exists EmptyString, " "%string. repeat split.
Defined.

(** C3 as stated fails: the sentence followed by a space is accepted, and
    the run goes on to format the device. *)
Lemma trailing_space_counterexample :
  confirmation_fails "I understand and want to encrypt this device " encrypt_text
  = false
  /\ formatted
       (fst (run (main (Demo.host 0 false "gpt" false))
               {| stdin := ["1"; "I understand and want to encrypt this device ";
                            "usb"];
                  tty := ["longenough1"; "longenough1"] |})).
Proof.
  split; [reflexivity|].
  exists "/dev/sdb"%string,
    (Some ("YES" ++ nl ++ "longenough1" ++ nl ++ "longenough1" ++ nl)%string),
    EmptyString, EmptyString.
  vm_compute. tauto.
Qed.

(** ** Passphrase policy *)

(** What the passphrase loop returns has just been typed twice. *)
Lemma passphrase_loop_returns term lines t p s' :
  passphrase_loop term lines = (t, Ret p s') ->
  exists pre,
    t = pre ++ [EvGetpass "Enter LUKS passphrase: " (Some p);
                EvGetpass "Confirm LUKS passphrase: " (Some p)].
Proof.
  assert (forall n term, (length term <= n)%nat -> forall lines t p s',
             passphrase_loop term lines = (t, Ret p s') ->
             exists pre,
               t = pre ++ [EvGetpass "Enter LUKS passphrase: " (Some p);
                           EvGetpass "Confirm LUKS passphrase: " (Some p)]) as H.
  { clear. induction n as [|n IH]; intros term Hlen lines t p s'.
    - destruct term; [|simpl in Hlen; lia]. discriminate.
    - destruct term as [|p1 [|p2 rest]]; try discriminate.
      simpl in Hlen. specialize (IH rest ltac:(lia) lines).
      simpl. unfold passphrase_turn.
      destruct (passphrase_verdict p1 p2) eqn:Hv;
        unfold bind, print, emit, ret; simpl.
      + destruct (passphrase_loop rest lines) as [t' [q s''|o]]; [|discriminate].
        intros [= <- <- <-]. destruct (IH _ _ _ eq_refl) as [pre ->].
        now exists (EvGetpass "Enter LUKS passphrase: " (Some p1)
                    :: EvGetpass "Confirm LUKS passphrase: " (Some p2)
                    :: EvPrint "Passphrases do not match." :: pre).
      + destruct (passphrase_loop rest lines) as [t' [q s''|o]]; [|discriminate].
        intros [= <- <- <-]. destruct (IH _ _ _ eq_refl) as [pre ->].
        now exists (EvGetpass "Enter LUKS passphrase: " (Some p1)
                    :: EvGetpass "Confirm LUKS passphrase: " (Some p2)
                    :: EvPrint "Passphrase too short. Use at least 8 characters."
                    :: pre).
      + intros [= <- <- <-].
        apply passphrase_verdict_accepted in Hv as [-> _]. now exists []. }
  now apply (H (length term)).
Qed.

Section Passphrase.

Variable h : Host.

Ltac c7 :=
  unfold inert, passphrase_checked, luks_open_cmd, luks_format_cmd, parted_print,
    header_backup_cmd in *;
  intros; try discriminate.

Lemma notice_inert_c7 e : notice e -> inert passphrase_checked e.
Proof. intros [msg [-> _]]. c7. Qed.

Lemma pass_inert_c7 e : pass_event e -> inert passphrase_checked e.
Proof. intros [[msg [-> _]]|[q [a ->]]]; c7. Qed.

Lemma collect_passphrase_c7 R hist :
  (forall p pre,
      (8 <= String.length p)%nat ->
      R p ((hist ++ pre) ++ [EvGetpass "Enter LUKS passphrase: " (Some p);
                             EvGetpass "Confirm LUKS passphrase: " (Some p)])) ->
  wp passphrase_checked collect_passphrase R hist.
Proof.
  intros HR s.
  destruct (emits_collect_passphrase pass_event
              (fun e He => or_introl He)
              (fun q a => or_intror (ex_intro _ q (ex_intro _ a eq_refl))) s)
    as [Ht Hv].
  assert (settled passphrase_checked hist (fst (collect_passphrase s))) as Hs.
  { apply settled_inert. eapply Forall_impl; [|exact Ht]. exact pass_inert_c7. }
  destruct (collect_passphrase s) as [t [p s'|o]] eqn:E; simpl in *.
  - split; [exact Hs|].
    destruct (passphrase_loop_returns _ _ _ _ _ E) as [pre ->].
    rewrite app_assoc. now apply HR.
  - now apply settled_always.
Qed.

Lemma encrypt_device_c7 d hist :
  wp passphrase_checked (encrypt_device h d) (fun _ _ => True) hist.
Proof.
  unfold encrypt_device, get_partition_table_type, confirmation_gate.
  walk c7. apply wp_bind, collect_passphrase_c7.
  intros p pre Hlen.
  unfold format_and_open, luks_header_backup, open_formatted, os_path_exists.
  apply wp_run_command_bind.
  - exact notice_inert_c7.
  - intros post o d' inp r [= <- <-]. exists p. eexists.
    split; [reflexivity | split; [exact Hlen | reflexivity]].
  - intros notes1 Hn1. walk c7; exact I.
Qed.

End Passphrase.

(** C7.  The passphrase loop accepts a pair of entries exactly when they are
    equal and at least 8 characters long; an accepted pair ends the loop, any
    other pair is answered by a message and the loop asks again; so the
    passphrase that the format tool is given was typed twice and has at
    least 8 characters. *)
Theorem passphrase_policy (h : Host) (s : io) :
  (forall p1 p2,
      passphrase_verdict p1 p2 = Accepted
      <-> p1 = p2 /\ (8 <= String.length p1)%nat)
  /\ (forall p1 p2 rest lines,
         passphrase_verdict p1 p2 = Accepted ->
         passphrase_loop (p1 :: p2 :: rest) lines
         = ([EvGetpass "Enter LUKS passphrase: " (Some p1);
             EvGetpass "Confirm LUKS passphrase: " (Some p2)],
            Ret p1 {| stdin := lines; tty := rest |}))
  /\ (forall p1 p2 rest lines,
         passphrase_verdict p1 p2 <> Accepted ->
         exists msg,
           passphrase_loop (p1 :: p2 :: rest) lines
           = (EvGetpass "Enter LUKS passphrase: " (Some p1)
              :: EvGetpass "Confirm LUKS passphrase: " (Some p2)
              :: EvPrint msg :: fst (passphrase_loop rest lines),
              snd (passphrase_loop rest lines)))
  /\ (forall pre d inp r post,
         fst (run (main h) s) = pre ++ EvRun (luks_format_cmd d) inp r :: post ->
         exists p pre',
           inp = Some ("YES" ++ nl ++ p ++ nl ++ p ++ nl)%string
           /\ (8 <= String.length p)%nat
           /\ pre = pre' ++ [EvGetpass "Enter LUKS passphrase: " (Some p);
                             EvGetpass "Confirm LUKS passphrase: " (Some p)]).
Proof.
  split; [exact passphrase_verdict_accepted|].
  split; [|split].
  - intros p1 p2 rest lines Hv. simpl. unfold passphrase_turn. now rewrite Hv.
  - intros p1 p2 rest lines Hv. simpl. unfold passphrase_turn.
    destruct (passphrase_verdict p1 p2); [| |contradiction];
      unfold bind, print, emit; simpl;
      destruct (passphrase_loop rest lines) as [t r]; eexists; reflexivity.
  - intros pre d inp r post E.
    assert (always passphrase_checked [] (fst (run (main h) s))
              (snd (run (main h) s))) as H.
    { apply main_always.
      - intros e0 [He|[[b ->]|[args [p ->]]]];
          [now apply notice_inert_c7 | |];
          unfold inert, passphrase_checked, luks_format_cmd; intros; discriminate.
      - intros front d' enc Hf.
        apply (wp_handle_device passphrase_checked h (fun _ => True) d');
          try (intros; exact I).
        + exact notice_inert_c7.
        + intros a. unfold inert, passphrase_checked; intros; discriminate.
        + intros hist _. unfold open_encrypted, os_path_exists.
          walk ltac:(unfold inert, passphrase_checked, luks_open_cmd,
                       luks_format_cmd in *; intros; try discriminate).
        + intros hist _. unfold confirmation_gate.
          walk ltac:(unfold inert, passphrase_checked in *; intros;
                     try discriminate).
          now apply wp_ret.
        + intros hist _. apply encrypt_device_c7. }
    exact (always_split _ _ _ _ H _ _ _ E d inp r eq_refl).
Qed.

Lemma passphrase_policy_witness :
  passphrase_loop ["longenough1"; "longenough1"; "x"] []
  = ([EvGetpass "Enter LUKS passphrase: " (Some "longenough1");
      EvGetpass "Confirm LUKS passphrase: " (Some "longenough1")],
     Ret "longenough1"%string {| stdin := []; tty := ["x"] |})
  /\ (exists msg,
        passphrase_loop ["abc123"; "abc123"; "longenough1"; "different1"] []
        = (EvGetpass "Enter LUKS passphrase: " (Some "abc123")
           :: EvGetpass "Confirm LUKS passphrase: " (Some "abc123")
           :: EvPrint msg
           :: fst (passphrase_loop ["longenough1"; "different1"] []),
           snd (passphrase_loop ["longenough1"; "different1"] [])))
  /\ (exists p pre,
        Some ("YES" ++ nl ++ "longenough1" ++ nl ++ "longenough1" ++ nl)%string
        = Some ("YES" ++ nl ++ p ++ nl ++ p ++ nl)%string
        /\ (8 <= String.length p)%nat
        /\ firstn 19
             (fst (run (main (Demo.host 0 false "gpt" false))
                     {| stdin := ["1"; encrypt_text; "usb"];
                        tty := ["abc123"; "abc123"; "longenough1"; "longenough1"] |}))
           = pre ++ [EvGetpass "Enter LUKS passphrase: " (Some p);
                     EvGetpass "Confirm LUKS passphrase: " (Some p)]).
Proof.
  pose (hs := Demo.host 0 false "gpt" false).
  pose (s := {| stdin := ["1"; encrypt_text; "usb"];
                tty := ["abc123"; "abc123"; "longenough1"; "longenough1"] |}).
  destruct (passphrase_policy hs s) as [_ [Hacc [Hrej Hmain]]].
  split; [|split].
  - apply Hacc. reflexivity.
  - apply Hrej. discriminate.
  - apply (Hmain (firstn 19 (fst (run (main hs) s))) "/dev/sdb"%string _
             (Exit 0 EmptyString EmptyString) (skipn 20 (fst (run (main hs) s)))).
    vm_compute. reflexivity.
Defined.

(** ** The gates of the format *)

Lemma gpt_checked_app d hist more :
  gpt_checked d hist -> gpt_checked d (hist ++ more).
Proof. intros [p [Hin Ht]]. exists p. split; [in_hist | exact Ht]. Qed.

Lemma confirmed_app hist more : confirmed hist -> confirmed (hist ++ more).
Proof.
  intros [pre [a [post [-> Ha]]]]. exists pre, a, (post ++ more).
  split; [|exact Ha]. now rewrite <- app_assoc.
Qed.

Section Gates.

Variable h : Host.

Ltac passed :=
  repeat first [ eassumption | apply gpt_checked_app | apply confirmed_app ].

Ltac c1 :=
  unfold inert, gated, mutates, luks_open_cmd, luks_format_cmd, parted_print,
    header_backup_cmd in *;
  intros; split; intros;
  repeat match goal with
         | H : _ \/ _ |- _ => destruct H
         | H : exists _, _ |- _ => destruct H
         end;
  try discriminate;
  try match goal with
      | H : EvRun _ _ _ = EvRun _ _ _ |- _ => inversion H; subst; clear H
      end;
  try lazymatch goal with
      | |- (exists _, _) /\ _ => split; [eexists; passed | passed]
      | |- _ /\ _ => split; passed
      end.

Lemma notice_inert_c1 e : notice e -> inert gated e.
Proof. intros [msg [-> _]]. c1. Qed.

Lemma pass_inert_c1 e : pass_event e -> inert gated e.
Proof. intros [[msg [-> _]]|[q [a ->]]]; c1. Qed.

Lemma encrypt_device_c1 d hist :
  wp gated (encrypt_device h d) (fun _ _ => True) hist.
Proof.
  unfold encrypt_device, get_partition_table_type, confirmation_gate,
    open_encrypted.
  walk c1. apply wp_bind.
  eapply wp_quiet;
    [apply (emits_collect_passphrase pass_event);
       [intros e0 He; now left | intros q0 a0; right; now exists q0, a0]
    | exact pass_inert_c1
    |].
  intros p seg Hseg _.
  match goal with
  | |- wp _ _ _ (?H ++ seg) =>
      assert (gpt_checked d H) as Hgpt;
      [| assert (confirmed H) as Hconf ]
  end.
  { exists (spawn h (parted_print d) None). split; [in_hist|].
    match goal with
    | H : negb (String.eqb ?x _) = false |- _ =>
        apply negb_false_iff in H; now apply String.eqb_eq in H
    end. }
  { match goal with
    | |- confirmed ((?P ++ [_]) ++ [EvInput _ (Some ?a)]) =>
        exists P, a, []
    end.
    split; [now rewrite <- app_assoc|].
    match goal with
    | H : confirmation_fails _ _ = false |- _ =>
        unfold confirmation_fails in H;
        apply negb_false_iff in H; now apply String.eqb_eq in H
    end. }
  unfold format_and_open, luks_header_backup, open_formatted, os_path_exists.
  walk c1; exact I.
Qed.

Lemma handle_device_c1 d enc front :
  wp gated (handle_device h d enc) (fun _ _ => True) front.
Proof.
  apply (wp_handle_device gated h (fun _ => True) d); try (intros; exact I).
  - exact notice_inert_c1.
  - intros a. c1.
  - intros hist _. unfold open_encrypted, os_path_exists. walk c1.
  - intros hist _. unfold confirmation_gate. walk c1. now apply wp_ret.
  - intros hist _. apply encrypt_device_c1.
Qed.

End Gates.

(** C1.  In every run, whatever is written to disk (the format, the header
    backup and its directory) comes after both gates: the partition-table
    check of that device gave exactly "gpt", and the operator answered the
    request to confirm the encryption with the exact sentence, up to
    surrounding whitespace. *)
Theorem format_is_gated (h : Host) (s : io) :
  let t := fst (run (main h) s) in
  forall pre e post,
    t = pre ++ e :: post ->
    (forall d, mutates d e -> gpt_checked d pre /\ confirmed pre)
    /\ (forall path r, e = EvMakedirs path r ->
                       (exists d, gpt_checked d pre) /\ confirmed pre).
Proof.
  intros t pre e post E.
  assert (always gated [] t (snd (run (main h) s))) as H.
  { apply main_always.
    - intros e0 [He|[[b ->]|[args [p ->]]]];
        [now apply notice_inert_c1 | |];
        unfold inert, gated, mutates, luks_format_cmd, header_backup_cmd;
        intros; split; intros;
        repeat match goal with
               | H : _ \/ _ |- _ => destruct H
               | H : exists _, _ |- _ => destruct H
               end; discriminate.
    - intros front d enc Hf. apply handle_device_c1. }
  exact (always_split _ _ _ _ H _ _ _ E).
Qed.

Lemma format_is_gated_witness :
  let t := fst (run (main (Demo.host 0 false "gpt" false))
                  {| stdin := ["1"; encrypt_text; "usb"];
                     tty := ["longenough1"; "longenough1"] |}) in
  gpt_checked "/dev/sdb" (firstn 16 t) /\ confirmed (firstn 16 t).
Proof.
  intros t.
  refine (proj1 (format_is_gated (Demo.host 0 false "gpt" false)
                   {| stdin := ["1"; encrypt_text; "usb"];
                      tty := ["longenough1"; "longenough1"] |}
                   (firstn 16 t)
                   (EvRun (luks_format_cmd "/dev/sdb")
                      (Some ("YES" ++ nl ++ "longenough1" ++ nl
                             ++ "longenough1" ++ nl)%string)
                      (Exit 0 EmptyString EmptyString))
                   (skipn 17 t) _) "/dev/sdb"%string _).
  - vm_compute. reflexivity.
  - left. eexists. eexists. reflexivity.
Defined.

(** ** Name conflict *)

Section NameConflict.

Variable h : Host.

Ltac not_open :=
  let H := fresh in
  intros [? [? [? [? H]]]]; unfold luks_open_cmd in H;
  try discriminate H;
  try (destruct H as [? [H ?]]; discriminate H).

Ltac c8 :=
  unfold inert, name_conflict, luks_open_cmd, luks_format_cmd, parted_print,
    header_backup_cmd in *;
  intros; split; intros;
  try discriminate;
  try match goal with
      | H : EvRun _ _ _ = EvRun _ _ _ |- _ => injection H as; subst; in_hist
      end.

Lemma notice_not_open e : notice e -> ~ is_luks_open e.
Proof. intros [msg [-> _]]. not_open. Qed.

Lemma notice_inert_c8 e : notice e -> inert name_conflict e.
Proof. intros [msg [-> _]]. c8. Qed.

Lemma pass_event_not_open e : pass_event e -> ~ is_luks_open e.
Proof. intros [[msg [-> _]]|[q [a ->]]]; not_open. Qed.

Lemma no_open_snoc hist e : no_open hist -> ~ is_luks_open e -> no_open (hist ++ [e]).
Proof. intros H He. apply Forall_app. split; [exact H | now constructor]. Qed.

Lemma open_encrypted_c8 A d (R : A -> list event -> Prop) hist :
  no_open hist -> wp name_conflict (open_encrypted h d) R hist.
Proof.
  intros Hno. unfold open_encrypted.
  walk_step c8. walk_step c8; [walk c8|].
  unfold os_path_exists. apply wp_bind_assoc.
  destruct (path_exists h _) eqn:Hex.
  - apply wp_emit_then.
    + intros s. unfold bind, ret, print, emit, sys_exit. simpl.
      split; [|discriminate]. intros p _. split; [reflexivity|].
      apply Forall_app. split.
      * apply no_open_snoc; [exact Hno | not_open].
      * repeat constructor; not_open.
    + walk c8.
  - apply wp_emit_then.
    + intros s. destruct (bind _ _ s) as [t [b s'|o]]; intros; c8.
    + walk c8.
Qed.

Ltac no_open_tac :=
  unfold no_open in *; rewrite ?Forall_app, ?Forall_cons_iff; repeat split;
  try assumption; try apply Forall_nil; try not_open;
  try (eapply Forall_impl; [|eassumption]; intros ? ?;
       first [now apply notice_not_open | now apply pass_event_not_open]).

Lemma open_formatted_c8 d p hist :
  no_open hist ->
  wp name_conflict
    (bind (open_formatted h d p) (fun _ => print (nl ++ "Script finished.")%string))
    (fun _ _ => True) hist.
Proof.
  intros Hno. unfold open_formatted.
  walk_step c8. walk_step c8. walk_step c8; [walk c8|].
  unfold os_path_exists. do 2 apply wp_bind_assoc.
  destruct (path_exists h _) eqn:Hex.
  - apply wp_emit_then.
    + intros s. unfold bind, ret, print, emit, sys_exit. simpl.
      split; [|discriminate]. intros q _. split; [reflexivity|].
      apply Forall_app. split.
      * apply no_open_snoc; [exact Hno | not_open].
      * repeat constructor; not_open.
    + walk c8.
  - apply wp_emit_then.
    + intros s. destruct (bind _ _ s) as [t [b s'|o]]; intros; c8.
    + walk c8; exact I.
Qed.

Lemma encrypt_device_c8 d hist :
  no_open hist -> wp name_conflict (encrypt_device h d) (fun _ _ => True) hist.
Proof.
  intros Hno. unfold encrypt_device, get_partition_table_type, confirmation_gate.
  walk c8. apply wp_bind.
  eapply wp_quiet;
    [apply (emits_collect_passphrase pass_event);
       [intros e0 He; now left | intros q0 a0; right; now exists q0, a0]
    | intros e0 [He|[q0 [a0 ->]]]; [now apply notice_inert_c8 | c8]
    |].
  intros p seg Hseg _. unfold format_and_open, luks_header_backup.
  walk c8; apply open_formatted_c8; no_open_tac.
Qed.

Lemma handle_device_c8 d enc front :
  Forall front_event front ->
  wp name_conflict (handle_device h d enc) (fun _ _ => True) front.
Proof.
  intros Hf.
  apply (wp_handle_device name_conflict h no_open d).
  - exact notice_inert_c8.
  - intros a. c8.
  - intros hist e Hno He. apply no_open_snoc; [exact Hno | now apply notice_not_open].
  - intros hist a Hno. apply no_open_snoc; [exact Hno | not_open].
  - intros hist Hno. now apply open_encrypted_c8.
  - intros hist Hno. unfold confirmation_gate. walk c8. apply wp_ret. no_open_tac.
  - intros hist Hno. now apply encrypt_device_c8.
  - eapply Forall_impl; [|exact Hf].
    intros e [He|[[a ->]|[args [p ->]]]]; [now apply notice_not_open | not_open ..].
Qed.

End NameConflict.

(** C8.  In both open paths, a mapper path that already exists is fatal: the
    run ends with status 1 and the LUKS open tool is never run; and
    whenever the open tool is run, the path of its mapper name was found free
    beforehand. *)
Theorem mapper_conflict_is_fatal (h : Host) (s : io) :
  let t := fst (run (main h) s) in
  let o := snd (run (main h) s) in
  (forall p, In (EvExists p true) t ->
             o = Exited 1 /\ exit_status o = 1 /\ no_open t)
  /\ (forall pre d n inp r post,
         t = pre ++ EvRun (luks_open_cmd d n) inp r :: post ->
         In (EvExists ("/dev/mapper/" ++ n)%string false) pre).
Proof.
  intros t o.
  assert (always name_conflict [] t o) as H.
  { apply main_always.
    - intros e [He|[[a ->]|[args [p ->]]]];
        [now apply notice_inert_c8 | unfold inert, name_conflict; split; intros; discriminate ..].
    - intros front d enc Hf. now apply handle_device_c8. }
  split.
  - intros p Hin. apply in_split in Hin as [pre [post E]].
    destruct (always_split _ _ _ _ H _ _ _ E) as [H1 _].
    destruct (H1 p eq_refl) as [Ho Hno]. simpl in Hno. rewrite <- E in Hno.
    rewrite Ho. now repeat split.
  - intros pre d n inp r post E.
    destruct (always_split _ _ _ _ H _ _ _ E) as [_ H2].
    exact (H2 d n inp r eq_refl).
Qed.

Lemma mapper_conflict_is_fatal_witness :
  snd (run (main (Demo.host 0 true "gpt" true))
         {| stdin := ["1"; "open"; "usb"]; tty := [] |}) = Exited 1
  /\ snd (run (main (Demo.host 0 false "gpt" true))
            {| stdin := ["1"; encrypt_text; "usb"]; tty := ["longenough1"; "longenough1"] |})
     = Exited 1.
Proof.
  split.
  - apply (mapper_conflict_is_fatal (Demo.host 0 true "gpt" true)
             {| stdin := ["1"; "open"; "usb"]; tty := [] |})
      with (p := "/dev/mapper/usb"%string).
    vm_compute. tauto.
  - apply (mapper_conflict_is_fatal (Demo.host 0 false "gpt" true)
             {| stdin := ["1"; encrypt_text; "usb"];
                tty := ["longenough1"; "longenough1"] |})
      with (p := "/dev/mapper/usb"%string).
    vm_compute. tauto.
Defined.

(** ** Empty mapper name *)

Lemma completed_ok cmd p out err :
  completed true cmd p = Ok (out, err) -> p = Exit 0 out err.
Proof.
  destruct p as [msg|rc o e]; simpl; [discriminate|].
  destruct (Z.eqb_spec rc 0) as [->|]; simpl; [|discriminate].
  now intros [= -> ->].
Qed.

Section EmptyName.

Variable h : Host.

Ltac c10 :=
  unfold inert, empty_name_fatal in *;
  intros; try discriminate;
  try match goal with
      | H : EvInput _ _ = EvInput _ _, Hp : _ \/ _ |- _ =>
          injection H as; subst; destruct Hp; discriminate
      end.

Lemma notice_inert_c10 e : notice e -> inert empty_name_fatal e.
Proof. intros [msg [-> _]]. c10. Qed.

Lemma pass_inert_c10 e : pass_event e -> inert empty_name_fatal e.
Proof. intros [[msg [-> _]]|[q [a ->]]]; c10. Qed.

Lemma mapper_prompts_differ : mapper_prompt <> mapper_prompt_new.
Proof. discriminate. Qed.

(** What follows an empty mapper name. *)
Lemma empty_name_stop prompt a hist :
  no_open hist ->
  (prompt = mapper_prompt_new -> formatted hist) ->
  empty_name_fatal hist (EvInput prompt (Some a))
    [EvPrint "Mapper name cannot be empty."] (Exited 1).
Proof. intros Hno Hf q b [= -> ->] Hq Hb. now repeat split. Qed.

(** A name that is not empty breaches nothing, whatever follows. *)
Lemma named_future {B} prompt a hist (r : list event * res B) :
  strip a <> EmptyString ->
  match r with
  | (t, Stop o) => empty_name_fatal hist (EvInput prompt (Some a)) t o
  | (t, Ret _ _) =>
      forall post o, empty_name_fatal hist (EvInput prompt (Some a)) (t ++ post) o
  end.
Proof.
  intros E.
  assert (all_space a <> true) as Hn by (intros Hs; now apply strip_empty_iff in Hs).
  destruct r as [t [b s'|o]]; unfold empty_name_fatal; intros;
    match goal with H : EvInput _ _ = EvInput _ _ |- _ => injection H as; subst end;
    contradiction.
Qed.

Lemma open_encrypted_c10 A d (R : A -> list event -> Prop) hist :
  no_open hist -> wp empty_name_fatal (open_encrypted h d) R hist.
Proof.
  intros Hno. unfold open_encrypted.
  apply wp_input_then.
  - c10.
  - intros a s. destruct (String.eqb_spec (strip a) EmptyString) as [E|E].
    + unfold bind, print, emit, sys_exit. simpl.
      apply empty_name_stop; [exact Hno|].
      intros E'. now destruct mapper_prompts_differ.
    + now apply named_future.
  - intros a. unfold os_path_exists. walk c10.
Qed.

Lemma open_formatted_c10 d p hist :
  no_open hist -> formatted hist ->
  wp empty_name_fatal
    (bind (open_formatted h d p) (fun _ => print (nl ++ "Script finished.")%string))
    (fun _ _ => True) hist.
Proof.
  intros Hno Hf. unfold open_formatted.
  apply wp_bind_assoc, wp_input_then.
  - c10.
  - intros a s. destruct (String.eqb_spec (strip a) EmptyString) as [E|E].
    + unfold bind, print, emit, sys_exit. simpl.
      now apply empty_name_stop.
    + now apply named_future.
  - intros a. unfold os_path_exists. walk c10; exact I.
Qed.

Ltac no_open10 :=
  unfold no_open in *; rewrite ?Forall_app, ?Forall_cons_iff; repeat split;
  try assumption; try apply Forall_nil;
  try (let H := fresh in
       intros [? [? [? [? H]]]]; unfold luks_open_cmd in H; discriminate H);
  try (eapply Forall_impl; [|eassumption]; intros ? ?;
       first [now apply notice_not_open | now apply pass_event_not_open]).

Lemma encrypt_device_c10 d hist :
  no_open hist -> wp empty_name_fatal (encrypt_device h d) (fun _ _ => True) hist.
Proof.
  intros Hno. unfold encrypt_device, get_partition_table_type, confirmation_gate.
  walk c10. apply wp_bind.
  eapply wp_quiet;
    [apply (emits_collect_passphrase pass_event);
       [intros e0 He; now left | intros q0 a0; right; now exists q0, a0]
    | exact pass_inert_c10
    |].
  intros p seg Hseg _. unfold format_and_open, luks_header_backup.
  walk c10;
    (apply open_formatted_c10;
     [ no_open10
     | match goal with
       | H : completed true _ (spawn h (luks_format_cmd d) ?inp) = Ok ?x |- _ =>
           destruct x as [out err]; apply completed_ok in H; rewrite H;
           exists d, inp, out, err; in_hist
       end ]).
Qed.

Lemma handle_device_c10 d enc front :
  Forall front_event front ->
  wp empty_name_fatal (handle_device h d enc) (fun _ _ => True) front.
Proof.
  intros Hf.
  apply (wp_handle_device empty_name_fatal h no_open d).
  - exact notice_inert_c10.
  - intros a. c10.
  - intros hist e Hno He. apply no_open_snoc; [exact Hno | now apply notice_not_open].
  - intros hist a Hno. no_open10.
  - intros hist Hno. now apply open_encrypted_c10.
  - intros hist Hno. unfold confirmation_gate. walk c10. apply wp_ret. no_open10.
  - intros hist Hno. now apply encrypt_device_c10.
  - eapply Forall_impl; [|exact Hf].
    intros e [He|[[a ->]|[args [p ->]]]]; [now apply notice_not_open | |];
      intros [? [? [? [? H]]]]; unfold luks_open_cmd in H; discriminate H.
Qed.

End EmptyName.

(** C10.  An empty or all-whitespace mapper name is fatal at both prompts:
    one message follows, and the process ends with status 1 without asking
    again and without running the open tool; at the prompt that follows the
    format, the device has by then been formatted. *)
Theorem empty_mapper_name_is_fatal (h : Host) (s : io) :
  let t := fst (run (main h) s) in
  let o := snd (run (main h) s) in
  forall pre prompt a post,
    t = pre ++ EvInput prompt (Some a) :: post ->
    prompt = mapper_prompt \/ prompt = mapper_prompt_new ->
    all_space a = true ->
    post = [EvPrint "Mapper name cannot be empty."]
    /\ o = Exited 1 /\ exit_status o = 1
    /\ no_open t
    /\ (prompt = mapper_prompt_new -> formatted pre).
Proof.
  intros t o pre prompt a post E Hp Ha.
  assert (always empty_name_fatal [] t o) as H.
  { apply main_always.
    - intros e [He|[[b ->]|[args [p ->]]]];
        [now apply notice_inert_c10 | |]; unfold inert, empty_name_fatal; intros;
        try discriminate.
      match goal with
      | H : EvInput _ _ = EvInput _ _, Hq : _ \/ _ |- _ =>
          injection H as; subst; destruct Hq; discriminate
      end.
    - intros front d enc Hf. now apply handle_device_c10. }
  destruct (always_split _ _ _ _ H _ _ _ E _ _ eq_refl Hp Ha)
    as [Hpost [Ho [Hno Hfmt]]].
  simpl in Hno, Hfmt. repeat split; try assumption.
  - now rewrite Ho.
  - rewrite E, Hpost. apply Forall_app. split; [exact Hno|].
    repeat constructor; intros [? [? [? [? H']]]]; discriminate H'.
Qed.

Lemma empty_mapper_name_is_fatal_witness :
  (snd (run (main (Demo.host 0 true "gpt" false))
          {| stdin := ["1"; "open"; "  "]; tty := [] |}) = Exited 1)
  /\ formatted
       (firstn 22
          (fst (run (main (Demo.host 0 false "gpt" false))
                  {| stdin := ["1"; encrypt_text; EmptyString];
                     tty := ["longenough1"; "longenough1"] |}))).
Proof.
  split.
  - pose (s := {| stdin := ["1"; "open"; "  "]; tty := [] |}).
    pose (t := fst (run (main (Demo.host 0 true "gpt" false)) s)).
    apply (empty_mapper_name_is_fatal (Demo.host 0 true "gpt" false) s
             (firstn 12 t) mapper_prompt "  " (skipn 13 t)).
    + vm_compute. reflexivity.
    + left. reflexivity.
    + reflexivity.
  - pose (s := {| stdin := ["1"; encrypt_text; EmptyString];
                  tty := ["longenough1"; "longenough1"] |}).
    pose (t := fst (run (main (Demo.host 0 false "gpt" false)) s)).
    apply (empty_mapper_name_is_fatal (Demo.host 0 false "gpt" false) s
             (firstn 22 t) mapper_prompt_new EmptyString (skipn 23 t)).
    + vm_compute. reflexivity.
    + right. reflexivity.
    + reflexivity.
    + reflexivity.
Defined.

(** * Further properties of the script *)

(** ** run_command *)

Lemma run_command_eq (h : Host) cmd inp chk s :
  run_command h cmd inp chk s
  = (EvRun cmd inp (spawn h cmd inp)
     :: diagnostics cmd (completed chk cmd (spawn h cmd inp)),
     Ret (completed chk cmd (spawn h cmd inp)) s).
Proof.
  unfold run_command, subprocess_run, bind, emit, ret, print.
  destruct (completed chk cmd (spawn h cmd inp)) as [[out err]|[]]; reflexivity.
Qed.

Lemma bind_run_command {B} (h : Host) cmd inp chk
    (k : result (string * string) -> M B) s :
  bind (run_command h cmd inp chk) k s
  = (EvRun cmd inp (spawn h cmd inp)
     :: diagnostics cmd (completed chk cmd (spawn h cmd inp))
        ++ fst (k (completed chk cmd (spawn h cmd inp)) s),
     snd (k (completed chk cmd (spawn h cmd inp)) s)).
Proof.
  unfold bind at 1. rewrite run_command_eq.
  now destruct (k _ s).
Qed.



(** ** get_block_devices: failures and the empty catalog *)

(** The start of [main] for root, up to the result of the listing. *)
Ltac main_to_listing H0 :=
  unfold run, main, check_root_privileges; rewrite H0;
  change (negb (0 =? 0)) with false; cbv iota; rewrite bind_ret_l;
  do 4 (rewrite bind_print; cbv beta);
  unfold get_block_devices; rewrite bind_assoc, bind_run_command; cbv beta;
  cbn [fst snd].

(** X2.  When the listing of the block devices fails (the tool cannot be run,
    it exits with an error, or its output is not JSON), the script reports it
    and exits with status 1, having asked the operator nothing. *)
Theorem listing_failure_is_fatal (h : Host) (s : io) (e : exn) :
  geteuid h = 0 ->
  (let? out := completed true lsblk_all (spawn h lsblk_all None) in
   json_loads h (fst out))%result = Raise e ->
  run (main h) s
  = (banner
     ++ EvRun lsblk_all None (spawn h lsblk_all None)
        :: diagnostics lsblk_all (completed true lsblk_all (spawn h lsblk_all None))
     ++ [EvPrint ("Error listing block devices: " ++ str_exn h e)%string],
     Exited 1).
Proof.
  intros H0 Hfail. main_to_listing H0. rewrite Hfail.
  rewrite bind_assoc. unfold sys_exit, bind, print, emit. reflexivity.
Qed.

Lemma listing_failure_is_fatal_witness :
  snd (run (main (with_json (Demo.host 0 false "gpt" false)
                    (fun _ => Raise (JSONDecodeError "Expecting value"))))
         {| stdin := ["1"]; tty := [] |})
  = Exited 1.
Proof.
  rewrite (listing_failure_is_fatal
             (with_json (Demo.host 0 false "gpt" false)
                (fun _ => Raise (JSONDecodeError "Expecting value")))
             {| stdin := ["1"]; tty := [] |}
             (JSONDecodeError "Expecting value") eq_refl eq_refl).
  reflexivity.
Defined.

Section EmptyCatalog.

Variable h : Host.

Lemma scan_block_other_type fields :
  ~ has_text fields "type" "disk" -> scan_block h (JObj fields) = Ok None.
Proof.
  intros Hn. unfold scan_block. simpl.
  destruct (Py.eq_str _ "disk") eqn:E; [|reflexivity].
  apply eq_str_true in E. destruct Hn. unfold has_text.
  destruct (Py.lookup "type" fields); [now subst | discriminate].
Qed.

Lemma scan_blocks_no_disk blocks acc :
  Forall (fun b => exists fields, b = JObj fields /\ ~ has_text fields "type" "disk")
    blocks ->
  scan_blocks h blocks acc = Ok acc.
Proof.
  intros H. induction H as [|b blocks [fields [-> Hn]] _ IH]; simpl; [reflexivity|].
  rewrite (scan_block_other_type _ Hn). simpl. exact IH.
Qed.

End EmptyCatalog.

(** X3.  When the listing has no "blockdevices" key, or none of its entries is
    of type "disk" (whatever else these entries hold or lack), the catalog is
    empty: the script says so and exits with status 0, having asked the
    operator nothing. *)
Theorem empty_catalog_exits (h : Host) (s : io) (out err : string)
    (fields : list (string * json)) :
  geteuid h = 0 ->
  spawn h lsblk_all None = Exit 0 out err ->
  json_loads h out = Ok (JObj fields) ->
  (Py.lookup "blockdevices" fields = None
   \/ exists blocks,
        Py.lookup "blockdevices" fields = Some (JArr blocks)
        /\ Forall (fun b => exists bf, b = JObj bf /\ ~ has_text bf "type" "disk")
             blocks) ->
  run (main h) s
  = (banner
     ++ [EvRun lsblk_all None (Exit 0 out err);
         EvPrint "No suitable USB devices found. Ensure it's connected, unmounted, and removable."],
     Exited 0).
Proof.
  intros H0 Hs Hj Hb. main_to_listing H0. rewrite Hs. simpl. rewrite Hj.
  assert (collect_devices h (JObj fields) = Ok []) as ->.
  { unfold collect_devices. simpl. destruct Hb as [->|[blocks [-> Hb]]]; simpl.
    - reflexivity.
    - now apply scan_blocks_no_disk. }
  rewrite bind_ret_l, bind_print. reflexivity.
Qed.

Lemma empty_catalog_exits_witness :
  snd (run (main (with_json (Demo.host 0 false "gpt" false)
                    (fun _ => Ok (JObj [("blockdevices"%string,
                                         JArr [JObj [("type"%string, JStr "loop")]])]))))
         {| stdin := ["1"]; tty := [] |})
  = Exited 0.
Proof.
  rewrite (empty_catalog_exits
             (with_json (Demo.host 0 false "gpt" false)
                (fun _ => Ok (JObj [("blockdevices"%string,
                                     JArr [JObj [("type"%string, JStr "loop")]])])))
             {| stdin := ["1"]; tty := [] |} "all" EmptyString
             [("blockdevices"%string, JArr [JObj [("type"%string, JStr "loop")]])]
             eq_refl eq_refl eq_refl).
  - reflexivity.
  - right. eexists. split; [reflexivity|].
    repeat constructor. eexists. split; [reflexivity|].
    unfold has_text. simpl. discriminate.
Defined.

(** ** get_block_devices: the entries it keeps *)

Section Entries.

Variable h : Host.

Lemma scan_blocks_ok blocks acc devices :
  scan_blocks h blocks acc = Ok devices <->
  exists results,
    Forall2 (fun b r => scan_block h b = Ok r) blocks results
    /\ devices = acc ++ kept results.
Proof.
  revert acc. induction blocks as [|b blocks IH]; intros acc; simpl.
  - split.
    + intros [= <-]. exists []. split; [constructor | now rewrite app_nil_r].
    + intros [results [H ->]]. inversion H. simpl. now rewrite app_nil_r.
  - destruct (scan_block h b) as [r|e] eqn:E; simpl.
    + rewrite IH. split.
      * intros [results [H ->]]. exists (r :: results). split; [now constructor|].
        destruct r; simpl; [now rewrite <- app_assoc | reflexivity].
      * intros [results [H ->]]. inversion H as [|? r' ? results' Hr Hrest]; subst.
        rewrite E in Hr. injection Hr as <-. exists results'. split; [exact Hrest|].
        destruct r; simpl; [now rewrite <- app_assoc | reflexivity].
    + split; [discriminate|].
      intros [results [H _]]. inversion H; subst. congruence.
Qed.

Lemma scan_blocks_raise pre b post results acc e :
  Forall2 (fun b r => scan_block h b = Ok r) pre results ->
  scan_block h b = Raise e ->
  scan_blocks h (pre ++ b :: post) acc = Raise e.
Proof.
  intros H. revert acc. induction H as [|x r pre results Hx _ IH]; intros acc Hb; simpl.
  - now rewrite Hb.
  - rewrite Hx. simpl. now apply IH.
Qed.

Lemma child_mounted_entries children :
  child_mounted (map JObj children)
  = Ok (existsb (fun c => Py.truthy (field c "mountpoint")) children).
Proof.
  induction children as [|c children IH]; simpl; [reflexivity|].
  unfold field. destruct (Py.truthy _); simpl; [reflexivity | exact IH].
Qed.

Lemma strip_or_empty v text :
  text_of v = Some text ->
  Py.str_method strip (Py.or_empty v) = Ok (strip text).
Proof.
  destruct v; simpl; try discriminate; intros [= <-]; [reflexivity|].
  unfold Py.or_empty. simpl. destruct s; reflexivity.
Qed.

Lemma label_of_eq device_name model vendor size :
  (if (Py.truthy (JStr model) && Py.truthy (JStr vendor))%bool
   then (vendor ++ " " ++ model ++ " " ++ py_str h size)%string
   else (device_name ++ " " ++ py_str h size)%string)
  = label_of h device_name model vendor size.
Proof. destruct model, vendor; reflexivity. Qed.

(** The record that the loop makes of a well-formed entry. *)
Lemma scan_block_record fields n model vendor children :
  has_text fields "type" "disk" ->
  has_text fields "name" n ->
  contains "nvme" (lower n) = false ->
  Py.truthy (field fields "rm") = true ->
  text_of (field fields "model") = Some model ->
  text_of (field fields "vendor") = Some vendor ->
  (Py.lookup "children" fields = None /\ children = []
   \/ Py.lookup "children" fields = Some (JArr (map JObj children))) ->
  scan_block h (JObj fields) = Ok (Some (record_of h fields n model vendor children)).
Proof.
  unfold has_text, field. intros Hty Hn Hnvme Hrm Hm Hv Hc.
  unfold scan_block, Py.get, Py.item, Py.has. cbn [rbind].
  rewrite Hty, Hn. cbn [Py.eq_str]. rewrite String.eqb_refl. cbn [negb rbind].
  rewrite (strip_or_empty _ _ Hm). cbn [rbind].
  rewrite (strip_or_empty _ _ Hv). cbn [rbind Py.str_method].
  rewrite Hnvme.
  assert (Py.truthy match Py.lookup "rm" fields with
                    | Some x => x
                    | None => JBool false
                    end = true) as ->.
  { destruct (Py.lookup "rm" fields); [exact Hrm | discriminate Hrm]. }
  cbn [negb]. rewrite label_of_eq. unfold record_of, field. cbn [py_str].
  destruct Hc as [[Hc ->]|Hc]; rewrite Hc; cbn [rbind Py.iter].
  - cbn [existsb]. rewrite !orb_false_r. reflexivity.
  - rewrite child_mounted_entries. reflexivity.
Qed.

End Entries.

(** X4.  The catalog follows the listing: [get_block_devices] returns, in the
    order of the listing and without reading any input, one record for each
    entry that its loop keeps, and nothing else. *)
Theorem catalog_in_listing_order (h : Host) (s : io) (t : list event)
    (devices : list device) (s' : io) :
  get_block_devices h s = (t, Ret devices s') ->
  s' = s
  /\ exists out err data listed blocks results,
       spawn h lsblk_all None = Exit 0 out err
       /\ json_loads h out = Ok data
       /\ Py.get data "blockdevices" (JArr []) = Ok listed
       /\ Py.iter listed = Ok blocks
       /\ Forall2 (fun b r => scan_block h b = Ok r) blocks results
       /\ devices = kept results.
Proof.
  unfold get_block_devices. rewrite bind_run_command.
  destruct (spawn h lsblk_all None) as [msg|rc out err] eqn:Es; simpl.
  { unfold bind, print, emit, sys_exit. simpl. discriminate. }
  destruct (Z.eqb_spec rc 0) as [->|Hrc]; simpl.
  2:{ unfold bind, print, emit, sys_exit. simpl. discriminate. }
  destruct (json_loads h out) as [data|e] eqn:Ej; simpl.
  2:{ unfold bind, print, emit, sys_exit. simpl. discriminate. }
  destruct (collect_devices h data) as [devs|e] eqn:Ec; simpl; [|discriminate].
  intros [= <- <- <-]. split; [reflexivity|].
  unfold collect_devices in Ec.
  destruct (Py.get data "blockdevices" (JArr [])) as [listed|] eqn:El;
    simpl in Ec; [|discriminate].
  destruct (Py.iter listed) as [blocks|] eqn:Ei; simpl in Ec; [|discriminate].
  apply scan_blocks_ok in Ec as [results [H ->]].
  now exists out, err, data, listed, blocks, results.
Qed.

Lemma catalog_in_listing_order_witness :
  exists results,
    Forall2 (fun b r => scan_block (Demo.host 0 false "gpt" false) b = Ok r)
      [Demo.entry "sdb" "disk" JNull true [Demo.entry "sdb1" "part" JNull true []];
       Demo.entry "nvme0n1" "disk" JNull false [];
       Demo.entry "sda" "disk" JNull false []] results
    /\ [Demo.usb_record] = kept results.
Proof.
  destruct (catalog_in_listing_order (Demo.host 0 false "gpt" false)
              {| stdin := []; tty := [] |} _ [Demo.usb_record] _ eq_refl)
    as [_ [out [err [data [listed [blocks [results [Hs [Hj [Hl [Hi [H E]]]]]]]]]]]].
  injection Hs as <- <-. injection Hj as <-. injection Hl as <-. injection Hi as <-.
  now exists results.
Defined.

(** X5.  An entry of the listing that is a disk, removable and not NVMe, with
    texts (or nothing) for model and vendor and with entries for children, is
    kept whether it is mounted or not.  Its record has the path of the device,
    the size of the entry ("Unknown Size" when the entry has none), the
    trimmed model and vendor, and as label the vendor, the model and that
    size when both model and vendor are there, and else the path and that
    size; it counts as mounted exactly when the entry or one of its children
    has a mount point. *)
Theorem kept_entry_record (h : Host) (fields : list (string * json))
    (n model_text vendor_text : string) (children : list (list (string * json))) :
  has_text fields "type" "disk" ->
  has_text fields "name" n ->
  contains "nvme" (lower n) = false ->
  Py.truthy (field fields "rm") = true ->
  text_of (field fields "model") = Some model_text ->
  text_of (field fields "vendor") = Some vendor_text ->
  (Py.lookup "children" fields = None /\ children = []
   \/ Py.lookup "children" fields = Some (JArr (map JObj children))) ->
  let entry_size :=
    match Py.lookup "size" fields with
    | Some v => v
    | None => JStr "Unknown Size"
    end in
  exists dev,
    scan_block h (JObj fields) = Ok (Some dev)
    /\ name dev = ("/dev/" ++ n)%string
    /\ size dev = entry_size
    /\ model dev = strip model_text
    /\ vendor dev = strip vendor_text
    /\ (strip model_text <> EmptyString -> strip vendor_text <> EmptyString ->
        display_name dev
        = (strip vendor_text ++ " " ++ strip model_text ++ " "
           ++ py_str h entry_size)%string)
    /\ (strip model_text = EmptyString \/ strip vendor_text = EmptyString ->
        display_name dev = (("/dev/" ++ n) ++ " " ++ py_str h entry_size)%string)
    /\ (is_mounted dev = true <->
        Py.truthy (field fields "mountpoint") = true
        \/ exists c, In c children /\ Py.truthy (field c "mountpoint") = true).
Proof.
  intros Hty Hn Hnvme Hrm Hm Hv Hc entry_size.
  exists (record_of h fields n model_text vendor_text children).
  split; [now apply scan_block_record|].
  unfold record_of, entry_size.
  cbn [name model vendor display_name size is_mounted].
  repeat split.
  - intros Hmo Hve.
    destruct (strip model_text), (strip vendor_text); try congruence.
    reflexivity.
  - intros [E|E]; rewrite E; [reflexivity|]. now destruct (strip model_text).
  - intros H. apply orb_true_iff in H as [H|H]; [now left|].
    right. apply existsb_exists in H as [c [Hin Ht]]. now exists c.
  - intros [H|[c [Hin Ht]]]; apply orb_true_iff; [now left|].
    right. apply existsb_exists. now exists c.
Qed.

Lemma kept_entry_record_witness :
  exists dev,
    scan_block (Demo.host 0 false "gpt" false)
      (Demo.entry "sdb" "disk" JNull true [Demo.entry "sdb1" "part" JNull true []])
    = Ok (Some dev)
    /\ size dev = JStr "14.9G"
    /\ display_name dev = "SanDisk Ultra 14.9G"%string
    /\ is_mounted dev = false.
Proof.
  destruct (kept_entry_record (Demo.host 0 false "gpt" false)
              [("name", JStr "sdb"); ("size", JStr "14.9G"); ("type", JStr "disk");
               ("rota", JBool false); ("model", JStr "Ultra ");
               ("vendor", JStr "SanDisk "); ("fstype", JNull); ("mountpoint", JNull);
               ("rm", JBool true);
               ("children", JArr [Demo.entry "sdb1" "part" JNull true []])]%string
              "sdb" "Ultra " "SanDisk "
              [[("name", JStr "sdb1"); ("size", JStr "14.9G"); ("type", JStr "part");
                ("rota", JBool false); ("model", JStr "Ultra ");
                ("vendor", JStr "SanDisk "); ("fstype", JNull); ("mountpoint", JNull);
                ("rm", JBool true); ("children", JArr [])]]%string
              eq_refl eq_refl eq_refl eq_refl eq_refl eq_refl
              (or_intror eq_refl))
    as [dev [E [_ [Hs [_ [_ [Hl [_ Hm]]]]]]]].
  exists dev. split; [exact E|]. split; [exact Hs|]. split.
  - rewrite Hl; [reflexivity|discriminate|discriminate].
  - unfold Demo.entry in E. simpl in E. injection E as <-. reflexivity.
Defined.

(** X6.  An entry of type "disk" that has no "name" makes the loop raise
    [KeyError], which nothing catches: the script ends there with status 1,
    whatever the entries after it are.  Entries of another type that come
    before are skipped, with or without a name. *)
Theorem nameless_disk_crashes (h : Host) (s : io) (out err : string)
    (fields bf : list (string * json)) (pre post : list json)
    (results : list (option device)) :
  geteuid h = 0 ->
  spawn h lsblk_all None = Exit 0 out err ->
  json_loads h out = Ok (JObj fields) ->
  Py.lookup "blockdevices" fields = Some (JArr (pre ++ JObj bf :: post)) ->
  Forall2 (fun b r => scan_block h b = Ok r) pre results ->
  has_text bf "type" "disk" ->
  Py.lookup "name" bf = None ->
  run (main h) s = (banner ++ [EvRun lsblk_all None (Exit 0 out err)], Uncaught KeyError)
  /\ exit_status (snd (run (main h) s)) = 1.
Proof.
  intros H0 Hs Hj Hb Hpre Hty Hn.
  assert (run (main h) s
          = (banner ++ [EvRun lsblk_all None (Exit 0 out err)], Uncaught KeyError))
    as E.
  { main_to_listing H0. rewrite Hs. simpl. rewrite Hj.
    assert (collect_devices h (JObj fields) = Raise KeyError) as ->.
    { unfold collect_devices. simpl. rewrite Hb. simpl.
      apply (scan_blocks_raise h pre (JObj bf) post results); [exact Hpre|].
      unfold scan_block. simpl. unfold has_text in Hty. rewrite Hty. simpl.
      now rewrite Hn. }
    reflexivity. }
  split; [exact E | now rewrite E].
Qed.

Lemma nameless_disk_crashes_witness :
  exit_status
    (snd (run (main (with_json (Demo.host 0 false "gpt" false)
                       (fun _ => Ok (JObj [("blockdevices"%string,
                                            JArr [JObj [("type"%string, JStr "loop")];
                                                  JObj [("type"%string, JStr "disk")];
                                                  JNull])]))))
            {| stdin := ["1"]; tty := [] |})) = 1.
Proof.
  apply (nameless_disk_crashes
           (with_json (Demo.host 0 false "gpt" false)
              (fun _ => Ok (JObj [("blockdevices"%string,
                                   JArr [JObj [("type"%string, JStr "loop")];
                                         JObj [("type"%string, JStr "disk")];
                                         JNull])])))
           {| stdin := ["1"]; tty := [] |} "all" EmptyString
           [("blockdevices"%string,
             JArr [JObj [("type"%string, JStr "loop")];
                   JObj [("type"%string, JStr "disk")]; JNull])]
           [("type"%string, JStr "disk")]
           [JObj [("type"%string, JStr "loop")]] [JNull] [None]);
    try reflexivity.
  repeat constructor.
Defined.

(** ** main: the selection of the device *)

Section Selection.

Variable devices : list device.

Lemma select_turn_cases line again s :
  (lower (strip line) = "q"%string
   /\ select_turn devices line again s = ([EvPrint "Exiting."], Stop (Exited 0)))
  \/ (rejected_selection devices line
      /\ exists msg,
           select_turn devices line again s
           = (let (t, r) := again s in (EvPrint msg :: t, r)))
  \/ (lower (strip line) <> "q"%string
      /\ exists n d,
           py_int (strip line) = Some n
           /\ 1 <= n <= Z.of_nat (length devices)
           /\ nth_error devices (Z.to_nat (n - 1)) = Some d
           /\ select_turn devices line again s = ([], Ret d s)).
Proof.
  unfold select_turn.
  destruct (String.eqb_spec (lower (strip line)) "q") as [Hq|Hq].
  { left. split; [exact Hq | reflexivity]. }
  right. destruct (py_int (strip line)) as [n|] eqn:En.
  2:{ left. split; [split; [exact Hq | left; exact En]|].
      exists "Invalid input."%string. unfold bind, print, emit. simpl.
      now destruct (again s). }
  destruct (0 <=? n - 1) eqn:E1; simpl.
  2:{ left. split.
      - split; [exact Hq|]. right. exists n. split; [exact En | lia].
      - exists "Invalid selection."%string. unfold bind, print, emit. simpl.
        now destruct (again s). }
  destruct (n - 1 <? Z.of_nat (length devices)) eqn:E2; simpl.
  2:{ left. split.
      - split; [exact Hq|]. right. exists n. split; [exact En | lia].
      - exists "Invalid selection."%string. unfold bind, print, emit. simpl.
        now destruct (again s). }
  right. split; [exact Hq|].
  destruct (nth_error devices (Z.to_nat (n - 1))) as [d|] eqn:Ed.
  - exists n, d. repeat split; try lia; assumption.
  - apply nth_error_None in Ed. lia.
Qed.

Lemma select_loop_spec lines term :
  match select_loop devices lines term with
  | (t, Ret d s') =>
      exists rejected line rest n,
        lines = rejected ++ line :: rest
        /\ Forall (rejected_selection devices) rejected
        /\ lower (strip line) <> "q"%string
        /\ py_int (strip line) = Some n
        /\ 1 <= n <= Z.of_nat (length devices)
        /\ nth_error devices (Z.to_nat (n - 1)) = Some d
        /\ s' = {| stdin := rest; tty := term |}
  | (t, Stop o) =>
      (o = Exited 0
       /\ exists rejected line rest,
            lines = rejected ++ line :: rest
            /\ Forall (rejected_selection devices) rejected
            /\ lower (strip line) = "q"%string)
      \/ (o = Uncaught EOFError /\ Forall (rejected_selection devices) lines)
  end
  /\ Forall (fun e => ~ is_run e) (fst (select_loop devices lines term)).
Proof.
  induction lines as [|line rest IH]; cbn [select_loop].
  { split; [right; split; [reflexivity | constructor]|].
    repeat constructor. intros []. }
  destruct (select_turn_cases line
              (fun s => select_loop devices rest (tty s))
              {| stdin := rest; tty := term |})
    as [[Hq E]|[[Hrej [msg E]]|[Hq [n [d [En [Hn [Hd E]]]]]]]]; rewrite E.
  - split.
    + left. split; [reflexivity|]. exists [], line, rest. now repeat split.
    + repeat constructor; intros [].
  - cbn [tty]. destruct (select_loop devices rest term) as [t r].
    destruct IH as [IH Ht]. split.
    + destruct r as [d s'|o].
      * destruct IH as [rejected [l [rest' [n [-> [Hr H]]]]]].
        exists (line :: rejected), l, rest', n. split; [reflexivity|].
        split; [now constructor | exact H].
      * destruct IH as [[-> [rejected [l [rest' [-> [Hr H]]]]]]|[-> Hr]].
        -- left. split; [reflexivity|]. exists (line :: rejected), l, rest'.
           split; [reflexivity|]. split; [now constructor | exact H].
        -- right. split; [reflexivity | now constructor].
    + cbn [fst] in *. constructor; [intros []|]. constructor; [intros []|]. exact Ht.
  - split.
    + exists [], line, rest, n. now repeat split.
    + repeat constructor; intros [].
Qed.

End Selection.

(** X7.  On lines that are within the limit of [int()], the selection loop
    returns the device whose number, counted from 1 in the catalog, is on the
    first line that it does not reject, and leaves the lines after that one
    unread; the lines before it are no number or a number outside the
    catalog.  It ends the script only on a line that reads q, with status 0,
    or when standard input runs out before that, with an [EOFError]: the index
    is always in range.  It runs no tool. *)
Theorem selection_returns_numbered_device (devices : list device) (s : io) :
  Forall within_int_limit (stdin s) ->
  match select_device devices s with
  | (t, Ret d s') =>
      exists rejected line rest n,
        stdin s = rejected ++ line :: rest
        /\ Forall (rejected_selection devices) rejected
        /\ lower (strip line) <> "q"%string
        /\ py_int (strip line) = Some n
        /\ 1 <= n <= Z.of_nat (length devices)
        /\ nth_error devices (Z.to_nat (n - 1)) = Some d
        /\ s' = {| stdin := rest; tty := tty s |}
  | (t, Stop o) =>
      (o = Exited 0
       /\ exists rejected line rest,
            stdin s = rejected ++ line :: rest
            /\ Forall (rejected_selection devices) rejected
            /\ lower (strip line) = "q"%string)
      \/ (o = Uncaught EOFError /\ Forall (rejected_selection devices) (stdin s))
  end
  /\ Forall (fun e => ~ is_run e) (fst (select_device devices s)).
Proof. intros _. unfold select_device. apply select_loop_spec. Qed.

Lemma selection_returns_numbered_device_witness :
  exists rejected line rest n,
    ["x"; "9"; " 1 "; "open"]%string = rejected ++ line :: rest
    /\ Forall (rejected_selection [Demo.usb_record]) rejected
    /\ lower (strip line) <> "q"%string
    /\ py_int (strip line) = Some n
    /\ 1 <= n <= 1
    /\ nth_error [Demo.usb_record] (Z.to_nat (n - 1)) = Some Demo.usb_record
    /\ {| stdin := ["open"]; tty := [] |} = {| stdin := rest; tty := [] |}.
Proof.
  assert (Forall within_int_limit ["x"; "9"; " 1 "; "open"]%string) as H.
  { repeat constructor; unfold within_int_limit, int_max_str_digits; simpl; lia. }
  exact (proj1 (selection_returns_numbered_device [Demo.usb_record]
                  {| stdin := ["x"; "9"; " 1 "; "open"]; tty := [] |} H)).
Defined.

(** ** The numbers of the menu *)

Section Numbers.

Local Open Scope string_scope.

Lemma string_of_uint_digits d : all_digits (NilEmpty.string_of_uint d) = true.
Proof. induction d; simpl; auto. Qed.

Lemma digit_not_space c : is_digit c = true -> isspace c = false.
Proof.
  destruct c as [[] [] [] [] [] [] [] []]; try discriminate; reflexivity.
Qed.

Lemma digits_rstrip s : all_digits s = true -> rstrip s = s.
Proof.
  induction s as [|c s IH]; simpl; [reflexivity|].
  intros H. apply andb_true_iff in H as [Hc Hs]. rewrite (IH Hs).
  destruct s; [now rewrite (digit_not_space _ Hc) | reflexivity].
Qed.

Lemma digits_strip s : all_digits s = true -> strip s = s.
Proof.
  intros H. unfold strip.
  assert (lstrip s = s) as ->.
  { destruct s as [|c s]; [reflexivity|]. simpl in *.
    apply andb_true_iff in H as [Hc _]. now rewrite (digit_not_space _ Hc). }
  now apply digits_rstrip.
Qed.

Lemma digits_not_q s : all_digits s = true -> lower s <> "q".
Proof.
  destruct s as [|c s]; [discriminate|]. simpl. intros H.
  apply andb_true_iff in H as [Hc _].
  destruct c as [[] [] [] [] [] [] [] []]; try discriminate Hc; discriminate.
Qed.

Lemma int_digits_acc d p :
  int_digits (NilEmpty.string_of_uint d) (Z.pos p) true
  = Some (Z.pos (Pos.of_uint_acc d p)).
Proof.
  revert p. induction d; intros p;
    cbn [NilEmpty.string_of_uint Pos.of_uint_acc int_digits]; [reflexivity|..];
    match goal with
    | |- context [is_digit ?c] =>
        change (is_digit c) with true;
        let v := eval vm_compute in (digit_val c) in
        change (digit_val c) with v
    end;
    cbv iota; rewrite <- IHd; f_equal; lia.
Qed.

Lemma int_digits_zero d b :
  d <> Decimal.Nil \/ b = true ->
  int_digits (NilEmpty.string_of_uint d) 0 b = Some (Z.of_N (Pos.of_uint d)).
Proof.
  revert b. induction d; intros b Hb;
    cbn [NilEmpty.string_of_uint Pos.of_uint int_digits].
  1:{ destruct Hb as [Hb| ->]; [now elim Hb | reflexivity]. }
  1:{ change (is_digit "0") with true. cbv iota. apply IHd. now right. }
  all: match goal with
       | |- context [is_digit ?c] =>
           change (is_digit c) with true;
           let v := eval vm_compute in (digit_val c) in
           change (digit_val c) with v
       end;
    cbv iota; cbn [Z.of_N]; rewrite <- int_digits_acc; f_equal.
Qed.

Lemma py_int_digits s :
  all_digits s = true -> py_int s = int_digits s 0 false.
Proof.
  intros H. unfold py_int. rewrite (digits_strip _ H).
  destruct s as [|c s]; [reflexivity|]. simpl in H.
  apply andb_true_iff in H as [Hc _].
  destruct c as [[] [] [] [] [] [] [] []]; try discriminate Hc; reflexivity.
Qed.

Lemma dec_positive p : dec (Z.pos p) = NilEmpty.string_of_uint (Pos.to_uint p).
Proof.
  unfold dec. simpl. unfold NilZero.string_of_uint.
  pose proof (DecimalPos.Unsigned.to_uint_nonnil p) as H.
  now destruct (Pos.to_uint p).
Qed.

(** [int(str(n)) == n] for a positive number, which is all digits. *)
Lemma py_int_dec p :
  all_digits (dec (Z.pos p)) = true /\ py_int (dec (Z.pos p)) = Some (Z.pos p).
Proof.
  rewrite dec_positive. split; [apply string_of_uint_digits|].
  rewrite py_int_digits by apply string_of_uint_digits.
  rewrite int_digits_zero by (left; apply DecimalPos.Unsigned.to_uint_nonnil).
  now rewrite DecimalPos.Unsigned.of_to.
Qed.

End Numbers.

Lemma list_devices_line i devices k d s :
  nth_error devices k = Some d ->
  nth_error (fst (list_devices i devices s)) k
  = Some (EvPrint ("  [" ++ dec (i + Z.of_nat k + 1) ++ "] " ++ name d
                   ++ " (" ++ display_name d ++ ") "
                   ++ (if is_mounted d then "(Currently Mounted)"
                       else EmptyString))%string).
Proof.
  revert i k. induction devices as [|x devices IH]; intros i k.
  - destruct k; discriminate.
  - cbn [list_devices]. rewrite bind_print. cbn [fst].
    destruct k as [|k]; cbn [nth_error].
    + intros [= ->]. change (Z.of_nat 0) with 0. now rewrite Z.add_0_r.
    + intros H. rewrite (IH (i + 1) k H).
      replace (i + 1 + Z.of_nat k + 1) with (i + Z.of_nat (S k) + 1) by lia.
      reflexivity.
Qed.

(** X8.  The number that the menu shows beside a device selects that device:
    the line of the [k]-th device of the catalog bears the number [k + 1], and
    that number typed at the prompt makes the selection loop return this
    device at once. *)
Theorem menu_number_selects (devices : list device) (k : nat) (d : device)
    (s : io) (rest term : list string) :
  nth_error devices k = Some d ->
  let number := dec (Z.of_nat k + 1) in
  nth_error (fst (list_devices 0 devices s)) k
  = Some (EvPrint ("  [" ++ number ++ "] " ++ name d
                   ++ " (" ++ display_name d ++ ") "
                   ++ (if is_mounted d then "(Currently Mounted)"
                       else EmptyString))%string)
  /\ select_device devices {| stdin := number :: rest; tty := term |}
     = ([EvInput select_prompt (Some number)],
        Ret d {| stdin := rest; tty := term |}).
Proof.
  intros Hk number. split; [apply (list_devices_line 0 devices k d s Hk)|].
  assert (exists p, Z.of_nat k + 1 = Z.pos p) as [p Hp].
  { exists (Pos.of_succ_nat k). lia. }
  unfold number. rewrite Hp. destruct (py_int_dec p) as [Hd Hi].
  unfold select_device. cbn [stdin tty select_loop]. unfold select_turn.
  rewrite (digits_strip _ Hd).
  destruct (String.eqb_spec (lower (dec (Z.pos p))) "q") as [Hq|_];
    [now apply digits_not_q in Hq|].
  rewrite Hi. rewrite <- Hp.
  replace (Z.of_nat k + 1 - 1) with (Z.of_nat k) by lia.
  rewrite Nat2Z.id, Hk.
  assert (k < length devices)%nat as Hlen.
  { apply nth_error_Some. now rewrite Hk. }
  destruct (Z.leb_spec 0 (Z.of_nat k)); [|lia].
  destruct (Z.ltb_spec (Z.of_nat k) (Z.of_nat (length devices))); [|lia].
  reflexivity.
Qed.

Lemma menu_number_selects_witness :
  select_device [Demo.usb_record] {| stdin := ["1"; "open"]; tty := [] |}
  = ([EvInput select_prompt (Some "1"%string)],
     Ret Demo.usb_record {| stdin := ["open"]; tty := [] |}).
Proof.
  exact (proj2 (menu_number_selects [Demo.usb_record] 0 Demo.usb_record
                  {| stdin := []; tty := [] |} ["open"] [] eq_refl)).
Defined.

(** ** Runs to the end of the script *)

Lemma diagnostics_notices cmd r : Forall notice (diagnostics cmd r).
Proof.
  destruct r as [[out err]|[]]; simpl; repeat constructor; is_notice.
Qed.

Lemma notice_is_print e : notice e -> is_print e.
Proof. intros [msg [-> _]]. now exists msg. Qed.

Lemma diagnostics_prints cmd r : Forall is_print (diagnostics cmd r).
Proof.
  eapply Forall_impl; [exact notice_is_print | apply diagnostics_notices].
Qed.

Section Runs.

Variable C : condition.
Variable h : Host.

Lemma runs_of_wp (m : M unit) R hist : wp C m R hist -> runs C m hist.
Proof.
  intros H s. unfold run. specialize (H s).
  destruct (m s) as [t [a s'|o]]; simpl.
  - now apply settled_always.
  - exact H.
Qed.

Lemma runs_bind {A} (m : M A) (k : A -> M unit) hist :
  wp C m (fun a hist' => runs C (k a) hist') hist -> runs C (bind m k) hist.
Proof.
  intros H s. unfold run, bind. specialize (H s).
  destruct (m s) as [t [a s'|o]]; [|exact H].
  destruct H as [Hs Hk]. specialize (Hk s'). unfold run in Hk.
  destruct (k a s') as [t' [b s''|o]]; simpl in *; now apply Hs.
Qed.

Lemma runs_ext (m m' : M unit) hist :
  (forall s, m s = m' s) -> runs C m hist -> runs C m' hist.
Proof. intros E H s. unfold run. rewrite <- E. apply H. Qed.

Lemma runs_bind_assoc {A B} (m : M A) (f : A -> M B) (g : B -> M unit) hist :
  runs C (bind m (fun a => bind (f a) g)) hist -> runs C (bind (bind m f) g) hist.
Proof. apply runs_ext. intros s. symmetry. apply bind_assoc. Qed.

Lemma runs_ret_bind {A} (a : A) (f : A -> M unit) hist :
  runs C (f a) hist -> runs C (bind (ret a) f) hist.
Proof. apply runs_ext. intros s. symmetry. apply bind_ret_l. Qed.

Lemma runs_sys_exit status hist : runs C (sys_exit status) hist.
Proof. intros s. exact I. Qed.

Lemma runs_uncaught e hist : runs C (uncaught e) hist.
Proof. intros s. exact I. Qed.

Lemma runs_bind_sys_exit {A} status (k : A -> M unit) hist :
  runs C (bind (sys_exit status) k) hist.
Proof. intros s. exact I. Qed.

Lemma runs_bind_uncaught {A} e (k : A -> M unit) hist :
  runs C (bind (uncaught e) k) hist.
Proof. intros s. exact I. Qed.

(** The last message of the script. *)
Lemma runs_print msg hist :
  C hist (EvPrint msg) [] Completed -> runs C (print msg) hist.
Proof. intros H s. simpl. now split. Qed.

(** A step whose event meets [C] given what the rest of the script does. *)
Lemma runs_emit_then e (k : unit -> M unit) hist :
  (forall s, C hist e (fst (run (k tt) s)) (snd (run (k tt) s))) ->
  runs C (k tt) (hist ++ [e]) ->
  runs C (bind (emit e) k) hist.
Proof.
  intros He Hk s. specialize (He s). specialize (Hk s).
  unfold run, bind, emit in *. destruct (k tt s) as [t [b s'|o]]; now split.
Qed.

Lemma runs_emit_bind e (k : unit -> M unit) hist :
  (forall post o, C hist e post o) ->
  runs C (k tt) (hist ++ [e]) ->
  runs C (bind (emit e) k) hist.
Proof. intros He. apply runs_emit_then. intros s. apply He. Qed.

Lemma runs_input_then prompt (k : string -> M unit) hist :
  C hist (EvInput prompt None) [] (Uncaught EOFError) ->
  (forall a s, C hist (EvInput prompt (Some a))
                 (fst (run (k a) s)) (snd (run (k a) s))) ->
  (forall a, runs C (k a) (hist ++ [EvInput prompt (Some a)])) ->
  runs C (bind (input prompt) k) hist.
Proof.
  intros Heof He Hk s. unfold run. rewrite bind_input.
  destruct (stdin s) as [|a rest]; [now split|].
  specialize (He a {| stdin := rest; tty := tty s |}).
  specialize (Hk a {| stdin := rest; tty := tty s |}).
  unfold run in *. destruct (k a _) as [t [b s'|o]]; now split.
Qed.

Lemma runs_input_bind prompt (k : string -> M unit) hist :
  (forall a, inert C (EvInput prompt a)) ->
  (forall a, runs C (k a) (hist ++ [EvInput prompt (Some a)])) ->
  runs C (bind (input prompt) k) hist.
Proof.
  intros He. apply runs_input_then; [apply He|]. intros a s. apply He.
Qed.

Lemma runs_getpass_bind prompt (k : string -> M unit) hist :
  (forall a, inert C (EvGetpass prompt a)) ->
  (forall a, runs C (k a) (hist ++ [EvGetpass prompt (Some a)])) ->
  runs C (bind (getpass prompt) k) hist.
Proof.
  intros He Hk. apply runs_bind. apply wp_getpass; [apply He|].
  intros a. split; [intros; apply He | apply Hk].
Qed.

(** A tool is run, its event meeting [C] given what the rest of the script
    does. *)
Lemma runs_run_command_then cmd inp chk (k : result (string * string) -> M unit)
    hist :
  (forall e, notice e -> inert C e) ->
  (forall s,
      C hist (EvRun cmd inp (spawn h cmd inp))
        (diagnostics cmd (completed chk cmd (spawn h cmd inp))
         ++ fst (run (k (completed chk cmd (spawn h cmd inp))) s))
        (snd (run (k (completed chk cmd (spawn h cmd inp))) s))) ->
  (forall notes, Forall notice notes ->
     runs C (k (completed chk cmd (spawn h cmd inp)))
       (hist ++ EvRun cmd inp (spawn h cmd inp) :: notes)) ->
  runs C (bind (run_command h cmd inp chk) k) hist.
Proof.
  intros Hn He Hk s. unfold run. rewrite bind_run_command.
  pose proof (diagnostics_notices cmd (completed chk cmd (spawn h cmd inp))) as Hd.
  specialize (He s). specialize (Hk _ Hd s). unfold run in *.
  assert (settled C (hist ++ [EvRun cmd inp (spawn h cmd inp)])
            (diagnostics cmd (completed chk cmd (spawn h cmd inp)))) as Hs.
  { apply settled_inert. eapply Forall_impl; [exact Hn | exact Hd]. }
  destruct (k _ s) as [t [b s'|o]]; simpl in *.
  - split; [exact He|]. apply Hs. now rewrite <- app_assoc.
  - split; [exact He|]. apply Hs. now rewrite <- app_assoc.
Qed.

Lemma runs_run_command_bind cmd inp chk (k : result (string * string) -> M unit)
    hist :
  (forall e, notice e -> inert C e) ->
  (forall post o, C hist (EvRun cmd inp (spawn h cmd inp)) post o) ->
  (forall notes, Forall notice notes ->
     runs C (k (completed chk cmd (spawn h cmd inp)))
       (hist ++ EvRun cmd inp (spawn h cmd inp) :: notes)) ->
  runs C (bind (run_command h cmd inp chk) k) hist.
Proof.
  intros Hn He. apply runs_run_command_then; [exact Hn|]. intros s. apply He.
Qed.

(** A part of the script whose events are all inert. *)
Lemma runs_quiet {A} (E : event -> Prop) (V : A -> Prop) (m : M A)
    (k : A -> M unit) hist :
  emits E V m ->
  (forall e, E e -> inert C e) ->
  (forall a seg, Forall E seg -> V a -> runs C (k a) (hist ++ seg)) ->
  runs C (bind m k) hist.
Proof.
  intros Hm HE Hk. apply runs_bind. eapply wp_quiet; [exact Hm | exact HE |].
  exact Hk.
Qed.

End Runs.

Ltac run_step tac :=
  lazymatch goal with
  | |- runs _ (bind (bind _ _) _) _ => apply runs_bind_assoc
  | |- runs _ (bind (ret _) _) _ => apply runs_ret_bind
  | |- runs _ (bind (print _) _) _ => apply runs_emit_bind; [intros; tac|]
  | |- runs _ (bind (emit _) _) _ => apply runs_emit_bind; [intros; tac|]
  | |- runs _ (bind (input _) _) _ =>
      apply runs_input_bind; [intros ? ? ? ?; tac | intros ?]
  | |- runs _ (bind (getpass _) _) _ =>
      apply runs_getpass_bind; [intros ? ? ? ?; tac | intros ?]
  | |- runs _ (bind (run_command _ _ _ _) _) _ =>
      apply runs_run_command_bind;
      [intros ? [? [-> ?]] ? ? ?; tac | intros; tac | intros ? ?]
  | |- runs _ (bind (sys_exit _) _) _ => apply runs_bind_sys_exit
  | |- runs _ (bind (uncaught _) _) _ => apply runs_bind_uncaught
  | |- runs _ (sys_exit _) _ => apply runs_sys_exit
  | |- runs _ (uncaught _) _ => apply runs_uncaught
  | |- runs _ (print _) _ => apply runs_print; tac
  | |- runs _ (bind (if ?b then _ else _) _) _ => destruct b eqn:?
  | |- runs _ (bind (match ?x with _ => _ end) _) _ => destruct x eqn:?
  | |- runs _ (if ?b then _ else _) _ => destruct b eqn:?
  | |- runs _ (match ?x with _ => _ end) _ => destruct x eqn:?
  end.

Ltac run_walk tac := repeat run_step tac.

(** The loop of an encrypted device, with what holds when it is left. *)
Section ActionLoop.

Variable C : condition.
Variable h : Host.
Variable Inv Post : list event -> Prop.
Variable d : string.

Hypothesis notice_inert : forall e, notice e -> inert C e.
Hypothesis action_inert : forall a, inert C (EvInput action_prompt a).
Hypothesis Inv_notice : forall hist e, Inv hist -> notice e -> Inv (hist ++ [e]).
Hypothesis Inv_action :
  forall hist a, Inv hist -> Inv (hist ++ [EvInput action_prompt a]).

Hypothesis open_ok :
  forall hist, Inv hist ->
    wp C (open_encrypted h d) (fun (_ : unit) => Post) hist.
Hypothesis gate_ok :
  forall hist, Inv hist ->
    wp C (confirmation_gate reencrypt_request reencrypt_text
            "Re-encryption cancelled. Exiting.") (fun _ => Post) hist.

Lemma wp_action_turn_left line again hist :
  Inv hist ->
  (forall hist', Inv hist' -> wp C again (fun _ => Post) hist') ->
  wp C (action_turn h d line again) (fun _ => Post) hist.
Proof.
  intros Hi Hagain. unfold action_turn.
  destruct (String.eqb _ "exit").
  { apply wp_emit_bind; [intros; apply notice_inert; is_notice|].
    apply wp_sys_exit. }
  destruct (String.eqb _ "open"); [now apply open_ok|].
  destruct (String.eqb _ "re-encrypt").
  { apply wp_emit_bind; [intros; apply notice_inert; is_notice|].
    apply gate_ok, Inv_notice; [exact Hi | is_notice]. }
  apply wp_emit_bind; [intros; apply notice_inert; is_notice|].
  apply Hagain, Inv_notice; [exact Hi | is_notice].
Qed.

Lemma wp_choose_action_left hist :
  Inv hist -> wp C (choose_action h d) (fun _ => Post) hist.
Proof.
  intros Hi s. unfold choose_action.
  generalize (tty s) as term. revert hist Hi.
  induction (stdin s) as [|line rest IH]; intros hist Hi term; simpl.
  - split; [apply action_inert | exact I].
  - assert (forall hist', Inv hist' ->
              wp C (fun s0 => action_loop h d rest (tty s0)) (fun _ => Post) hist')
      as Hagain.
    { intros hist' Hi' s0. now apply IH. }
    pose proof (wp_action_turn_left line _
                  (hist ++ [EvInput action_prompt (Some line)])
                  (Inv_action _ _ Hi) Hagain {| stdin := rest; tty := term |}) as Ht.
    destruct (action_turn _ _ _ _ _) as [t [a s'|o]]; simpl.
    + destruct Ht as [Hs HR]. split.
      * apply settled_cons; [intros; apply action_inert | exact Hs].
      * now rewrite <- app_assoc in HR.
    + split; [apply action_inert | exact Ht].
Qed.

Hypothesis encrypt_ok :
  forall hist, Post hist -> runs C (encrypt_device h d) hist.

Lemma runs_handle_device enc hist :
  (enc = true ->
   Inv (hist ++ [EvPrint (nl ++ "Note: " ++ d
                          ++ " appears to be already LUKS-encrypted.")%string])) ->
  (enc = false -> Post hist) ->
  runs C (handle_device h d enc) hist.
Proof.
  intros Hi Hp. unfold handle_device. apply runs_bind. destruct enc.
  - apply wp_emit_bind; [intros; apply notice_inert; is_notice|].
    eapply wp_weaken; [apply wp_choose_action_left; now apply Hi|].
    intros ? hist' Hp'. now apply encrypt_ok.
  - apply wp_ret. now apply encrypt_ok, Hp.
Qed.

End ActionLoop.

(** The whole script meets a condition as soon as what follows the selection
    does, if nothing that comes before can breach it. *)
Lemma main_runs (C : condition) (h : Host) :
  (forall e, prelude_event e -> inert C e) ->
  (forall front selected,
      Forall prelude_event front -> runs C (after_selection h selected) front) ->
  forall s, always C [] (fst (run (main h) s)) (snd (run (main h) s)).
Proof.
  intros Hinert Htail.
  assert (forall e, notice e -> prelude_event e) as Hn by (intros e He; now left).
  assert (forall {A} (m : M A) (k : A -> M unit) front,
             Forall prelude_event front ->
             emits prelude_event (fun _ => True) m ->
             (forall a front', Forall prelude_event front' -> runs C (k a) front') ->
             runs C (bind m k) front) as step.
  { intros A m k front Hf Hm Hk.
    eapply runs_quiet; [exact Hm | exact Hinert |].
    intros a seg Hseg _. apply Hk. now apply Forall_app. }
  change (runs C (main h) []). unfold main.
  apply step; [constructor | now apply emits_check_root_privileges |].
  intros _ f0 H0.
  apply step; [exact H0 | now apply emits_print |]. intros _ f1 H1.
  apply step; [exact H1 | now apply emits_print |]. intros _ f2 H2.
  apply step; [exact H2 | now apply emits_print |]. intros _ f3 H3.
  apply step; [exact H3 | now apply emits_print |]. intros _ f4 H4.
  apply step; [exact H4 | |].
  { apply emits_get_block_devices; [exact Hn|].
    intros p. right. right. now exists p. }
  intros [|d0 devices] f5 H5.
  - apply step; [exact H5 | now apply emits_print |]. intros _ f6 H6.
    apply runs_sys_exit.
  - apply step; [exact H5 | now apply emits_print |]. intros _ f6 H6.
    apply step; [exact H6 | now apply emits_list_devices |]. intros _ f7 H7.
    apply step; [exact H7 | |].
    { apply emits_select_device; [exact Hn|]. intros a. right. left. now exists a. }
    intros selected f8 H8. now apply (Htail f8 selected).
Qed.

(** ** The result of the open tool *)

(** A tool is run inside a part of the script, its event meeting [C] given
    what follows in that part. *)
Lemma wp_run_command_then (C : condition) (h : Host) {B} cmd inp chk
    (k : result (string * string) -> M B) R hist :
  (forall e, notice e -> inert C e) ->
  (forall s,
      match k (completed chk cmd (spawn h cmd inp)) s with
      | (t, Stop o) =>
          C hist (EvRun cmd inp (spawn h cmd inp))
            (diagnostics cmd (completed chk cmd (spawn h cmd inp)) ++ t) o
      | (t, Ret _ _) =>
          forall post o,
            C hist (EvRun cmd inp (spawn h cmd inp))
              (diagnostics cmd (completed chk cmd (spawn h cmd inp)) ++ t ++ post) o
      end) ->
  (forall notes, Forall notice notes ->
     wp C (k (completed chk cmd (spawn h cmd inp))) R
       (hist ++ EvRun cmd inp (spawn h cmd inp) :: notes)) ->
  wp C (bind (run_command h cmd inp chk) k) R hist.
Proof.
  intros Hn He Hk s. rewrite bind_run_command.
  pose proof (diagnostics_notices cmd (completed chk cmd (spawn h cmd inp))) as Hd.
  specialize (He s). specialize (Hk _ Hd s).
  assert (settled C (hist ++ [EvRun cmd inp (spawn h cmd inp)])
            (diagnostics cmd (completed chk cmd (spawn h cmd inp)))) as Hs.
  { apply settled_inert. eapply Forall_impl; [exact Hn | exact Hd]. }
  destruct (k _ s) as [t [b s'|o]]; simpl in *.
  - destruct Hk as [Hk HR]. split.
    + apply settled_cons; [intros post o; rewrite <- app_assoc; apply He|].
      apply settled_app; [exact Hs|]. now rewrite <- app_assoc.
    + now rewrite <- app_assoc in HR.
  - split; [exact He|]. apply Hs. now rewrite <- app_assoc.
Qed.

(** Walking up to the run of the open tool. *)
Ltac walk_to_open tac :=
  repeat lazymatch goal with
         | |- wp _ (bind (run_command _ (luks_open_cmd _ _) _ _) _) _ _ => fail
         | |- runs _ (bind (run_command _ (luks_open_cmd _ _) _ _) _) _ => fail
         | |- wp _ _ _ _ => walk_step tac
         | |- runs _ _ _ => run_step tac
         end.

Section OpenDecides.

Variable h : Host.

Ltac od :=
  unfold inert, open_decides, luks_open_cmd, luks_format_cmd, parted_print,
    header_backup_cmd, lsblk_one, lsblk_all in *;
  intros; try discriminate.

Ltac prints :=
  rewrite ?Forall_app; repeat split;
  try apply diagnostics_prints;
  repeat constructor; eexists; reflexivity.

Lemma notice_inert_od e : notice e -> inert open_decides e.
Proof. intros [msg [-> _]]. od. Qed.

Lemma pass_inert_od e : pass_event e -> inert open_decides e.
Proof. intros [[msg [-> _]]|[q [a ->]]]; od. Qed.

Lemma open_decides_intro hist d n inp p t o :
  Forall is_print t ->
  exit_status o = (if succeeded p then 0 else 1) ->
  open_decides hist (EvRun (luks_open_cmd d n) inp p) t o.
Proof.
  intros Ht Ho d' n' inp' p' E. unfold luks_open_cmd in E.
  injection E as <- <- <- <-. now split.
Qed.

Lemma open_encrypted_od d (R : unit -> list event -> Prop) hist :
  wp open_decides (open_encrypted h d) R hist.
Proof.
  unfold open_encrypted, os_path_exists.
  walk_to_open od.
  apply wp_run_command_then; [exact notice_inert_od | | intros notes Hn; walk od].
  intros s. destruct (spawn h _ _) as [msg|rc out err]; simpl.
  { apply open_decides_intro; [constructor | reflexivity]. }
  destruct (rc =? 0) eqn:E0; simpl.
  { unfold bind, print, emit, sys_exit. simpl.
    apply open_decides_intro; [prints | simpl; now rewrite E0]. }
  destruct (rc =? 5); unfold bind, print, emit, sys_exit; simpl;
    (apply open_decides_intro; [prints | simpl; now rewrite E0]).
Qed.

Lemma open_formatted_od d p hist :
  runs open_decides
    (bind (open_formatted h d p) (fun _ => print (nl ++ "Script finished.")%string))
    hist.
Proof.
  unfold open_formatted, os_path_exists.
  walk_to_open od.
  apply runs_run_command_then; [exact notice_inert_od | | intros notes Hn; run_walk od].
  intros s. destruct (spawn h _ _) as [msg|rc out err]; simpl.
  { unfold run, bind, print, emit, sys_exit. simpl.
    apply open_decides_intro; [prints | reflexivity]. }
  destruct (rc =? 0) eqn:E0; simpl;
    unfold run, bind, print, emit, sys_exit; simpl;
    (apply open_decides_intro; [prints | simpl; now rewrite E0]).
Qed.

Lemma encrypt_device_od d hist : runs open_decides (encrypt_device h d) hist.
Proof.
  unfold encrypt_device, get_partition_table_type, confirmation_gate.
  run_walk od.
  eapply runs_quiet;
    [apply (emits_collect_passphrase pass_event);
       [intros e0 He; now left | intros q0 a0; right; now exists q0, a0]
    | exact pass_inert_od
    |].
  intros p seg Hseg _. unfold format_and_open, luks_header_backup.
  run_walk od; apply open_formatted_od.
Qed.

Lemma after_selection_od selected front :
  runs open_decides (after_selection h selected) front.
Proof.
  unfold after_selection. run_step od.
  eapply runs_quiet with (E := fun e => notice e \/ exists p, e = EvRun (lsblk_one (name selected)) None p).
  - apply emits_detect_luks_encryption; [intros e He; now left|].
    intros p. right. now exists p.
  - intros e [He|[p ->]]; [now apply notice_inert_od | od].
  - intros enc seg _ _.
    apply (runs_handle_device open_decides h (fun _ => True) (fun _ => True));
      try (intros; exact I).
    + exact notice_inert_od.
    + intros a. od.
    + intros hist _. apply open_encrypted_od.
    + intros hist _. unfold confirmation_gate. walk od. now apply wp_ret.
    + intros hist _. apply encrypt_device_od.
Qed.

End OpenDecides.

(** X15.  Once the open tool was run, in either path, the script asks nothing
    more and runs nothing more: only messages follow, and the exit status is 0
    if the tool returned 0 and 1 if it returned anything else or could not be
    run. *)
Theorem open_result_decides_status (h : Host) (s : io) :
  let t := fst (run (main h) s) in
  let o := snd (run (main h) s) in
  forall pre d n inp p post,
    t = pre ++ EvRun (luks_open_cmd d n) inp p :: post ->
    Forall is_print post
    /\ exit_status o = (if succeeded p then 0 else 1).
Proof.
  intros t o pre d n inp p post E.
  assert (always open_decides [] t o) as H.
  { apply main_runs.
    - intros e [He|[[a ->]|[q ->]]]; [now apply notice_inert_od | |];
        unfold inert, open_decides, luks_open_cmd, lsblk_all; intros; discriminate.
    - intros front selected _. apply after_selection_od. }
  exact (always_split _ _ _ _ H _ _ _ E d n inp p eq_refl).
Qed.

Lemma open_result_decides_status_witness :
  exit_status
    (snd (run (main (failing (Demo.host 0 true "gpt" false) "luksOpen" 5))
            {| stdin := ["1"; "open"; "usb"]; tty := ["secret"] |})) = 1
  /\ exit_status
       (snd (run (main (Demo.host 0 false "gpt" false))
               {| stdin := ["1"; encrypt_text; "usb"];
                  tty := ["longenough1"; "longenough1"] |})) = 0.
Proof.
  split.
  - apply (open_result_decides_status
             (failing (Demo.host 0 true "gpt" false) "luksOpen" 5)
             {| stdin := ["1"; "open"; "usb"]; tty := ["secret"] |}
             (firstn 15 (fst (run (main (failing (Demo.host 0 true "gpt" false)
                                           "luksOpen" 5))
                                {| stdin := ["1"; "open"; "usb"];
                                   tty := ["secret"] |})))
             "/dev/sdb" "usb" (Some ("secret" ++ nl))
             (Exit 5 EmptyString "failed")
             (skipn 16 (fst (run (main (failing (Demo.host 0 true "gpt" false)
                                          "luksOpen" 5))
                               {| stdin := ["1"; "open"; "usb"];
                                  tty := ["secret"] |}))))%string.
    reflexivity.
  - apply (open_result_decides_status
             (Demo.host 0 false "gpt" false)
             {| stdin := ["1"; encrypt_text; "usb"];
                tty := ["longenough1"; "longenough1"] |}
             (firstn 24 (fst (run (main (Demo.host 0 false "gpt" false))
                                {| stdin := ["1"; encrypt_text; "usb"];
                                   tty := ["longenough1"; "longenough1"] |})))
             "/dev/sdb" "usb" (Some ("longenough1" ++ nl))
             (Exit 0 EmptyString EmptyString)
             (skipn 25 (fst (run (main (Demo.host 0 false "gpt" false))
                               {| stdin := ["1"; encrypt_text; "usb"];
                                  tty := ["longenough1"; "longenough1"] |}))))%string.
    reflexivity.
Defined.

(** ** The format and the backup of the header *)

Lemma bind_emit {B} e (k : unit -> M B) s :
  bind (emit e) k s = (e :: fst (k tt s), snd (k tt s)).
Proof. unfold bind, emit. now destruct (k tt s). Qed.

Lemma fst_run (m : M unit) s : fst (run m s) = fst (m s).
Proof. unfold run. now destruct (m s) as [t [a s'|o]]. Qed.

Lemma completed_ok_iff cmd p :
  succeeded p = true <-> exists out err, completed true cmd p = Ok (out, err).
Proof.
  destruct p as [msg|rc out err]; simpl.
  - split; [discriminate | intros [out [err H]]; discriminate].
  - destruct (rc =? 0); simpl; split; try discriminate; try reflexivity.
    + intros _. now exists out, err.
    + intros [out' [err' H]]. discriminate.
Qed.

(** Walking up to the run of a tool that writes to the device. *)
Ltac walk_to_write tac :=
  repeat lazymatch goal with
         | |- runs _ (bind (run_command _ (luks_format_cmd _) _ _) _) _ => fail
         | |- runs _ (bind (run_command _ (header_backup_cmd _ _) _ _) _) _ => fail
         | |- wp _ _ _ _ => walk_step tac
         | |- runs _ _ _ => run_step tac
         end.

Section FormatDecides.

Variable h : Host.

Ltac fd :=
  unfold inert, format_decides, luks_open_cmd, luks_format_cmd, parted_print,
    header_backup_cmd, lsblk_one, lsblk_all in *;
  intros; try discriminate.

Lemma notice_inert_fd e : notice e -> inert (format_decides h) e.
Proof. intros [msg [-> _]]. fd. Qed.

Lemma pass_inert_fd e : pass_event e -> inert (format_decides h) e.
Proof. intros [[msg [-> _]]|[q [a ->]]]; fd. Qed.

Lemma format_failed hist d inp p x :
  completed true (luks_format_cmd d) p = Raise x ->
  format_decides h hist (EvRun (luks_format_cmd d) inp p)
    (diagnostics (luks_format_cmd d) (Raise x)
     ++ [EvPrint ("Formatting failed: " ++ str_exn h x)%string])
    (Exited 1).
Proof.
  intros Hx d' inp' p' E. unfold luks_format_cmd in E. injection E as <- <- <-.
  split.
  - intros x' Hx'. rewrite Hx in Hx'. injection Hx' as <-. now split.
  - intros Hs. apply (completed_ok_iff (luks_format_cmd d)) in Hs as [out [err Hs]].
    congruence.
Qed.

Lemma format_succeeded hist d inp p post o :
  succeeded p = true ->
  (exists made rest,
      post = EvPrint (nl ++ "Successfully formatted " ++ d
                      ++ " with LUKS.")%string
             :: EvMakedirs (backup_dir h) made :: rest
      /\ match made with
         | Some msg => rest = [] /\ o = Uncaught (OSError msg)
         | None =>
             exists rest',
               rest = EvRun (header_backup_cmd d (backup_file h d)) None
                        (spawn h (header_backup_cmd d (backup_file h d)) None)
                      :: rest'
         end) ->
  format_decides h hist (EvRun (luks_format_cmd d) inp p) post o.
Proof.
  intros Hs Hp d' inp' p' E. unfold luks_format_cmd in E. injection E as <- <- <-.
  split; [|intros _; exact Hp].
  intros x Hx. apply (completed_ok_iff (luks_format_cmd d)) in Hs as [out [err Hs]].
  congruence.
Qed.

Lemma format_and_open_fd d passphrase hist :
  runs (format_decides h) (format_and_open h d passphrase) hist.
Proof.
  unfold format_and_open.
  apply runs_run_command_then; [exact notice_inert_fd | |].
  2:{ intros notes Hn. unfold luks_header_backup, open_formatted, os_path_exists.
      run_walk fd. }
  intros s.
  destruct (completed true (luks_format_cmd d) (spawn h (luks_format_cmd d) _))
    as [[out err]|x] eqn:Ec.
  2:{ unfold run. rewrite bind_assoc, bind_print. simpl.
      now apply format_failed. }
  apply format_succeeded; [apply (completed_ok_iff (luks_format_cmd d)); eauto|].
  exists (makedirs h (backup_dir h)).
  rewrite fst_run. unfold run. rewrite bind_print. cbv beta.
  unfold luks_header_backup. rewrite !bind_assoc, bind_emit. cbv beta.
  fold (backup_dir h).
  destruct (makedirs h (backup_dir h)) as [msg|] eqn:Em.
  - exists []. simpl. repeat split.
  - rewrite !bind_assoc, bind_run_command. cbn [fst snd diagnostics app].
    eexists. split; [reflexivity|]. eexists. unfold backup_file. reflexivity.
Qed.

Lemma encrypt_device_fd d hist : runs (format_decides h) (encrypt_device h d) hist.
Proof.
  unfold encrypt_device, get_partition_table_type, confirmation_gate.
  run_walk fd.
  eapply runs_quiet;
    [apply (emits_collect_passphrase pass_event);
       [intros e0 He; now left | intros q0 a0; right; now exists q0, a0]
    | exact pass_inert_fd
    |].
  intros p seg Hseg _. apply format_and_open_fd.
Qed.

Lemma after_selection_fd selected front :
  runs (format_decides h) (after_selection h selected) front.
Proof.
  unfold after_selection. run_step fd.
  eapply runs_quiet
    with (E := fun e => notice e
                        \/ exists p, e = EvRun (lsblk_one (name selected)) None p).
  - apply emits_detect_luks_encryption; [intros e He; now left|].
    intros p. right. now exists p.
  - intros e [He|[p ->]]; [now apply notice_inert_fd | fd].
  - intros enc seg _ _.
    apply (runs_handle_device (format_decides h) h (fun _ => True) (fun _ => True));
      try (intros; exact I).
    + exact notice_inert_fd.
    + intros a. fd.
    + intros hist _. unfold open_encrypted, os_path_exists. walk fd.
    + intros hist _. unfold confirmation_gate. walk fd. now apply wp_ret.
    + intros hist _. apply encrypt_device_fd.
Qed.

End FormatDecides.

(** X11.  When the format tool fails, whether it returns an error or cannot be
    run, the script reports it and exits with status 1: no backup is taken and
    nothing is opened.  When it succeeds the script makes the directory of the
    header backups next; if that fails, the exception is not caught and the
    script ends there, the device formatted and not opened. *)
Theorem format_result_decides (h : Host) (s : io) :
  let t := fst (run (main h) s) in
  let o := snd (run (main h) s) in
  forall pre d inp p post,
    t = pre ++ EvRun (luks_format_cmd d) inp p :: post ->
    (forall x,
        completed true (luks_format_cmd d) p = Raise x ->
        post = diagnostics (luks_format_cmd d) (Raise x)
               ++ [EvPrint ("Formatting failed: " ++ str_exn h x)%string]
        /\ o = Exited 1)
    /\ (succeeded p = true ->
        exists made rest,
          post = EvPrint (nl ++ "Successfully formatted " ++ d
                          ++ " with LUKS.")%string
                 :: EvMakedirs (backup_dir h) made :: rest
          /\ match made with
             | Some msg => rest = [] /\ o = Uncaught (OSError msg)
             | None =>
                 exists rest',
                   rest = EvRun (header_backup_cmd d (backup_file h d)) None
                            (spawn h (header_backup_cmd d (backup_file h d)) None)
                          :: rest'
             end).
Proof.
  intros t o pre d inp p post E.
  assert (always (format_decides h) [] t o) as H.
  { apply main_runs.
    - intros e [He|[[a ->]|[q ->]]]; [now apply notice_inert_fd | |];
        unfold inert, format_decides, luks_format_cmd, lsblk_all;
        intros; discriminate.
    - intros front selected _. apply after_selection_fd. }
  exact (always_split _ _ _ _ H _ _ _ E d inp p eq_refl).
Qed.

Lemma format_result_decides_witness :
  snd (run (main (failing (Demo.host 0 false "gpt" false) "luksFormat" 1))
         {| stdin := ["1"; encrypt_text; "usb"];
            tty := ["longenough1"; "longenough1"] |})
  = Exited 1.
Proof.
  apply (format_result_decides
           (failing (Demo.host 0 false "gpt" false) "luksFormat" 1)
           {| stdin := ["1"; encrypt_text; "usb"];
              tty := ["longenough1"; "longenough1"] |}
           (firstn 16 (fst (run (main (failing (Demo.host 0 false "gpt" false)
                                         "luksFormat" 1))
                              {| stdin := ["1"; encrypt_text; "usb"];
                                 tty := ["longenough1"; "longenough1"] |})))
           "/dev/sdb"
           (Some ("YES" ++ nl ++ "longenough1" ++ nl ++ "longenough1" ++ nl))
           (Exit 1 EmptyString "failed")
           (skipn 17 (fst (run (main (failing (Demo.host 0 false "gpt" false)
                                        "luksFormat" 1))
                             {| stdin := ["1"; encrypt_text; "usb"];
                                tty := ["longenough1"; "longenough1"] |})))
           eq_refl)%string
    with (x := CalledProcessError (luks_format_cmd "/dev/sdb") 1 EmptyString "failed").
  reflexivity.
Defined.

Section BackupTolerated.

Variable h : Host.

Ltac bt :=
  unfold inert, backup_tolerated, luks_open_cmd, luks_format_cmd, parted_print,
    header_backup_cmd, lsblk_one, lsblk_all in *;
  intros; try discriminate.

Lemma notice_inert_bt e : notice e -> inert backup_tolerated e.
Proof. intros [msg [-> _]]. bt. Qed.

Lemma pass_inert_bt e : pass_event e -> inert backup_tolerated e.
Proof. intros [[msg [-> _]]|[q [a ->]]]; bt. Qed.

Lemma backup_intro hist d f inp p post o :
  (exists notes a rest,
      post = notes ++ EvInput mapper_prompt_new a :: rest
      /\ Forall is_print notes
      /\ (In (EvPrint (nl ++ "LUKS header backup saved to: " ++ f)%string) notes
          <-> succeeded p = true)) ->
  backup_tolerated hist (EvRun (header_backup_cmd d f) inp p) post o.
Proof.
  intros H d' f' inp' p' E. unfold header_backup_cmd in E.
  injection E as <- <- <- <-. exact H.
Qed.

Lemma not_saved cmd x f msg :
  ~ In (EvPrint (nl ++ "LUKS header backup saved to: " ++ f)%string)
      (diagnostics cmd (Raise x)
       ++ [EvPrint ("Failed to back up LUKS header: " ++ msg)%string]).
Proof.
  intros Hin. apply in_app_or in Hin as [Hin|[Hin|[]]].
  - destruct x; simpl in Hin; try contradiction.
    destruct Hin as [Hin|[Hin|[Hin|[]]]]; discriminate Hin.
  - discriminate Hin.
Qed.

Lemma open_formatted_starts d passphrase (k : unit -> M unit) s :
  exists a rest,
    fst (bind (open_formatted h d passphrase) k s)
    = EvInput mapper_prompt_new a :: rest.
Proof.
  unfold open_formatted. rewrite bind_assoc, bind_input.
  destruct (stdin s); eexists _, _; reflexivity.
Qed.

Lemma format_and_open_bt d passphrase hist :
  runs backup_tolerated (format_and_open h d passphrase) hist.
Proof.
  unfold format_and_open, luks_header_backup.
  run_step bt. walk_to_write bt.
  apply runs_run_command_then; [exact notice_inert_bt | |].
  2:{ intros notes1 Hn1. unfold open_formatted, os_path_exists. run_walk bt. }
  intros s. apply backup_intro. rewrite fst_run.
  set (f := path_join _ _).
  destruct (completed true (header_backup_cmd d f)
              (spawn h (header_backup_cmd d f) None)) as [[out err]|x] eqn:Ec.
  - rewrite bind_assoc, bind_print. cbv beta. rewrite bind_print. cbv beta.
    cbn [fst snd diagnostics app].
    match goal with
    | |- context [fst (bind (open_formatted h d passphrase) ?k s)] =>
        destruct (open_formatted_starts d passphrase k s) as [a0 [rest E]];
        rewrite E
    end.
    eexists [_; _], a0, rest. split; [reflexivity|]. split.
    + repeat constructor; eexists; reflexivity.
    + split; [|intros _; now left]. intros _.
      apply (completed_ok_iff (header_backup_cmd d f)). now exists out, err.
  - rewrite bind_print. cbv beta. cbn [fst snd].
    match goal with
    | |- context [fst (bind (open_formatted h d passphrase) ?k s)] =>
        destruct (open_formatted_starts d passphrase k s) as [a0 [rest E]];
        rewrite E
    end.
    exists (diagnostics (header_backup_cmd d f) (Raise x)
            ++ [EvPrint ("Failed to back up LUKS header: " ++ str_exn h x)%string]),
      a0, rest.
    rewrite <- app_assoc. split; [reflexivity|]. split.
    + apply Forall_app. split; [apply diagnostics_prints|].
      repeat constructor. eexists; reflexivity.
    + split; [intros Hin; now apply not_saved in Hin|].
      intros Hs.
      apply (completed_ok_iff (header_backup_cmd d f)) in Hs as [out [err Hs]].
      congruence.
Qed.

Lemma after_selection_bt selected front :
  runs backup_tolerated (after_selection h selected) front.
Proof.
  unfold after_selection. run_step bt.
  eapply runs_quiet
    with (E := fun e => notice e
                        \/ exists p, e = EvRun (lsblk_one (name selected)) None p).
  - apply emits_detect_luks_encryption; [intros e He; now left|].
    intros p. right. now exists p.
  - intros e [He|[p ->]]; [now apply notice_inert_bt | bt].
  - intros enc seg _ _.
    apply (runs_handle_device backup_tolerated h (fun _ => True) (fun _ => True));
      try (intros; exact I).
    + exact notice_inert_bt.
    + intros a. bt.
    + intros hist _. unfold open_encrypted, os_path_exists. walk bt.
    + intros hist _. unfold confirmation_gate. walk bt. now apply wp_ret.
    + intros hist _.
      unfold encrypt_device, get_partition_table_type, confirmation_gate.
      run_walk bt.
      eapply runs_quiet;
        [apply (emits_collect_passphrase pass_event);
           [intros e0 He; now left | intros q0 a0; right; now exists q0, a0]
        | exact pass_inert_bt
        |].
      intros p seg' Hseg _. apply format_and_open_bt.
Qed.

End BackupTolerated.

(** X12.  A failure of the header backup does not stop the script.  Whatever
    the backup tool does, the script prints messages, which say that the
    backup was saved exactly when the tool succeeded, and then asks for the
    mapper name to open the new volume. *)
Theorem backup_failure_is_tolerated (h : Host) (s : io) :
  let t := fst (run (main h) s) in
  forall pre d f inp p post,
    t = pre ++ EvRun (header_backup_cmd d f) inp p :: post ->
    exists notes a rest,
      post = notes ++ EvInput mapper_prompt_new a :: rest
      /\ Forall is_print notes
      /\ (In (EvPrint (nl ++ "LUKS header backup saved to: " ++ f)%string) notes
          <-> succeeded p = true).
Proof.
  intros t pre d f inp p post E.
  assert (always backup_tolerated [] t (snd (run (main h) s))) as H.
  { apply main_runs.
    - intros e [He|[[a ->]|[q ->]]]; [now apply notice_inert_bt | |];
        unfold inert, backup_tolerated, header_backup_cmd, lsblk_all;
        intros; discriminate.
    - intros front selected _. apply after_selection_bt. }
  exact (always_split _ _ _ _ H _ _ _ E d f inp p eq_refl).
Qed.

Lemma backup_failure_is_tolerated_witness :
  exists notes a rest,
    skipn 20 (fst (run (main (failing (Demo.host 0 false "gpt" false)
                                "luksHeaderBackup" 1))
                     {| stdin := ["1"; encrypt_text; "usb"];
                        tty := ["longenough1"; "longenough1"] |}))
    = notes ++ EvInput mapper_prompt_new a :: rest
    /\ Forall is_print notes
    /\ (In (EvPrint (nl ++ "LUKS header backup saved to: "
                     ++ "/root/luks_backups/sdb_20240101_120000.header")%string)
          notes
        <-> succeeded (Exit 1 EmptyString "failed") = true).
Proof.
  exact (backup_failure_is_tolerated
           (failing (Demo.host 0 false "gpt" false) "luksHeaderBackup" 1)
           {| stdin := ["1"; encrypt_text; "usb"];
              tty := ["longenough1"; "longenough1"] |}
           (firstn 19 (fst (run (main (failing (Demo.host 0 false "gpt" false)
                                         "luksHeaderBackup" 1))
                              {| stdin := ["1"; encrypt_text; "usb"];
                                 tty := ["longenough1"; "longenough1"] |})))
           "/dev/sdb" "/root/luks_backups/sdb_20240101_120000.header" None
           (Exit 1 EmptyString "failed")
           (skipn 20 (fst (run (main (failing (Demo.host 0 false "gpt" false)
                                        "luksHeaderBackup" 1))
                             {| stdin := ["1"; encrypt_text; "usb"];
                                tty := ["longenough1"; "longenough1"] |})))
           eq_refl)%string.
Defined.

(** ** luks_header_backup: the file of the backup *)

Section BackupFile.

Local Open Scope string_scope.

Lemma split_no_sep sep s : has_char sep s = false -> split sep s = [s].
Proof.
  induction s as [|c s IH]; simpl; [reflexivity|].
  intros H. apply orb_false_iff in H as [Hc Hs].
  rewrite Hc, (IH Hs). reflexivity.
Qed.

Lemma basename_of_device n : has_char "/" n = false -> basename ("/dev/" ++ n) = n.
Proof.
  intros H. unfold basename. simpl. rewrite (split_no_sep _ _ H). reflexivity.
Qed.

Lemma path_join_inside a b :
  a <> EmptyString -> (forall b', b <> String "/" b') ->
  path_join a b = if ends_with_slash a then a ++ b else a ++ "/" ++ b.
Proof.
  intros Ha Hb. unfold path_join. destruct a as [|c a]; [contradiction|].
  destruct b as [|x b]; [reflexivity|].
  destruct x as [[] [] [] [] [] [] [] []]; try reflexivity.
  now elim (Hb b).
Qed.

End BackupFile.

(** X13.  The backup of the header of [/dev/NAME] goes to the file
    [NAME_TIMESTAMP.header] inside the directory of the backups, which is made
    first.  The function runs the backup tool once on the device, reads
    nothing from the operator and returns whether the tool succeeded or not;
    only a directory that cannot be made raises. *)
Theorem header_backup_file (h : Host) (n : string) (s : io) :
  has_char "/" n = false ->
  backup_dir h <> EmptyString ->
  let d := ("/dev/" ++ n)%string in
  let file :=
    (if ends_with_slash (backup_dir h)
     then backup_dir h ++ n ++ "_" ++ strftime_now h ++ ".header"
     else backup_dir h ++ "/" ++ n ++ "_" ++ strftime_now h ++ ".header")%string in
  match makedirs h (backup_dir h) with
  | Some msg =>
      luks_header_backup h d s
      = ([EvMakedirs (backup_dir h) (Some msg)], Stop (Uncaught (OSError msg)))
  | None =>
      exists notes,
        luks_header_backup h d s
        = (EvMakedirs (backup_dir h) None
           :: EvRun (header_backup_cmd d file) None
                (spawn h (header_backup_cmd d file) None)
           :: notes, Ret tt s)
        /\ Forall is_print notes
  end.
Proof.
  intros Hn Hdir d file.
  assert (backup_file h d = file) as Hf.
  { unfold backup_file, d. rewrite (basename_of_device _ Hn).
    rewrite path_join_inside; [reflexivity | exact Hdir |].
    intros b'. destruct n as [|c n']; [discriminate|]. simpl in Hn.
    apply orb_false_iff in Hn as [Hc _]. intros E. injection E as -> _.
    discriminate Hc. }
  unfold luks_header_backup. fold (backup_dir h). fold (backup_file h d).
  rewrite Hf. rewrite bind_emit.
  destruct (makedirs h (backup_dir h)) as [msg|]; [reflexivity|].
  rewrite bind_run_command. cbv beta.
  destruct (completed true (header_backup_cmd d file) _) as [[out err]|x].
  - eexists. split; [reflexivity|].
    repeat constructor; eexists; reflexivity.
  - eexists. split; [reflexivity|]. cbn [fst].
    apply Forall_app. split; [apply diagnostics_prints|].
    repeat constructor; eexists; reflexivity.
Qed.

Lemma header_backup_file_witness :
  exists notes,
    luks_header_backup (Demo.host 0 false "gpt" false) "/dev/sdb"
      {| stdin := []; tty := [] |}
    = (EvMakedirs "/root/luks_backups" None
       :: EvRun (header_backup_cmd "/dev/sdb"
                   "/root/luks_backups/sdb_20240101_120000.header") None
            (Exit 0 EmptyString EmptyString)
       :: notes, Ret tt {| stdin := []; tty := [] |})
    /\ Forall is_print notes.
Proof.
  exact (header_backup_file (Demo.host 0 false "gpt" false) "sdb"
           {| stdin := []; tty := [] |} eq_refl
           (fun E : backup_dir (Demo.host 0 false "gpt" false) = EmptyString =>
              eq_ind (backup_dir (Demo.host 0 false "gpt" false))
                (fun x => match x with EmptyString => False | _ => True end)
                I EmptyString E)).
Defined.

(** ** What the open tool is given *)

Section OpenInput.

Variable h : Host.

Ltac oi :=
  unfold inert, open_input, luks_open_cmd, luks_format_cmd, parted_print,
    header_backup_cmd, lsblk_one, lsblk_all in *;
  intros; try discriminate.

Lemma notice_inert_oi e : notice e -> inert open_input e.
Proof. intros [msg [-> _]]. oi. Qed.

Lemma pass_inert_oi e : pass_event e -> inert open_input e.
Proof. intros [[msg [-> _]]|[q [a ->]]]; oi. Qed.

Lemma open_input_intro hist d n inp p post o :
  (exists pre prompt raw mid,
      hist = pre ++ EvInput prompt (Some raw)
                    :: EvExists ("/dev/mapper/" ++ n)%string false :: mid
      /\ (prompt = mapper_prompt \/ prompt = mapper_prompt_new)
      /\ n = strip raw
      /\ n <> EmptyString) ->
  (exists passphrase,
      inp = Some (passphrase ++ nl)%string
      /\ ((exists pre,
              hist = pre ++ [EvGetpass "Enter LUKS passphrase: " (Some passphrase)])
          \/ (exists r,
                 In (EvRun (luks_format_cmd d)
                       (Some ("YES" ++ nl ++ passphrase ++ nl
                              ++ passphrase ++ nl)%string) r) hist))) ->
  open_input hist (EvRun (luks_open_cmd d n) inp p) post o.
Proof.
  intros H1 H2 d' n' inp' p' E. unfold luks_open_cmd in E.
  injection E as <- <- <- <-. now split.
Qed.

Lemma open_encrypted_oi d (R : unit -> list event -> Prop) hist :
  wp open_input (open_encrypted h d) R hist.
Proof.
  unfold open_encrypted, os_path_exists.
  walk_to_open oi.
  apply wp_run_command_bind; [exact notice_inert_oi | | intros notes Hn; walk oi].
  intros post o. apply open_input_intro.
  - eexists hist, mapper_prompt, _, [_]. repeat rewrite <- app_assoc.
    split; [reflexivity|]. split; [now left|]. split; [reflexivity|].
    now apply String.eqb_neq.
  - eexists. split; [reflexivity|]. left. eexists. reflexivity.
Qed.

Lemma format_and_open_oi d passphrase hist :
  runs open_input (format_and_open h d passphrase) hist.
Proof.
  unfold format_and_open, luks_header_backup, open_formatted, os_path_exists.
  walk_to_open oi.
  all: apply runs_run_command_bind;
    [exact notice_inert_oi | | intros notes2 Hn2; run_walk oi].
  all: intros post o; apply open_input_intro;
    [ eexists _, mapper_prompt_new, _, []; split; [|split; [now right|split]];
      [ rewrite <- app_assoc; reflexivity
      | reflexivity
      | now apply String.eqb_neq ]
    | exists passphrase; split; [reflexivity|]; right; eexists; in_hist ].
Qed.

Lemma after_selection_oi selected front :
  runs open_input (after_selection h selected) front.
Proof.
  unfold after_selection. run_step oi.
  eapply runs_quiet
    with (E := fun e => notice e
                        \/ exists p, e = EvRun (lsblk_one (name selected)) None p).
  - apply emits_detect_luks_encryption; [intros e He; now left|].
    intros p. right. now exists p.
  - intros e [He|[p ->]]; [now apply notice_inert_oi | oi].
  - intros enc seg _ _.
    apply (runs_handle_device open_input h (fun _ => True) (fun _ => True));
      try (intros; exact I).
    + exact notice_inert_oi.
    + intros a. oi.
    + intros hist _. apply open_encrypted_oi.
    + intros hist _. unfold confirmation_gate. walk oi. now apply wp_ret.
    + intros hist _.
      unfold encrypt_device, get_partition_table_type, confirmation_gate.
      run_walk oi.
      eapply runs_quiet;
        [apply (emits_collect_passphrase pass_event);
           [intros e0 He; now left | intros q0 a0; right; now exists q0, a0]
        | exact pass_inert_oi
        |].
      intros p seg' Hseg _. apply format_and_open_oi.
Qed.

End OpenInput.

(** X14.  The open tool is run on the mapper name that the operator gave at
    the prompt just before, trimmed and not empty, and only after the path of
    that name was found free.  The passphrase it is given, followed by a line
    end, is the one typed just before when an encrypted device is opened;
    after a format it is the passphrase that the format tool was given for the
    same device, and the operator is not asked again. *)
Theorem open_uses_name_and_passphrase (h : Host) (s : io) :
  let t := fst (run (main h) s) in
  forall pre d n inp p post,
    t = pre ++ EvRun (luks_open_cmd d n) inp p :: post ->
    (exists pre' prompt raw mid,
        pre = pre' ++ EvInput prompt (Some raw)
                      :: EvExists ("/dev/mapper/" ++ n)%string false :: mid
        /\ (prompt = mapper_prompt \/ prompt = mapper_prompt_new)
        /\ n = strip raw
        /\ n <> EmptyString)
    /\ exists passphrase,
         inp = Some (passphrase ++ nl)%string
         /\ ((exists pre',
                 pre = pre' ++ [EvGetpass "Enter LUKS passphrase: "
                                  (Some passphrase)])
             \/ (exists r,
                    In (EvRun (luks_format_cmd d)
                          (Some ("YES" ++ nl ++ passphrase ++ nl
                                 ++ passphrase ++ nl)%string) r) pre)).
Proof.
  intros t pre d n inp p post E.
  assert (always open_input [] t (snd (run (main h) s))) as H.
  { apply main_runs.
    - intros e [He|[[a ->]|[q ->]]]; [now apply notice_inert_oi | |];
        unfold inert, open_input, luks_open_cmd, lsblk_all; intros; discriminate.
    - intros front selected _. apply after_selection_oi. }
  exact (always_split _ _ _ _ H _ _ _ E d n inp p eq_refl).
Qed.

Lemma open_uses_name_and_passphrase_witness :
  exists passphrase,
    Some ("longenough1" ++ nl)%string = Some (passphrase ++ nl)%string
    /\ ((exists pre',
            firstn 24 (fst (run (main (Demo.host 0 false "gpt" false))
                              {| stdin := ["1"; encrypt_text; " usb "];
                                 tty := ["longenough1"; "longenough1"] |}))
            = pre' ++ [EvGetpass "Enter LUKS passphrase: " (Some passphrase)])
        \/ (exists r,
               In (EvRun (luks_format_cmd "/dev/sdb")
                     (Some ("YES" ++ nl ++ passphrase ++ nl
                            ++ passphrase ++ nl)%string) r)
                 (firstn 24 (fst (run (main (Demo.host 0 false "gpt" false))
                                    {| stdin := ["1"; encrypt_text; " usb "];
                                       tty := ["longenough1"; "longenough1"] |}))))).
Proof.
  exact (proj2 (open_uses_name_and_passphrase
                  (Demo.host 0 false "gpt" false)
                  {| stdin := ["1"; encrypt_text; " usb "];
                     tty := ["longenough1"; "longenough1"] |}
                  (firstn 24 (fst (run (main (Demo.host 0 false "gpt" false))
                                     {| stdin := ["1"; encrypt_text; " usb "];
                                        tty := ["longenough1"; "longenough1"] |})))
                  "/dev/sdb" "usb" (Some ("longenough1" ++ nl))
                  (Exit 0 EmptyString EmptyString)
                  (skipn 25 (fst (run (main (Demo.host 0 false "gpt" false))
                                    {| stdin := ["1"; encrypt_text; " usb "];
                                       tty := ["longenough1"; "longenough1"] |})))
                  eq_refl))%string.
Defined.

(** ** The device of a run *)

Section OneDevice.

Variable h : Host.
Variable d label : string.

Lemma spares_not_run e :
  (forall cmd inp p, e <> EvRun cmd inp p) -> spares_others d e.
Proof. intros H cmd inp p d' E. now elim (H cmd inp p). Qed.

Lemma spares_notice e : notice e -> spares_others d e.
Proof. intros [msg [-> _]]. now apply spares_not_run. Qed.

Lemma spares_pass e : pass_event e -> spares_others d e.
Proof. intros [[msg [-> _]]|[q [a ->]]]; now apply spares_not_run. Qed.

Lemma spares_prelude e : prelude_event e -> spares_others d e.
Proof.
  intros [He|[[a ->]|[p ->]]];
    [now apply spares_notice | now apply spares_not_run |].
  intros cmd inp q d' E. injection E as <- <- <-.
  unfold on_device, lsblk_all, lsblk_one, parted_print, luks_format_cmd,
    header_backup_cmd, luks_open_cmd.
  intros [H|[H|[H|[[f H]|[n H]]]]]; discriminate H.
Qed.

Lemma spares_same cmd inp p : on_device d cmd -> spares_others d (EvRun cmd inp p).
Proof.
  intros H cmd' inp' p' d' E. injection E as <- <- <-.
  unfold on_device, lsblk_one, parted_print, luks_format_cmd, header_backup_cmd,
    luks_open_cmd in *.
  intros H'.
  destruct H as [H|[H|[H|[[f H]|[n H]]]]];
    destruct H' as [H'|[H'|[H'|[[f' H']|[n' H']]]]];
    rewrite H in H'; try discriminate H'; now injection H'.
Qed.

Lemma tame_app hist more :
  tame d label hist -> Forall (spares_others d) more -> tame d label (hist ++ more).
Proof.
  intros [Hin Hf] Hm. split; [apply in_or_app; now left | now apply Forall_app].
Qed.

Lemma one_device_not_run hist e post o :
  (forall cmd inp p, e <> EvRun cmd inp p) -> one_device hist e post o.
Proof. intros H cmd inp p E. now elim (H cmd inp p). Qed.

Lemma one_device_same hist cmd inp p post o :
  on_device d cmd -> tame d label hist -> one_device hist (EvRun cmd inp p) post o.
Proof.
  intros H Ht cmd' inp' p' E. injection E as <- <- <-. right. now exists d, label.
Qed.

Lemma notice_inert_one e : notice e -> inert one_device e.
Proof. intros [msg [-> _]] hist post o. now apply one_device_not_run. Qed.

Lemma pass_inert_one e : pass_event e -> inert one_device e.
Proof.
  intros [[msg [-> _]]|[q [a ->]]] hist post o; now apply one_device_not_run.
Qed.

Lemma on_device_cases :
  on_device d (lsblk_one d)
  /\ on_device d (parted_print d)
  /\ on_device d (luks_format_cmd d)
  /\ (forall f, on_device d (header_backup_cmd d f))
  /\ (forall n, on_device d (luks_open_cmd d n)).
Proof.
  unfold on_device. repeat split; eauto 8.
Qed.

Ltac on_d :=
  first [ apply (proj1 on_device_cases)
        | apply (proj1 (proj2 on_device_cases))
        | apply (proj1 (proj2 (proj2 on_device_cases)))
        | apply (proj1 (proj2 (proj2 (proj2 on_device_cases))))
        | apply (proj2 (proj2 (proj2 (proj2 on_device_cases)))) ].

Ltac spared :=
  repeat first
    [ apply Forall_nil
    | apply Forall_cons
    | assumption
    | apply spares_not_run; intros ? ? ?; discriminate
    | apply spares_same; on_d
    | (eapply Forall_impl; [|eassumption]; intros ? ?;
       first [now apply spares_notice | now apply spares_pass]) ].

Ltac tamed :=
  repeat (apply tame_app; [|solve [spared]]); assumption.

Ltac one :=
  first [ apply one_device_not_run; intros ? ? ?; discriminate
        | apply one_device_same; [on_d | tamed] ].

Lemma open_encrypted_one (R : unit -> list event -> Prop) hist :
  tame d label hist -> wp one_device (open_encrypted h d) R hist.
Proof.
  intros Ht. unfold open_encrypted, os_path_exists.
  walk ltac:(first [one | now apply notice_inert_one]).
Qed.

Lemma encrypt_device_one hist :
  tame d label hist -> runs one_device (encrypt_device h d) hist.
Proof.
  intros Ht. unfold encrypt_device, get_partition_table_type, confirmation_gate.
  run_walk ltac:(first [one | now apply notice_inert_one]).
  eapply runs_quiet;
    [apply (emits_collect_passphrase pass_event);
       [intros e0 He; now left | intros q0 a0; right; now exists q0, a0]
    | exact pass_inert_one
    |].
  intros p seg Hseg _.
  unfold format_and_open, luks_header_backup, open_formatted, os_path_exists.
  run_walk ltac:(first [one | now apply notice_inert_one]).
Qed.

Lemma handle_device_one enc hist :
  tame d label hist -> runs one_device (handle_device h d enc) hist.
Proof.
  intros Ht.
  apply (runs_handle_device one_device h (tame d label) (tame d label)).
  - exact notice_inert_one.
  - intros a hist' post o. now apply one_device_not_run.
  - intros hist' e Ht' He. apply tame_app; [exact Ht'|].
    repeat constructor. now apply spares_notice.
  - intros hist' a Ht'. apply tame_app; [exact Ht'|].
    repeat constructor. now apply spares_not_run.
  - intros hist' Ht'. now apply open_encrypted_one.
  - intros hist' Ht'. unfold confirmation_gate.
    walk ltac:(first [one | now apply notice_inert_one]).
    apply wp_ret. tamed.
  - intros hist' Ht'. now apply encrypt_device_one.
  - intros _. tamed.
  - intros _. exact Ht.
Qed.

End OneDevice.

Lemma after_selection_one (h : Host) selected front :
  Forall prelude_event front ->
  runs one_device (after_selection h selected) front.
Proof.
  intros Hf. unfold after_selection.
  set (d := name selected). set (label := display_name selected).
  assert (tame d label (front ++ [announcement d label])) as Ht.
  { split; [apply in_or_app; right; now left|].
    apply Forall_app. split.
    - eapply Forall_impl; [|exact Hf]. intros e He. now apply spares_prelude.
    - repeat constructor. now apply spares_not_run. }
  apply runs_emit_bind.
  { intros post o. now apply one_device_not_run. }
  fold (announcement d label). unfold detect_luks_encryption.
  apply runs_bind_assoc, runs_run_command_bind.
  - exact notice_inert_one.
  - intros post o. apply (one_device_same d label); [|exact Ht].
    apply on_device_cases.
  - intros notes Hn.
    assert (tame d label
              ((front ++ [announcement d label])
               ++ EvRun (lsblk_one d) None (spawn h (lsblk_one d) None) :: notes))
      as Ht'.
    { apply tame_app; [exact Ht|]. constructor.
      - apply spares_same, on_device_cases.
      - eapply Forall_impl; [|exact Hn]. intros e He. now apply spares_notice. }
    destruct (rbind _ _) as [found|e]; unfold DEBUG.
    + apply runs_ret_bind. now apply (handle_device_one h d label).
    + apply runs_bind_assoc, runs_ret_bind, runs_ret_bind.
      now apply (handle_device_one h d label).
Qed.

(** X9.  One run of the script works on one device.  Every tool that is run
    either lists all block devices or is run on the device that the script
    announced as selected, and no tool was run on another device before. *)
Theorem tools_act_on_selected_device (h : Host) (s : io) :
  let t := fst (run (main h) s) in
  forall pre cmd inp p post,
    t = pre ++ EvRun cmd inp p :: post ->
    cmd = lsblk_all
    \/ exists d label,
         on_device d cmd
         /\ In (announcement d label) pre
         /\ Forall (spares_others d) pre.
Proof.
  intros t pre cmd inp p post E.
  assert (always one_device [] t (snd (run (main h) s))) as H.
  { apply main_runs.
    - intros e [He|[[a ->]|[q ->]]] hist post' o.
      + now apply notice_inert_one.
      + now apply one_device_not_run.
      + intros cmd' inp' p' E'. injection E' as <- <- <-. now left.
    - intros front selected Hf. now apply after_selection_one. }
  exact (always_split _ _ _ _ H _ _ _ E cmd inp p eq_refl).
Qed.

Lemma tools_act_on_selected_device_witness :
  luks_format_cmd "/dev/sdb" = lsblk_all
  \/ exists d label,
       on_device d (luks_format_cmd "/dev/sdb")
       /\ In (announcement d label)
            (firstn 16 (fst (run (main (Demo.host 0 false "gpt" false))
                               {| stdin := ["1"; encrypt_text; "usb"];
                                  tty := ["longenough1"; "longenough1"] |})))
       /\ Forall (spares_others d)
            (firstn 16 (fst (run (main (Demo.host 0 false "gpt" false))
                               {| stdin := ["1"; encrypt_text; "usb"];
                                  tty := ["longenough1"; "longenough1"] |}))).
Proof.
  exact (tools_act_on_selected_device
           (Demo.host 0 false "gpt" false)
           {| stdin := ["1"; encrypt_text; "usb"];
              tty := ["longenough1"; "longenough1"] |}
           (firstn 16 (fst (run (main (Demo.host 0 false "gpt" false))
                              {| stdin := ["1"; encrypt_text; "usb"];
                                 tty := ["longenough1"; "longenough1"] |})))
           (luks_format_cmd "/dev/sdb")
           (Some ("YES" ++ nl ++ "longenough1" ++ nl ++ "longenough1" ++ nl))
           (Exit 0 EmptyString EmptyString)
           (skipn 17 (fst (run (main (Demo.host 0 false "gpt" false))
                             {| stdin := ["1"; encrypt_text; "usb"];
                                tty := ["longenough1"; "longenough1"] |})))
           eq_refl)%string.
Defined.

(** ** The gate of the re-encryption *)

Section Regated.

Variable h : Host.

Lemma reconfirmed_app hist more : reconfirmed hist -> reconfirmed (hist ++ more).
Proof.
  intros [pre [a [post [-> Ha]]]]. exists pre, a, (post ++ more).
  split; [|exact Ha]. now rewrite <- app_assoc.
Qed.

Lemma plain_not_inspection e :
  (forall d p, e <> EvRun (lsblk_one d) None p) -> finds_plain h e.
Proof. intros H d p E. now elim (H d p). Qed.

Lemma plain_notice e : notice e -> finds_plain h e.
Proof. intros [msg [-> _]]. now apply plain_not_inspection. Qed.

Lemma plain_pass e : pass_event e -> finds_plain h e.
Proof. intros [[msg [-> _]]|[q [a ->]]]; now apply plain_not_inspection. Qed.

Lemma plain_prelude e : prelude_event e -> finds_plain h e.
Proof.
  intros [He|[[a ->]|[p ->]]];
    [now apply plain_notice | now apply plain_not_inspection ..].
Qed.

Lemma cleared_app hist more :
  cleared h hist -> Forall (finds_plain h) more -> cleared h (hist ++ more).
Proof.
  intros [H|H] Hm; [left; now apply reconfirmed_app | right; now apply Forall_app].
Qed.

Lemma regated_cleared hist e post o : cleared h hist -> regated h hist e post o.
Proof.
  intros [H|H] _ [d [p [Hin Hd]]]; [exact H|].
  rewrite Forall_forall in H. specialize (H _ Hin d p eq_refl). congruence.
Qed.

Lemma regated_not_write hist e post o : ~ writes e -> regated h hist e post o.
Proof. intros H Hw. contradiction. Qed.

Ltac no_write :=
  apply regated_not_write;
  unfold writes, mutates, luks_format_cmd, header_backup_cmd, luks_open_cmd,
    parted_print, lsblk_one, lsblk_all;
  let H := fresh in
  intros [[? [[? [? H]]|[? [? [? H]]]]]|[? [? H]]]; discriminate H.

Lemma notice_inert_rg e : notice e -> inert (regated h) e.
Proof. intros [msg [-> _]] hist post o. no_write. Qed.

Lemma pass_inert_rg e : pass_event e -> inert (regated h) e.
Proof. intros [[msg [-> _]]|[q [a ->]]] hist post o; no_write. Qed.

Ltac plain :=
  repeat first
    [ apply Forall_nil
    | apply Forall_cons
    | assumption
    | apply plain_not_inspection; intros ? ?; discriminate
    | (eapply Forall_impl; [|eassumption]; intros ? ?;
       first [now apply plain_notice | now apply plain_pass]) ].

Ltac clear_tac :=
  repeat (apply cleared_app; [|solve [plain]]); assumption.

Ltac rg := first [ no_write | apply regated_cleared; clear_tac ].

Lemma open_encrypted_rg d (R : unit -> list event -> Prop) hist :
  wp (regated h) (open_encrypted h d) R hist.
Proof.
  unfold open_encrypted, os_path_exists. walk rg.
Qed.

Lemma encrypt_device_rg d hist :
  cleared h hist -> runs (regated h) (encrypt_device h d) hist.
Proof.
  intros Hc. unfold encrypt_device, get_partition_table_type, confirmation_gate.
  run_walk rg.
  eapply runs_quiet;
    [apply (emits_collect_passphrase pass_event);
       [intros e0 He; now left | intros q0 a0; right; now exists q0, a0]
    | exact pass_inert_rg
    |].
  intros p seg Hseg _.
  unfold format_and_open, luks_header_backup, open_formatted, os_path_exists.
  run_walk rg.
Qed.

Lemma gate_rg hist :
  wp (regated h)
    (confirmation_gate reencrypt_request reencrypt_text
       "Re-encryption cancelled. Exiting.") (fun _ => cleared h) hist.
Proof.
  unfold confirmation_gate. walk rg. apply wp_ret. left.
  match goal with
  | H : confirmation_fails ?a _ = false |- _ =>
      apply confirmation_fails_false in H; exists hist, a, []
  end.
  split; [|assumption]. now rewrite <- app_assoc.
Qed.

Lemma after_selection_rg selected front :
  Forall prelude_event front ->
  runs (regated h) (after_selection h selected) front.
Proof.
  intros Hf. unfold after_selection. run_step rg.
  unfold detect_luks_encryption.
  apply runs_bind_assoc, runs_run_command_bind;
    [exact notice_inert_rg | intros post o; no_write |].
  intros notes Hn.
  set (d := name selected) in *.
  assert (forall enc,
             detects h d (spawn h (lsblk_one d) None) = enc ->
             runs (regated h) (handle_device h d enc)
               ((front ++ [EvPrint (nl ++ "Selected: " ++ d ++ " ("
                                    ++ display_name selected ++ ")")%string])
                ++ EvRun (lsblk_one d) None (spawn h (lsblk_one d) None) :: notes))
    as Hh.
  { intros enc Henc.
    apply (runs_handle_device (regated h) h (fun _ => True) (cleared h));
      try (intros; exact I).
    - exact notice_inert_rg.
    - intros a hist post o. no_write.
    - intros hist _. apply open_encrypted_rg.
    - intros hist _. apply gate_rg.
    - intros hist Hc. now apply encrypt_device_rg.
    - intros ->. right. apply Forall_app. split; [apply Forall_app; split|].
      + eapply Forall_impl; [|exact Hf]. intros e He. now apply plain_prelude.
      + repeat constructor. now apply plain_not_inspection.
      + constructor.
        * intros d' p' E. unfold lsblk_one in E. injection E as <- <-.
          exact Henc.
        * eapply Forall_impl; [|exact Hn]. intros e He. now apply plain_notice. }
  unfold detects in Hh.
  destruct (rbind _ _) as [found|e]; unfold DEBUG.
  - apply runs_ret_bind. now apply Hh.
  - apply runs_bind_assoc, runs_ret_bind, runs_ret_bind. now apply Hh.
Qed.

End Regated.

(** X10.  Once the inspection of the selected device found it encrypted, the
    script writes nothing (no format, no header backup, no directory) unless
    the operator typed the sentence that confirms the re-encryption, up to
    surrounding whitespace. *)
Theorem reencryption_needs_its_sentence (h : Host) (s : io) :
  let t := fst (run (main h) s) in
  forall pre e post,
    t = pre ++ e :: post ->
    writes e ->
    found_encrypted h pre ->
    reconfirmed pre.
Proof.
  intros t pre e post E.
  assert (always (regated h) [] t (snd (run (main h) s))) as H.
  { apply main_runs.
    - intros e0 [He|[[a ->]|[q ->]]];
        [now apply notice_inert_rg | |];
        intros hist post' o; apply regated_not_write;
        unfold writes, mutates, luks_format_cmd, header_backup_cmd, lsblk_all;
        intros [[? [[? [? H]]|[? [? [? H]]]]]|[? [? H]]]; discriminate H.
    - intros front selected Hf. now apply after_selection_rg. }
  exact (always_split _ _ _ _ H _ _ _ E).
Qed.

Lemma reencryption_needs_its_sentence_witness :
  reconfirmed
    (firstn 21 (fst (run (main (Demo.host 0 true "gpt" false))
                       {| stdin := ["1"; "re-encrypt"; reencrypt_text;
                                    encrypt_text; "usb"];
                          tty := ["longenough1"; "longenough1"] |}))).
Proof.
  apply (reencryption_needs_its_sentence
           (Demo.host 0 true "gpt" false)
           {| stdin := ["1"; "re-encrypt"; reencrypt_text; encrypt_text; "usb"];
              tty := ["longenough1"; "longenough1"] |}
           (firstn 21 (fst (run (main (Demo.host 0 true "gpt" false))
                              {| stdin := ["1"; "re-encrypt"; reencrypt_text;
                                           encrypt_text; "usb"];
                                 tty := ["longenough1"; "longenough1"] |})))
           (EvRun (luks_format_cmd "/dev/sdb")
              (Some ("YES" ++ nl ++ "longenough1" ++ nl ++ "longenough1" ++ nl)%string)
              (Exit 0 EmptyString EmptyString))
           (skipn 22 (fst (run (main (Demo.host 0 true "gpt" false))
                             {| stdin := ["1"; "re-encrypt"; reencrypt_text;
                                          encrypt_text; "usb"];
                                tty := ["longenough1"; "longenough1"] |})))
           eq_refl).
  - left. exists "/dev/sdb"%string. left. eexists _, _. reflexivity.
  - exists "/dev/sdb"%string, (Exit 0 "one" EmptyString). split; [|reflexivity].
    vm_compute. tauto.
Defined.

(** ** The ways the script ends *)

Section Stops.

Variable P : list event -> outcome -> Prop.














End Stops.



Section ScanErrors.

Variable h : Host.











End ScanErrors.

Section CleanRuns.

Variable h : Host.












End CleanRuns.

